(** * framer: length-prefixed message framing over byte streams

    A shallow embedding of the Go package [framer] (stream and packet codec,
    the [Reader.WriteTo] / [Writer.ReadFrom] fast paths and the [Forwarder])
    together with the properties of its wire format and of its resumable
    state machines.

    Conventions of the embedding:
    - Go's [int], [int64] and [byte] values are integers in [Z]; the
      conversions [byte(x)], [uint16(x)] and [uint64(x)] are written out as
      reductions modulo 2^8, 2^16 and 2^64.
    - A byte slice is a [list Z]; a callee that fills a slice returns the
      updated slice.
    - [io.Reader] and [io.Writer] values are scripted transports whose state
      is threaded through the codec ([source], [sink]).
    - A Go loop is a [Fixpoint] over a fuel argument; running out of fuel and
      a nil-interface call both yield [None] (no result). *)

From Stdlib Require Import ZArith List Bool Lia.
From coqutil Require Import Z.BitOps.
Import ListNotations.
Local Open Scope Z_scope.

(** ** Errors and signals *)

Inductive error : Type :=
| EOF
| ErrUnexpectedEOF
| ErrShortBuffer
| ErrShortWrite
| ErrNoProgress
| ErrWouldBlock
| ErrMore
| ErrTooLong
| ErrInvalidArgument
| ErrOther (code : nat).

Definition error_eqb (a b : error) : bool :=
  match a, b with
  | EOF, EOF => true
  | ErrUnexpectedEOF, ErrUnexpectedEOF => true
  | ErrShortBuffer, ErrShortBuffer => true
  | ErrShortWrite, ErrShortWrite => true
  | ErrNoProgress, ErrNoProgress => true
  | ErrWouldBlock, ErrWouldBlock => true
  | ErrMore, ErrMore => true
  | ErrTooLong, ErrTooLong => true
  | ErrInvalidArgument, ErrInvalidArgument => true
  | ErrOther x, ErrOther y => Nat.eqb x y
  | _, _ => false
  end.

(** [err == e] on a possibly nil error value. *)
Definition is_err (r : option error) (e : error) : bool :=
  match r with
  | Some x => error_eqb x e
  | None => false
  end.

Definition is_nil (r : option error) : bool :=
  match r with
  | Some _ => false
  | None => true
  end.

(** ** Options: protocol and byte order *)

Inductive Protocol : Type := BinaryStream | SeqPacket | Datagram.

Definition preserveBoundary (p : Protocol) : bool :=
  match p with
  | SeqPacket | Datagram => true
  | BinaryStream => false
  end.

Inductive ByteOrder : Type := BigEndian | LittleEndian.

Definition is_LittleEndian (bo : ByteOrder) : bool :=
  match bo with
  | LittleEndian => true
  | BigEndian => false
  end.

(** ** Byte-level primitives *)

Definition byte (x : Z) : Z := x mod 256.
Definition uint16 (x : Z) : Z := x mod 2 ^ 16.
Definition uint64 (x : Z) : Z := x mod 2 ^ 64.

Definition len (l : list Z) : Z := Z.of_nat (length l).

(** [b[i]] for an in-range index. *)
Definition at_ (b : list Z) (i : nat) : Z := nth i b 0.

(** The sub-slice [b[lo:hi]]. *)
Definition slice (b : list Z) (lo hi : nat) : list Z :=
  firstn (hi - lo) (skipn lo b).

(** [copy(b[off:], d)] when [d] fits: the slice with [d] stored at [off]. *)
Definition copy_at (b : list Z) (off : nat) (d : list Z) : list Z :=
  firstn off b ++ d ++ skipn (off + length d) b.

(** [encoding/binary]: [ByteOrder.PutUint16], as the bytes stored. *)
Definition PutUint16 (bo : ByteOrder) (v : Z) : list Z :=
  match bo with
  | BigEndian => [byte (Z.shiftr v 8); byte v]
  | LittleEndian => [byte v; byte (Z.shiftr v 8)]
  end.

(** [encoding/binary]: [ByteOrder.Uint16]. *)
Definition Uint16 (bo : ByteOrder) (b : list Z) : Z :=
  match bo with
  | BigEndian => Z.lor (at_ b 1) (Z.shiftl (at_ b 0) 8)
  | LittleEndian => Z.lor (at_ b 0) (Z.shiftl (at_ b 1) 8)
  end.

(** [encoding/binary]: [ByteOrder.PutUint64], as the bytes stored. *)
Definition PutUint64 (bo : ByteOrder) (v : Z) : list Z :=
  match bo with
  | BigEndian =>
      [byte (Z.shiftr v 56); byte (Z.shiftr v 48); byte (Z.shiftr v 40);
       byte (Z.shiftr v 32); byte (Z.shiftr v 24); byte (Z.shiftr v 16);
       byte (Z.shiftr v 8); byte v]
  | LittleEndian =>
      [byte v; byte (Z.shiftr v 8); byte (Z.shiftr v 16);
       byte (Z.shiftr v 24); byte (Z.shiftr v 32); byte (Z.shiftr v 40);
       byte (Z.shiftr v 48); byte (Z.shiftr v 56)]
  end.

(** [encoding/binary]: [ByteOrder.Uint64]. *)
Definition Uint64 (bo : ByteOrder) (b : list Z) : Z :=
  match bo with
  | BigEndian =>
      Z.lor (at_ b 7) (Z.lor (Z.shiftl (at_ b 6) 8) (Z.lor (Z.shiftl (at_ b 5) 16)
      (Z.lor (Z.shiftl (at_ b 4) 24) (Z.lor (Z.shiftl (at_ b 3) 32)
      (Z.lor (Z.shiftl (at_ b 2) 40) (Z.lor (Z.shiftl (at_ b 1) 48)
             (Z.shiftl (at_ b 0) 56)))))))
  | LittleEndian =>
      Z.lor (at_ b 0) (Z.lor (Z.shiftl (at_ b 1) 8) (Z.lor (Z.shiftl (at_ b 2) 16)
      (Z.lor (Z.shiftl (at_ b 3) 24) (Z.lor (Z.shiftl (at_ b 4) 32)
      (Z.lor (Z.shiftl (at_ b 5) 40) (Z.lor (Z.shiftl (at_ b 6) 48)
             (Z.shiftl (at_ b 7) 56)))))))
  end.

(** ** Constants of the wire format *)

Definition frameHeaderLen : Z := 1.
Definition framePayloadMaxLen8Bits : Z := 2 ^ 8 - 3.
Definition framePayloadMaxLen16 : Z := 2 ^ 16 - 1.
Definition framePayloadMaxLen56 : Z := 2 ^ 56 - 1.

(** ** Scripted transports *)

(** A source is a queue of chunks.  A chunk [(d, e)] holds the bytes [d] that
    one [Read] can deliver at most, and the error [e] returned by the [Read]
    that takes the last of them ([None] is a nil error).  An exhausted source
    reports [(0, io.EOF)]. *)
Definition chunk : Type := (list Z * option error)%type.
Definition source : Type := list chunk.

(** [rd.Read(p)] with [len(p) = k]: the bytes stored at the front of [p], the
    error, and the source afterwards. *)
Definition rd_Read (s : source) (k : nat) : list Z * option error * source :=
  match s with
  | [] => ([], Some EOF, [])
  | (d, e) :: rest =>
      if (length d <=? k)%nat then (d, e, rest)
      else (firstn k d, None, (skipn k d, e) :: rest)
  end.

(** A sink records the bytes it accepted and follows a script of budgets.  An
    entry [(c, e)] accepts [c] more bytes: a [Write] within the budget is
    accepted whole with a nil error; a [Write] beyond it is cut at the budget
    and returns [e].  With the script exhausted every [Write] is accepted. *)
Record sink : Type := mkSink {
  accepted : list Z;
  budgets : list (nat * option error)
}.

(** [wr.Write(p)]: the count accepted, the error, and the sink afterwards. *)
Definition wr_Write (s : sink) (p : list Z) : Z * option error * sink :=
  match budgets s with
  | [] => (len p, None, mkSink (accepted s ++ p) [])
  | (c, e) :: rest =>
      if (length p <=? c)%nat
      then (len p, None, mkSink (accepted s ++ p) ((c - length p, e)%nat :: rest))
      else (Z.of_nat c, e, mkSink (accepted s ++ firstn c p) rest)
  end.

(** ** The codec state *)

Record framer : Type := mkFramer {
  rd : option source;
  rbo : ByteOrder;
  rpr : Protocol;
  wr : option sink;
  wbo : ByteOrder;
  wpr : Protocol;
  readLimit : Z;
  retryDelay : Z;
  header : list Z;
  length_ : Z;
  offset : Z;
  rbuf : option (list Z);
  wtOff : Z;
  wtLen : Z;
  wbuf : option (list Z)
}.

Definition set_rd (fr : framer) (v : option source) : framer :=
  mkFramer v (rbo fr) (rpr fr) (wr fr) (wbo fr) (wpr fr) (readLimit fr)
    (retryDelay fr) (header fr) (length_ fr) (offset fr) (rbuf fr) (wtOff fr)
    (wtLen fr) (wbuf fr).

Definition set_wr (fr : framer) (v : option sink) : framer :=
  mkFramer (rd fr) (rbo fr) (rpr fr) v (wbo fr) (wpr fr) (readLimit fr)
    (retryDelay fr) (header fr) (length_ fr) (offset fr) (rbuf fr) (wtOff fr)
    (wtLen fr) (wbuf fr).

Definition set_header (fr : framer) (v : list Z) : framer :=
  mkFramer (rd fr) (rbo fr) (rpr fr) (wr fr) (wbo fr) (wpr fr) (readLimit fr)
    (retryDelay fr) v (length_ fr) (offset fr) (rbuf fr) (wtOff fr)
    (wtLen fr) (wbuf fr).

Definition set_length (fr : framer) (v : Z) : framer :=
  mkFramer (rd fr) (rbo fr) (rpr fr) (wr fr) (wbo fr) (wpr fr) (readLimit fr)
    (retryDelay fr) (header fr) v (offset fr) (rbuf fr) (wtOff fr)
    (wtLen fr) (wbuf fr).

Definition set_offset (fr : framer) (v : Z) : framer :=
  mkFramer (rd fr) (rbo fr) (rpr fr) (wr fr) (wbo fr) (wpr fr) (readLimit fr)
    (retryDelay fr) (header fr) (length_ fr) v (rbuf fr) (wtOff fr)
    (wtLen fr) (wbuf fr).

Definition set_rbuf (fr : framer) (v : option (list Z)) : framer :=
  mkFramer (rd fr) (rbo fr) (rpr fr) (wr fr) (wbo fr) (wpr fr) (readLimit fr)
    (retryDelay fr) (header fr) (length_ fr) (offset fr) v (wtOff fr)
    (wtLen fr) (wbuf fr).

Definition set_wbuf (fr : framer) (v : option (list Z)) : framer :=
  mkFramer (rd fr) (rbo fr) (rpr fr) (wr fr) (wbo fr) (wpr fr) (readLimit fr)
    (retryDelay fr) (header fr) (length_ fr) (offset fr) (rbuf fr) (wtOff fr)
    (wtLen fr) v.

(** The option bundle [newFramer] reads. *)
Record Options : Type := mkOptions {
  ReadByteOrder : ByteOrder;
  WriteByteOrder : ByteOrder;
  ReadProto : Protocol;
  WriteProto : Protocol;
  ReadLimit : Z;
  RetryDelay : Z
}.

Definition newFramer (r : option source) (w : option sink) (o : Options) : framer :=
  mkFramer r (ReadByteOrder o) (ReadProto o) w (WriteByteOrder o) (WriteProto o)
    (ReadLimit o) (RetryDelay o) (repeat 0 8) 0 0 None 0 0 None.

Definition reset (fr : framer) : framer :=
  set_length (set_offset fr 0) 0.

(** [waitOnceOnWouldBlock]: whether the caller should retry.  Yielding and
    sleeping leave the codec and the transports as they are. *)
Definition waitOnceOnWouldBlock (fr : framer) : bool :=
  if retryDelay fr <? 0 then false else true.

(** ** Single transport calls *)

Notation "x <- c ;; k" := (match c with Some x => k | None => None end)
  (at level 61, c at next level, right associativity).
Notation "' pat <- c ;; k" := (match c with Some pat => k | None => None end)
  (at level 61, pat pattern, c at next level, right associativity).

(** The loop of [readOnce] over the transport [s], for a buffer of [k] bytes.
    The only iteration that repeats is the one whose [Read] returned
    [(0, ErrWouldBlock)]; that [Read] consumed the head chunk, so the loop
    continues on the tail.  On the exhausted transport the body returns
    [(0, io.EOF)]. *)
Fixpoint readOnce_loop (retry : bool) (s : source) (k : nat) {struct s}
  : list Z * option error * source :=
  match s with
  | [] => ([], Some EOF, [])
  | c :: rest =>
      let '(d, e, s') := rd_Read (c :: rest) k in
      if negb (k =? 0)%nat && (length d =? 0)%nat && is_nil e
      then ([], Some ErrNoProgress, s')
      else if (0 <? length d)%nat then (d, e, s')
      else if negb (is_err e ErrWouldBlock) then (d, e, s')
      else if negb retry then (d, e, s')
      else readOnce_loop retry rest k
  end.

(** [fr.readOnce(p)] with [len(p) = k]: the bytes read, the error, and the
    codec with its transport advanced. *)
Definition readOnce (fr : framer) (k : nat) : option (list Z * option error * framer) :=
  s <- rd fr ;;
  let '(d, e, s') := readOnce_loop (waitOnceOnWouldBlock fr) s k in
  Some (d, e, set_rd fr (Some s')).

(** The loop of [writeOnce] over the sink [(acc, bs)]; it repeats only after a
    [Write] that returned [(0, ErrWouldBlock)], which consumed the head
    budget. *)
Fixpoint writeOnce_loop (retry : bool) (bs : list (nat * option error))
  (acc : list Z) (p : list Z) {struct bs} : Z * option error * sink :=
  match bs with
  | [] => wr_Write (mkSink acc []) p
  | b :: rest =>
      let '(n, e, s') := wr_Write (mkSink acc (b :: rest)) p in
      if negb (length p =? 0)%nat && (n =? 0) && is_nil e
      then (0, Some ErrShortWrite, s')
      else if 0 <? n then (n, e, s')
      else if negb (is_err e ErrWouldBlock) then (n, e, s')
      else if negb retry then (n, e, s')
      else writeOnce_loop retry rest (accepted s') p
  end.

(** [fr.writeOnce(p)]. *)
Definition writeOnce (fr : framer) (p : list Z) : option (Z * option error * framer) :=
  s <- wr fr ;;
  let '(n, e, s') := writeOnce_loop (waitOnceOnWouldBlock fr) (budgets s) (accepted s) p in
  Some (n, e, set_wr fr (Some s')).

(** ** Packet mode *)

Definition readPacket (fr : framer) (p : list Z)
  : option (Z * option error * framer * list Z) :=
  '(d, e, fr1) <- readOnce fr (length p) ;;
  let p1 := copy_at p 0 d in
  let n := len d in
  if (readLimit fr1 >? 0) && (n >? readLimit fr1)
  then Some (n, Some ErrTooLong, fr1, p1)
  else Some (n, e, fr1, p1).

Definition writePacket (fr : framer) (p : list Z) : option (Z * option error * framer) :=
  if len p >? framePayloadMaxLen56 then Some (0, Some ErrTooLong, fr)
  else
    '(n, e, fr1) <- writeOnce fr p ;;
    if negb (is_nil e) then Some (n, e, fr1)
    else if negb (n =? len p) then Some (n, Some ErrShortWrite, fr1)
    else Some (n, None, fr1).

(** ** Stream mode: the read state machine *)

(** How a loop ends: it falls through to the code after it with the state
    [s], or the enclosing function returns [r] from inside it. *)
Inductive ctl (S R : Type) : Type :=
| Next (s : S)
| Return (r : R).
Arguments Next {S R} s.
Arguments Return {S R} r.

(** What the stream state machines return: count, error, codec. *)
Definition result : Type := (Z * option error * framer)%type.

(** Step 1 of [readStream]: read the lead byte into [header[offset:1]]. *)
Fixpoint read_lead (fuel : nat) (fr : framer) : option (ctl framer result) :=
  if offset fr <? frameHeaderLen then
    match fuel with
    | O => None
    | S fuel' =>
        '(d, re, fr1) <- readOnce fr (Z.to_nat (frameHeaderLen - offset fr)) ;;
        let fr2 := set_header fr1 (copy_at (header fr1) (Z.to_nat (offset fr1)) d) in
        let fr3 := set_offset fr2 (offset fr2 + len d) in
        match re with
        | Some e =>
            if error_eqb e EOF then
              if offset fr3 =? 0 then Some (Return (0, Some EOF, fr3))
              else if offset fr3 <? frameHeaderLen
                   then Some (Return (0, Some ErrUnexpectedEOF, fr3))
                   else Some (Next fr3)
            else Some (Return (0, Some e, fr3))
        | None => read_lead fuel' fr3
        end
    end
  else Some (Next fr).

(** Step 2: the number of extended length bytes announced by the lead byte. *)
Definition read_exLen (fr : framer) : Z :=
  if offset fr >=? frameHeaderLen then
    if at_ (header fr) 0 =? framePayloadMaxLen8Bits + 1 then 2
    else if at_ (header fr) 0 =? framePayloadMaxLen8Bits + 2 then 7
    else 0
  else 0.

(** Step 3: read the extended length bytes into [header[offset:1+exLen]]. *)
Fixpoint read_ext (fuel : nat) (exLen : Z) (fr : framer) : option (ctl framer result) :=
  if offset fr <? frameHeaderLen + exLen then
    match fuel with
    | O => None
    | S fuel' =>
        '(d, re, fr1) <- readOnce fr (Z.to_nat (frameHeaderLen + exLen - offset fr)) ;;
        let fr2 := set_header fr1 (copy_at (header fr1) (Z.to_nat (offset fr1)) d) in
        let fr3 := set_offset fr2 (offset fr2 + len d) in
        match re with
        | Some e =>
            if error_eqb e EOF then
              if offset fr3 <? frameHeaderLen + exLen
              then Some (Return (0, Some ErrUnexpectedEOF, fr3))
              else Some (Next fr3)
            else Some (Return (0, Some e, fr3))
        | None => read_ext fuel' exLen fr3
        end
    end
  else Some (Next fr).

(** Step 4: parse the payload length once the header is complete. *)
Definition parse_length (exLen : Z) (fr : framer) : framer :=
  if offset fr =? frameHeaderLen + exLen then
    if exLen =? 2 then
      set_length fr (Uint16 (rbo fr) (slice (header fr) 1 3))
    else if exLen =? 7 then
      let u64 := Uint64 (rbo fr) (header fr) in
      if is_LittleEndian (rbo fr)
      then set_length fr (Z.shiftr u64 8)
      else set_length fr (Z.land u64 framePayloadMaxLen56)
    else set_length fr (at_ (header fr) 0)
  else fr.

(** Step 5: read the payload into [p[payloadOff:length]]; [n] counts the
    bytes placed in [p] by this call. *)
Fixpoint read_payload (fuel : nat) (hdrSize : Z) (fr : framer) (p : list Z) (n : Z)
  : option (Z * option error * framer * list Z) :=
  if offset fr <? hdrSize + length_ fr then
    match fuel with
    | O => None
    | S fuel' =>
        let payloadOff := offset fr - hdrSize in
        '(d, re, fr1) <- readOnce fr (Z.to_nat (length_ fr) - Z.to_nat payloadOff) ;;
        let p1 := copy_at p (Z.to_nat payloadOff) d in
        let fr2 := set_offset fr1 (offset fr1 + len d) in
        let n1 := n + len d in
        match re with
        | Some e =>
            if error_eqb e EOF then
              if offset fr2 <? hdrSize + length_ fr2
              then Some (n1, Some ErrUnexpectedEOF, fr2, p1)
              else Some (n1, None, reset fr2, p1)
            else Some (n1, Some e, fr2, p1)
        | None => read_payload fuel' hdrSize fr2 p1 n1
        end
    end
  else Some (n, None, reset fr, p).

(** [fr.readStream(p)]: the count, the error, the codec and the slice [p]
    afterwards.  Every loop iteration that continues has read at least one
    byte, so the fuel given to each loop is the number of bytes it can still
    need. *)
Definition readStream (fr : framer) (p : list Z)
  : option (Z * option error * framer * list Z) :=
  r1 <- read_lead 1 fr ;;
  match r1 with
  | Return (n, e, fr') => Some (n, e, fr', p)
  | Next fr1 =>
      let exLen := read_exLen fr1 in
      r3 <- read_ext 7 exLen fr1 ;;
      match r3 with
      | Return (n, e, fr') => Some (n, e, fr', p)
      | Next fr3 =>
          let fr4 := parse_length exLen fr3 in
          if (length_ fr4 <? 0) || (length_ fr4 >? framePayloadMaxLen56)
          then Some (0, Some ErrTooLong, fr4, p)
          else if (readLimit fr4 >? 0) && (length_ fr4 >? readLimit fr4)
          then Some (0, Some ErrTooLong, fr4, p)
          else if len p <? length_ fr4
          then Some (0, Some ErrShortBuffer, fr4, p)
          else read_payload (Z.to_nat (length_ fr4)) (frameHeaderLen + exLen) fr4 p 0
      end
  end.

(** ** Stream mode: the write state machine *)

Definition write_exLen (fr : framer) : Z :=
  if length_ fr <=? framePayloadMaxLen8Bits then 0
  else if length_ fr <=? framePayloadMaxLen16 then 2
  else 7.

(** "Fill header once": the header array after the first call of a message. *)
Definition fill_header (exLen : Z) (fr : framer) : framer :=
  if offset fr =? 0 then
    if length_ fr <=? framePayloadMaxLen8Bits then
      set_header fr (copy_at (header fr) 0 [byte (length_ fr)])
    else if length_ fr <=? framePayloadMaxLen16 then
      let h := copy_at (header fr) 0 [framePayloadMaxLen8Bits + 1] in
      set_header fr (copy_at h 1 (PutUint16 (wbo fr) (uint16 (length_ fr))))
    else
      let v := if is_LittleEndian (wbo fr)
               then uint64 (Z.shiftl (uint64 (length_ fr)) 8)
               else uint64 (Z.land (length_ fr) framePayloadMaxLen56) in
      let h := copy_at (header fr) 0 (PutUint64 (wbo fr) v) in
      set_header fr (copy_at h 0 [framePayloadMaxLen8Bits + 2])
  else fr.

(** The header loop: write [header[offset:hdrSize]]. *)
Fixpoint write_header (fuel : nat) (hdrSize : Z) (fr : framer) : option (ctl framer result) :=
  if offset fr <? hdrSize then
    match fuel with
    | O => None
    | S fuel' =>
        '(wn, we, fr1) <- writeOnce fr
            (slice (header fr) (Z.to_nat (offset fr)) (Z.to_nat hdrSize)) ;;
        let fr2 := set_offset fr1 (offset fr1 + wn) in
        match we with
        | Some e => Some (Return (0, Some e, fr2))
        | None => write_header fuel' hdrSize fr2
        end
    end
  else Some (Next fr).

(** The payload loop: write [p[payloadOff:]]; [n] counts the payload bytes
    written by this call. *)
Fixpoint write_payload (fuel : nat) (hdrSize : Z) (fr : framer) (p : list Z) (n : Z)
  : option (Z * option error * framer) :=
  if offset fr <? hdrSize + length_ fr then
    match fuel with
    | O => None
    | S fuel' =>
        let payloadOff := offset fr - hdrSize in
        '(wn, we, fr1) <- writeOnce fr (skipn (Z.to_nat payloadOff) p) ;;
        let fr2 := set_offset fr1 (offset fr1 + wn) in
        let n1 := n + wn in
        match we with
        | Some e => Some (n1, Some e, fr2)
        | None => write_payload fuel' hdrSize fr2 p n1
        end
    end
  else Some (n, None, reset fr).

(** [fr.writeStream(p)]. *)
Definition writeStream (fr : framer) (p : list Z) : option (Z * option error * framer) :=
  if len p >? framePayloadMaxLen56 then Some (0, Some ErrTooLong, fr)
  else
    let fr1 := if offset fr =? 0 then set_length fr (len p) else fr in
    if negb (length_ fr1 =? len p) then Some (0, Some ErrShortWrite, fr1)
    else
      let exLen := write_exLen fr1 in
      let fr2 := fill_header exLen fr1 in
      let hdrSize := frameHeaderLen + exLen in
      r <- write_header 8 hdrSize fr2 ;;
      match r with
      | Return r' => Some r'
      | Next fr3 => write_payload (length p) hdrSize fr3 p 0
      end.

(** ** Dispatch on the protocol *)

Definition read (fr : framer) (p : list Z)
  : option (Z * option error * framer * list Z) :=
  match rd fr with
  | None => Some (0, Some ErrInvalidArgument, fr, p)
  | Some _ => if preserveBoundary (rpr fr) then readPacket fr p else readStream fr p
  end.

Definition write (fr : framer) (p : list Z) : option (Z * option error * framer) :=
  match wr fr with
  | None => Some (0, Some ErrInvalidArgument, fr)
  | Some _ => if preserveBoundary (wpr fr) then writePacket fr p else writeStream fr p
  end.

(** ** Fast paths *)

(** What the fast paths return: total, error, codec, and the transport handed
    in by the caller. *)
Definition wt_result : Type := (Z * option error * framer * sink)%type.

(** Packet branch of [WriteTo]: drain [buf[off:n]] into [dst]. *)
Fixpoint WriteTo_packet_drain (fuel : nat) (buf : list Z) (n off total : Z) (dst : sink)
  : option (ctl (Z * sink) (Z * option error * sink)) :=
  if off <? n then
    match fuel with
    | O => None
    | S fuel' =>
        let '(wn, we, dst1) := wr_Write dst (slice buf (Z.to_nat off) (Z.to_nat n)) in
        let total1 := if wn >? 0 then total + wn else total in
        let off1 := if wn >? 0 then off + wn else off in
        match we with
        | Some e => Some (Return (total1, Some e, dst1))
        | None =>
            if wn =? 0 then Some (Return (total1, Some ErrShortWrite, dst1))
            else WriteTo_packet_drain fuel' buf n off1 total1 dst1
        end
    end
  else Some (Next (total, dst)).

(** Packet branch of [WriteTo]: pass-through copy with a 32 KiB buffer. *)
Fixpoint WriteTo_packet (fuel : nat) (fr : framer) (buf : list Z) (total : Z) (dst : sink)
  : option wt_result :=
  match fuel with
  | O => None
  | S fuel' =>
      '(n, err, fr1, buf1) <- read fr buf ;;
      r <- (if n >? 0 then WriteTo_packet_drain (S (Z.to_nat n)) buf1 n 0 total dst
            else Some (Next (total, dst))) ;;
      match r with
      | Return (t, e, dst1) => Some (t, e, fr1, dst1)
      | Next (total1, dst1) =>
          match err with
          | Some e =>
              if error_eqb e EOF then Some (total1, None, fr1, dst1)
              else Some (total1, Some e, fr1, dst1)
          | None => WriteTo_packet fuel' fr1 buf1 total1 dst1
          end
      end
  end.

(** Stream branch of [WriteTo]: read the payload into [rbuf[got:need]]. *)
Fixpoint WriteTo_read_payload (fuel : nat) (fr : framer) (b : list Z) (need got : Z)
  : option (ctl (framer * list Z) (option error * framer * list Z)) :=
  if got <? need then
    match fuel with
    | O => None
    | S fuel' =>
        '(n, e, fr1, p1) <- read fr (slice b (Z.to_nat got) (Z.to_nat need)) ;;
        let b1 := copy_at b (Z.to_nat got) p1 in
        let got1 := got + n in
        match e with
        | Some x =>
            if error_eqb x ErrWouldBlock || error_eqb x ErrMore
            then Some (Return (Some x, fr1, b1))
            else if error_eqb x EOF
            then Some (Return (Some ErrUnexpectedEOF, fr1, b1))
            else Some (Return (Some x, fr1, b1))
        | None => WriteTo_read_payload fuel' fr1 b1 need got1
        end
    end
  else Some (Next (fr, b)).

(** Stream branch of [WriteTo]: write [rbuf[off:need]] to [dst]. *)
Fixpoint WriteTo_write_payload (fuel : nat) (b : list Z) (need off total : Z) (dst : sink)
  : option (ctl (Z * sink) (Z * option error * sink)) :=
  if off <? need then
    match fuel with
    | O => None
    | S fuel' =>
        let '(wn, we, dst1) := wr_Write dst (slice b (Z.to_nat off) (Z.to_nat need)) in
        let total1 := if wn >? 0 then total + wn else total in
        let off1 := if wn >? 0 then off + wn else off in
        match we with
        | Some e => Some (Return (total1, Some e, dst1))
        | None =>
            if wn =? 0 then Some (Return (total1, Some ErrShortWrite, dst1))
            else WriteTo_write_payload fuel' b need off1 total1 dst1
        end
    end
  else Some (Next (total, dst)).

(** Stream branch of [WriteTo]: the loop over messages.  [b] is the scratch
    buffer [fr.rbuf], stored back when the function returns. *)
Fixpoint WriteTo_stream (fuel : nat) (fr : framer) (b : list Z) (total : Z) (dst : sink)
  : option wt_result :=
  match fuel with
  | O => None
  | S fuel' =>
      let leave (t : Z) (e : option error) (f : framer) (b' : list Z) (d : sink) :=
        Some (t, e, set_rbuf f (Some b'), d) in
      '(_, err, fr1, _) <- read fr [] ;;
      let after_header :=
        if length_ fr1 =? 0 then WriteTo_stream fuel' fr1 b total dst
        else
          let need := length_ fr1 in
          r <- WriteTo_read_payload fuel fr1 b need 0 ;;
          match r with
          | Return (e, fr2, b2) => leave total e fr2 b2 dst
          | Next (fr2, b2) =>
              w <- WriteTo_write_payload (S (Z.to_nat need)) b2 need 0 total dst ;;
              match w with
              | Return (t, e, dst1) => leave t e fr2 b2 dst1
              | Next (total1, dst1) => WriteTo_stream fuel' fr2 b2 total1 dst1
              end
          end in
      match err with
      | Some e =>
          if error_eqb e ErrShortBuffer then
            if length_ fr1 >? len b then leave total (Some ErrTooLong) fr1 b dst
            else after_header
          else if error_eqb e EOF then leave total None fr1 b dst
          else leave total (Some e) fr1 b dst
      | None => after_header
      end
  end.

(** [Reader.WriteTo(dst)], for a reader over the codec [fr]. *)
Definition WriteTo (fuel : nat) (fr : framer) (dst : sink) : option wt_result :=
  if preserveBoundary (rpr fr) then
    WriteTo_packet fuel fr (repeat 0 (32 * 1024)) 0 dst
  else
    let b := match rbuf fr with
             | Some b => b
             | None =>
                 let capHint := if readLimit fr <=? 0 then 64 * 1024 else readLimit fr in
                 repeat 0 (Z.to_nat capHint)
             end in
    WriteTo_stream fuel (set_rbuf fr (Some b)) b 0 dst.

Definition rf_result : Type := (Z * option error * framer * source)%type.

(** The loop of [ReadFrom]; [buf] is the scratch buffer [fr.wbuf]. *)
Fixpoint ReadFrom_loop (fuel : nat) (fr : framer) (buf : list Z) (total : Z) (src : source)
  : option rf_result :=
  match fuel with
  | O => None
  | S fuel' =>
      let leave (t : Z) (e : option error) (f : framer) (b' : list Z) (s : source) :=
        Some (t, e, set_wbuf f (Some b'), s) in
      let '(d, er, src1) := rd_Read src (length buf) in
      let buf1 := copy_at buf 0 d in
      let n := len d in
      let after_write (fr1 : framer) (total1 : Z) :=
        match er with
        | Some e =>
            if error_eqb e EOF then leave total1 None fr1 buf1 src1
            else leave total1 (Some e) fr1 buf1 src1
        | None => ReadFrom_loop fuel' fr1 buf1 total1 src1
        end in
      if n >? 0 then
        '(wn, we, fr1) <- write fr (firstn (Z.to_nat n) buf1) ;;
        let total1 := if wn >? 0 then total + wn else total in
        match we with
        | Some e => leave total1 (Some e) fr1 buf1 src1
        | None =>
            if negb (wn =? n) then leave total1 (Some ErrShortWrite) fr1 buf1 src1
            else after_write fr1 total1
        end
      else after_write fr total
  end.

(** [Writer.ReadFrom(src)], for a writer over the codec [fr]. *)
Definition ReadFrom (fuel : nat) (fr : framer) (src : source) : option rf_result :=
  let buf := match wbuf fr with
             | Some b => b
             | None => repeat 0 (32 * 1024)
             end in
  ReadFrom_loop fuel (set_wbuf fr (Some buf)) buf 0 src.

(** ** The forwarder *)

Record Forwarder : Type := mkForwarder {
  rr : framer;
  ww : framer;
  buf : list Z;
  need : Z;
  got : Z;
  state : Z;
  eofAfterThis : bool;
  eofPending : bool
}.

Definition NewForwarder (dst : option sink) (src : option source) (o : Options) : Forwarder :=
  let rr := newFramer src None o in
  let ww := newFramer None dst o in
  let capHint := if readLimit rr <=? 0 then 64 * 1024 else readLimit rr in
  mkForwarder rr ww (repeat 0 (Z.to_nat capHint)) 0 0 0 false false.

Definition fw_result : Type := (Z * option error * Forwarder)%type.

(** Phase 0 of [ForwardOnce]: drive the header parse (stream) or go straight
    to the payload phase (packet). *)
Definition forward_phase0 (f : Forwarder) : option (ctl Forwarder fw_result) :=
  if state f =? 0 then
    if negb (preserveBoundary (rpr (rr f))) then
      '(_, e, rr1, _) <- read (rr f) [] ;;
      let f1 := mkForwarder rr1 (ww f) (buf f) (need f) (got f) (state f)
                  (eofAfterThis f) (eofPending f) in
      match e with
      | Some x =>
          if error_eqb x ErrShortBuffer then
            if length_ rr1 >? len (buf f) then Some (Return (0, Some ErrShortBuffer, f1))
            else Some (Next (mkForwarder rr1 (ww f) (buf f) (length_ rr1) 0 1
                               (eofAfterThis f) (eofPending f)))
          else if error_eqb x EOF then Some (Return (0, Some EOF, f1))
          else Some (Return (0, Some x, f1))
      | None =>
          Some (Next (mkForwarder rr1 (ww f) (buf f) 0 0 2
                        (eofAfterThis f) (eofPending f)))
      end
    else
      Some (Next (mkForwarder (rr f) (ww f) (buf f) 0 0 1
                    (eofAfterThis f) (eofPending f)))
  else Some (Next f).

(** Phase 1, stream: read into [buf[:need]] until [got] reaches [need]. *)
Fixpoint forward_read_stream (fuel : nat) (f : Forwarder) : option (ctl Forwarder fw_result) :=
  if got f <? need f then
    match fuel with
    | O => None
    | S fuel' =>
        '(rn, re, rr1, p1) <- read (rr f) (firstn (Z.to_nat (need f)) (buf f)) ;;
        let f1 := mkForwarder rr1 (ww f) (copy_at (buf f) 0 p1) (need f) (got f + rn)
                    (state f) (eofAfterThis f) (eofPending f) in
        match re with
        | Some x =>
            if error_eqb x ErrWouldBlock || error_eqb x ErrMore
            then Some (Return (rn, Some x, f1))
            else if error_eqb x EOF
            then Some (Return (got f1, Some ErrUnexpectedEOF, f1))
            else Some (Return (rn, Some x, f1))
        | None => forward_read_stream fuel' f1
        end
    end
  else Some (Next f).

(** Phase 1, packet: one read into [buf[got:max]]. *)
Definition forward_read_packet (f : Forwarder) : option (ctl Forwarder fw_result) :=
  let max := if (readLimit (rr f) >? 0) && (len (buf f) >? readLimit (rr f))
             then readLimit (rr f) else len (buf f) in
  '(rn, re, rr1, p1) <- read (rr f) (slice (buf f) (Z.to_nat (got f)) (Z.to_nat max)) ;;
  let f1 := mkForwarder rr1 (ww f) (copy_at (buf f) (Z.to_nat (got f)) p1) (need f)
              (got f + rn) (state f) (eofAfterThis f) (eofPending f) in
  let proceed (g : Forwarder) :=
    Some (Next (mkForwarder (rr g) (ww g) (buf g) (got g) (got g) 2
                  (eofAfterThis g) (eofPending g))) in
  match re with
  | Some x =>
      if error_eqb x ErrWouldBlock || error_eqb x ErrMore || error_eqb x ErrTooLong
      then Some (Return (rn, Some x, f1))
      else if error_eqb x EOF then
        if got f1 =? 0 then Some (Return (0, Some EOF, f1))
        else proceed (mkForwarder (rr f1) (ww f1) (buf f1) (need f1) (got f1)
                        (state f1) true (eofPending f1))
      else Some (Return (rn, Some x, f1))
  | None => proceed f1
  end.

(** Phase 1 of [ForwardOnce]. *)
Definition forward_phase1 (fuel : nat) (f : Forwarder) : option (ctl Forwarder fw_result) :=
  if state f =? 1 then
    if preserveBoundary (rpr (rr f)) then forward_read_packet f
    else
      r <- forward_read_stream fuel f ;;
      match r with
      | Return x => Some (Return x)
      | Next f1 =>
          Some (Next (mkForwarder (rr f1) (ww f1) (buf f1) (need f1) (got f1) 2
                        (eofAfterThis f1) (eofPending f1)))
      end
  else Some (Next f).

(** Phase 2 of [ForwardOnce]: write [buf[:need]] as one message. *)
Definition forward_phase2 (f : Forwarder) : option fw_result :=
  if state f =? 2 then
    '(wn, we, ww1) <- write (ww f) (firstn (Z.to_nat (need f)) (buf f)) ;;
    match we with
    | Some x =>
        Some (wn, Some x, mkForwarder (rr f) ww1 (buf f) (need f) (got f) (state f)
                            (eofAfterThis f) (eofPending f))
    | None =>
        let pending := if eofAfterThis f then true else eofPending f in
        Some (wn, None, mkForwarder (rr f) ww1 (buf f) 0 0 0 false pending)
    end
  else Some (0, None, f).

(** [f.ForwardOnce()]; [fuel] bounds the iterations of the stream payload
    loop of phase 1. *)
Definition ForwardOnce (fuel : nat) (f : Forwarder) : option fw_result :=
  if (state f =? 0) && eofPending f then Some (0, Some EOF, f)
  else
    r0 <- forward_phase0 f ;;
    match r0 with
    | Return x => Some x
    | Next f0 =>
        r1 <- forward_phase1 fuel f0 ;;
        match r1 with
        | Return x => Some x
        | Next f1 => forward_phase2 f1
        end
    end.

(** ** The wire format, as the specification tabulates it *)

(** [n] bytes of [v], least significant first. *)
Fixpoint le_bytes (n : nat) (v : Z) : list Z :=
  match n with
  | O => []
  | S n' => v mod 256 :: le_bytes n' (v / 256)
  end.

(** [n] bytes of [v] in the byte order [bo]. *)
Definition order_bytes (bo : ByteOrder) (n : nat) (v : Z) : list Z :=
  match bo with
  | LittleEndian => le_bytes n v
  | BigEndian => rev (le_bytes n v)
  end.

(** The length prefix of a message of [L] bytes: lead byte [L] up to 253;
    [0xFE] and the 16-bit length up to 65535; [0xFF] and the low 56 bits of
    the length above. *)
Definition wire_header (bo : ByteOrder) (L : Z) : list Z :=
  if L <=? 253 then [L]
  else if L <=? 65535 then 254 :: order_bytes bo 2 L
  else 255 :: order_bytes bo 7 L.

(** The canonical wire form of one message. *)
Definition frame (bo : ByteOrder) (p : list Z) : list Z :=
  wire_header bo (len p) ++ p.

(** Size of the length prefix. *)
Definition header_size (L : Z) : Z :=
  if L <=? 253 then 1 else if L <=? 65535 then 3 else 8.

(** A source that holds the bytes [w] and then reports end of stream, as
    [bytes.Reader] does. *)
Definition bytes_reader (w : list Z) : source :=
  match w with
  | [] => []
  | _ => [(w, None)]
  end.


(** ** Vocabulary of the statements *)

(** A source that serves the bytes [d], the last of them together with [e],
    and then continues as [tl]. *)
Definition serve (d : list Z) (e : option error) (tl : source) : source :=
  match d with
  | [] => tl
  | _ => (d, e) :: tl
  end.

(** The source [tl] answers the next non-empty [Read] with [(0, x)] and
    continues as [tl']. *)
Definition SigTail (retry : bool) (tl : source) (x : error) (tl' : source) : Prop :=
  forall k, (0 < k)%nat -> readOnce_loop retry tl k = ([], Some x, tl').

(** The codec [fr] with its read side advanced: transport [s], header array
    [h], parsed length [L], offset [o]. *)
Definition rstep (fr : framer) (s : source) (h : list Z) (L o : Z) : framer :=
  mkFramer (Some s) (rbo fr) (rpr fr) (wr fr) (wbo fr) (wpr fr) (readLimit fr)
    (retryDelay fr) h L o (rbuf fr) (wtOff fr) (wtLen fr) (wbuf fr).

(** How a loop reports the transport error [x]: end of stream becomes [y]. *)
Definition eof_as (x y : error) : error := if error_eqb x EOF then y else x.


(** The part of [readStream] that follows the two header loops: parse the
    length, check the sizes, read the payload. *)
Definition read_tail (exLen : Z) (fr3 : framer) (p : list Z)
  : option (Z * option error * framer * list Z) :=
  let fr4 := parse_length exLen fr3 in
  if (length_ fr4 <? 0) || (length_ fr4 >? framePayloadMaxLen56)
  then Some (0, Some ErrTooLong, fr4, p)
  else if (readLimit fr4 >? 0) && (length_ fr4 >? readLimit fr4)
  then Some (0, Some ErrTooLong, fr4, p)
  else if len p <? length_ fr4
  then Some (0, Some ErrShortBuffer, fr4, p)
  else read_payload (Z.to_nat (length_ fr4)) (frameHeaderLen + exLen) fr4 p 0.

(** The codec [fr] with its write side advanced: sink [s], header array [h],
    message length [L], offset [o]. *)
Definition wstep (fr : framer) (s : sink) (h : list Z) (L o : Z) : framer :=
  mkFramer (rd fr) (rbo fr) (rpr fr) (Some s) (wbo fr) (wpr fr) (readLimit fr)
    (retryDelay fr) h L o (rbuf fr) (wtOff fr) (wtLen fr) (wbuf fr).

(** The header array of the write side once a message of [L] bytes is in
    flight: filled by the first call ([o = 0]), left alone afterwards. *)
Definition in_flight_header (bo : ByteOrder) (L : Z) (h : list Z) (o : Z) : list Z :=
  if o =? 0 then copy_at h 0 (wire_header bo L) else h.

(** [defaultOptions]: big-endian stream framing, no read limit, non-blocking. *)
Definition defaultOptions : Options :=
  mkOptions BigEndian BigEndian BinaryStream BinaryStream 0 (-1).

(** [NewReader(r, opts...)] and [NewWriter(w, opts...)]: the codec behind the
    [Reader] and the [Writer]; [Reader.Read] is [read], [Writer.Write] is
    [write]. *)
Definition NewReader (r : source) (o : Options) : framer := newFramer (Some r) None o.
Definition NewWriter (w : sink) (o : Options) : framer := newFramer None (Some w) o.

(** A sink that accepts every write, as [bytes.Buffer] does. *)
Definition buffer_sink : sink := mkSink [] [].

(** A source that serves the first [k] bytes of [wire], answers the next
    [Read] with [(0, ErrWouldBlock)], and serves the rest afterwards. *)
Definition split_source (wire : list Z) (k : nat) : source :=
  serve (firstn k wire) None
    (([], Some ErrWouldBlock) :: serve (skipn k wire) None []).

(** The boundary lengths of the three size classes, each with the header
    size and the lead byte the specification expects. *)
Definition boundary_table : list (Z * (Z * Z)) :=
  [(0, (1, 0)); (1, (1, 1)); (253, (1, 253)); (254, (3, 254)); (255, (3, 254));
   (65535, (3, 254)); (65536, (8, 255))].

(** The reading codec after the first [k] bytes of the frame of [m] have been
    consumed from the transport, which continues as [s]. *)
Definition at_position (o : Options) (m : list Z) (k : nat) (s : source) : framer :=
  rstep (newFramer None None o) s
    (copy_at (repeat 0 8) 0 (slice (wire_header (ReadByteOrder o) (len m)) 0 k))
    (if (k <? length (wire_header (ReadByteOrder o) (len m)))%nat then 0 else len m)
    (Z.of_nat k).

(** The caller's destination [dst] after those [k] bytes. *)
Definition dst_at (o : Options) (m dst : list Z) (k : nat) : list Z :=
  copy_at dst 0 (slice m 0 (k - length (wire_header (ReadByteOrder o) (len m)))).

(** Two consecutive calls of [Reader.WriteTo] on the same reader and sink:
    both results, the resume cursor ([wtOff], [wtLen]) after the first call,
    the bytes the sink holds and the source left at the end. *)
Definition two_drains (fuel : nat) (fr : framer) (dst : sink) :=
  '(n1, e1, fr1, dst1) <- WriteTo fuel fr dst ;;
  '(n2, e2, fr2, dst2) <- WriteTo fuel fr1 dst1 ;;
  Some (n1, e1, (wtOff fr1, wtLen fr1), n2, e2, accepted dst2, rd fr2).

(** Two consecutive calls of [Writer.ReadFrom] on the same writer and source:
    both results, the codec's offset after the first call and the bytes the
    sink holds at the end. *)
Definition two_fills (fuel : nat) (fr : framer) (src : source) :=
  '(n1, e1, fr1, src1) <- ReadFrom fuel fr src ;;
  '(n2, e2, fr2, src2) <- ReadFrom fuel fr1 src1 ;;
  Some (n1, e1, offset fr1, n2, e2, option_map accepted (wr fr2)).

(** ** The forwarder's callers *)

(** Capacity of the payload buffer that [NewForwarder] allocates. *)
Definition forwarder_cap (o : Options) : Z :=
  if ReadLimit o <=? 0 then 64 * 1024 else ReadLimit o.

(** A forwarder between two messages: both codecs at offset 0 on the source
    [s] and the sink [sk], header arrays [h] and [hw], payload buffer [b]. *)
Definition idle_forwarder (o : Options) (s : source) (sk : sink) (h hw b : list Z)
  : Forwarder :=
  mkForwarder (rstep (newFramer None None o) s h 0 0)
    (wstep (newFramer None None o) sk hw 0 0) b 0 0 0 false false.

(** The relay loop of TestForward_StreamRelay_Correctness and of the README:
    call [ForwardOnce] until it reports io.EOF, going on after nil,
    ErrWouldBlock and ErrMore and stopping at any other error.  The result
    lists the counts of the calls that returned nil; [calls] bounds the
    number of calls. *)
Fixpoint relay (calls fuel : nat) (f : Forwarder)
  : option (list Z * option error * Forwarder) :=
  match calls with
  | O => None
  | S calls' =>
      '(n, e, f1) <- ForwardOnce fuel f ;;
      match e with
      | None =>
          '(ns, e', f') <- relay calls' fuel f1 ;;
          Some (n :: ns, e', f')
      | Some x =>
          if error_eqb x EOF then Some ([], None, f1)
          else if error_eqb x ErrWouldBlock || error_eqb x ErrMore
          then relay calls' fuel f1
          else Some ([], Some x, f1)
      end
  end.

(** A receiver's loop: read message after message into a buffer of [cap]
    bytes until io.EOF and collect the payloads; any other error fails. *)
Fixpoint decode (calls cap : nat) (fr : framer) : option (list (list Z)) :=
  match calls with
  | O => None
  | S calls' =>
      '(n, e, fr1, got) <- read fr (repeat 0 cap) ;;
      match e with
      | None =>
          ms <- decode calls' cap fr1 ;;
          Some (firstn (Z.to_nat n) got :: ms)
      | Some x => if error_eqb x EOF then Some [] else None
      end
  end.
(** ** Vocabulary of the fast-path and forwarder statements *)

(** Sum of the payload lengths of a list of messages. *)
Definition total_len (msgs : list (list Z)) : Z :=
  fold_right (fun m t => len m + t) 0 msgs.

(** The bytes the write side puts on the transport for the message [p]:
    the payload itself in packet mode, one frame in stream mode. *)
Definition on_wire (pr : Protocol) (bo : ByteOrder) (p : list Z) : list Z :=
  if preserveBoundary pr then p else frame bo p.

(** A source that delivers the chunks [ds], one per [Read], and then reports
    end of stream. *)
Definition chunk_source (ds : list (list Z)) : source := map (fun d => (d, None)) ds.

(** All the bytes a source will deliver. *)
Definition bytes_of (s : source) : list Z := concat (map fst s).

(** A source that delivers its bytes in non-empty chunks without errors;
    when the codec retries on would-block ([retry]), would-block answers
    may come between the chunks. *)
Definition steady (retry : bool) (s : source) : Prop :=
  Forall (fun c => (fst c <> [] /\ snd c = None) \/
                   (retry = true /\ c = ([], Some ErrWouldBlock))) s.

(** The source [s] after [n] of its bytes have been read. *)
Fixpoint drop_bytes (n : nat) (s : source) {struct s} : source :=
  match n with
  | O => s
  | S _ =>
      match s with
      | [] => []
      | (d, e) :: tl =>
          if (length d <=? n)%nat then drop_bytes (n - length d) tl
          else (skipn n d, e) :: tl
      end
  end.

(** [NewReadWriter(r, w, opts...)]: the reader and the writer it groups share
    one codec, hence one header array, one length and one offset. *)
Definition NewReadWriter (r : source) (w : sink) (o : Options) : framer :=
  newFramer (Some r) (Some w) o.

(** The echo loop of the TCP example: [n] times, read one message into a
    buffer of [cap] bytes and write it back; stop at the first error. *)
Fixpoint echo (n cap : nat) (rw : framer) : option (option error * framer) :=
  match n with
  | O => Some (None, rw)
  | S n' =>
      '(k, re, rw1, got) <- read rw (repeat 0 cap) ;;
      match re with
      | Some x => Some (Some x, rw1)
      | None =>
          '(_, we, rw2) <- write rw1 (firstn (Z.to_nat k) got) ;;
          match we with
          | Some x => Some (Some x, rw2)
          | None => echo n' cap rw2
          end
      end
  end.
(** * Properties *)

(** ** Arithmetic of the byte-order primitives *)

Lemma testbit_high v n i : 0 <= v < 2 ^ n -> n <= i -> Z.testbit v i = false.
Proof.
  intros Hv Hi. destruct (Z.eq_dec v 0) as [->|Hne]; [apply Z.bits_0|].
  apply Z.bits_above_log2; [lia|].
  assert (0 < n) by (destruct (Z.le_gt_cases n 0); [|assumption];
    assert (2 ^ n <= 2 ^ 0) by (apply Z.pow_le_mono_r; lia); simpl in *; lia).
  assert (Z.log2 v < n) by (apply Z.log2_lt_pow2; lia). lia.
Qed.

Lemma lor_low_high a c n : 0 <= n -> 0 <= a < 2 ^ n -> Z.lor a (c * 2 ^ n) = a + c * 2 ^ n.
Proof.
  intros Hn Ha. apply or_to_plus. apply Z.bits_inj'. intros i Hi.
  rewrite Z.land_spec, Z.bits_0.
  destruct (Z.lt_ge_cases i n).
  - rewrite Z.mul_pow2_bits_low by lia. apply andb_false_r.
  - rewrite (testbit_high a n i) by lia. reflexivity.
Qed.

Lemma Uint16_sum bo b0 b1 :
  0 <= b0 < 256 -> 0 <= b1 < 256 ->
  Uint16 bo [b0; b1] =
  match bo with
  | LittleEndian => b0 + b1 * 2 ^ 8
  | BigEndian => b1 + b0 * 2 ^ 8
  end.
Proof.
  intros. destruct bo; unfold Uint16, at_; simpl nth;
    rewrite Z.shiftl_mul_pow2 by lia; apply lor_low_high; lia.
Qed.

Lemma Uint64_LE_sum b0 b1 b2 b3 b4 b5 b6 b7 :
  0 <= b0 < 256 -> 0 <= b1 < 256 -> 0 <= b2 < 256 -> 0 <= b3 < 256 ->
  0 <= b4 < 256 -> 0 <= b5 < 256 -> 0 <= b6 < 256 -> 0 <= b7 < 256 ->
  Uint64 LittleEndian [b0; b1; b2; b3; b4; b5; b6; b7] =
  b0 + b1 * 2 ^ 8 + b2 * 2 ^ 16 + b3 * 2 ^ 24 + b4 * 2 ^ 32 + b5 * 2 ^ 40
  + b6 * 2 ^ 48 + b7 * 2 ^ 56.
Proof.
  intros. unfold Uint64, at_; simpl nth.
  rewrite !Z.shiftl_mul_pow2 by lia.
  rewrite (lor_low_high (b6 * 2 ^ 48) b7 56) by lia.
  replace (b6 * 2 ^ 48 + b7 * 2 ^ 56) with ((b6 + b7 * 2 ^ 8) * 2 ^ 48) by lia.
  rewrite (lor_low_high (b5 * 2 ^ 40) _ 48) by lia.
  replace (b5 * 2 ^ 40 + (b6 + b7 * 2 ^ 8) * 2 ^ 48)
    with ((b5 + b6 * 2 ^ 8 + b7 * 2 ^ 16) * 2 ^ 40) by lia.
  rewrite (lor_low_high (b4 * 2 ^ 32) _ 40) by lia.
  replace (b4 * 2 ^ 32 + (b5 + b6 * 2 ^ 8 + b7 * 2 ^ 16) * 2 ^ 40)
    with ((b4 + b5 * 2 ^ 8 + b6 * 2 ^ 16 + b7 * 2 ^ 24) * 2 ^ 32) by lia.
  rewrite (lor_low_high (b3 * 2 ^ 24) _ 32) by lia.
  replace (b3 * 2 ^ 24 + (b4 + b5 * 2 ^ 8 + b6 * 2 ^ 16 + b7 * 2 ^ 24) * 2 ^ 32)
    with ((b3 + b4 * 2 ^ 8 + b5 * 2 ^ 16 + b6 * 2 ^ 24 + b7 * 2 ^ 32) * 2 ^ 24) by lia.
  rewrite (lor_low_high (b2 * 2 ^ 16) _ 24) by lia.
  replace (b2 * 2 ^ 16
           + (b3 + b4 * 2 ^ 8 + b5 * 2 ^ 16 + b6 * 2 ^ 24 + b7 * 2 ^ 32) * 2 ^ 24)
    with ((b2 + b3 * 2 ^ 8 + b4 * 2 ^ 16 + b5 * 2 ^ 24 + b6 * 2 ^ 32 + b7 * 2 ^ 40)
          * 2 ^ 16) by lia.
  rewrite (lor_low_high (b1 * 2 ^ 8) _ 16) by lia.
  replace (b1 * 2 ^ 8
           + (b2 + b3 * 2 ^ 8 + b4 * 2 ^ 16 + b5 * 2 ^ 24 + b6 * 2 ^ 32 + b7 * 2 ^ 40)
             * 2 ^ 16)
    with ((b1 + b2 * 2 ^ 8 + b3 * 2 ^ 16 + b4 * 2 ^ 24 + b5 * 2 ^ 32 + b6 * 2 ^ 40
           + b7 * 2 ^ 48) * 2 ^ 8) by lia.
  rewrite (lor_low_high b0 _ 8) by lia.
  lia.
Qed.

Lemma Uint64_BE_LE b0 b1 b2 b3 b4 b5 b6 b7 :
  Uint64 BigEndian [b0; b1; b2; b3; b4; b5; b6; b7] =
  Uint64 LittleEndian [b7; b6; b5; b4; b3; b2; b1; b0].
Proof. reflexivity. Qed.

Lemma byte_small v : 0 <= v < 256 -> byte v = v.
Proof. intros. unfold byte. apply Z.mod_small. lia. Qed.

(** The low 56 bits of a length, spelled as its seven bytes. *)
Lemma le_bytes_7 L :
  le_bytes 7 L =
  [L mod 256; L / 2 ^ 8 mod 256; L / 2 ^ 16 mod 256; L / 2 ^ 24 mod 256;
   L / 2 ^ 32 mod 256; L / 2 ^ 40 mod 256; L / 2 ^ 48 mod 256].
Proof.
  cbn [le_bytes]. rewrite !Z.div_div by lia. reflexivity.
Qed.

Lemma le_bytes_2 L : le_bytes 2 L = [L mod 256; L / 2 ^ 8 mod 256].
Proof. reflexivity. Qed.

(** What [Uint16] reads back from the two length bytes. *)
Lemma Uint16_order_bytes bo L :
  0 <= L < 2 ^ 16 -> Uint16 bo (order_bytes bo 2 L) = L.
Proof.
  intros HL. unfold order_bytes. rewrite le_bytes_2.
  destruct bo; cbn [rev app]; rewrite Uint16_sum
    by (apply Z.mod_pos_bound; lia);
    Z.div_mod_to_equations; lia.
Qed.

(** What [Uint64] followed by the mask or the shift reads back from the eight
    header bytes of the 56-bit class. *)
Lemma Uint64_order_bytes bo L :
  0 <= L < 2 ^ 56 ->
  (if is_LittleEndian bo
   then Z.shiftr (Uint64 bo (255 :: order_bytes bo 7 L)) 8
   else Z.land (Uint64 bo (255 :: order_bytes bo 7 L)) framePayloadMaxLen56) = L.
Proof.
  intros HL. unfold order_bytes. rewrite le_bytes_7.
  destruct bo; cbn [rev app is_LittleEndian].
  - rewrite Uint64_BE_LE, Uint64_LE_sum by (try apply Z.mod_pos_bound; lia).
    change framePayloadMaxLen56 with (Z.ones 56).
    rewrite Z.land_ones by lia.
    Z.div_mod_to_equations; lia.
  - rewrite Uint64_LE_sum by (try apply Z.mod_pos_bound; lia).
    rewrite Z.shiftr_div_pow2 by lia.
    Z.div_mod_to_equations; lia.
Qed.

(** What [PutUint16] stores for a 16-bit length. *)
Lemma PutUint16_order_bytes bo L :
  0 <= L < 2 ^ 16 -> PutUint16 bo (uint16 L) = order_bytes bo 2 L.
Proof.
  intros HL. unfold order_bytes, PutUint16, uint16, byte. rewrite le_bytes_2.
  rewrite (Z.mod_small L (2 ^ 16)) by lia.
  rewrite Z.shiftr_div_pow2 by lia. destruct bo; reflexivity.
Qed.

(** What [PutUint64] and the store of the lead byte leave in the header for
    a 56-bit length. *)
Lemma PutUint64_order_bytes bo L :
  0 <= L < 2 ^ 56 ->
  copy_at (PutUint64 bo
             (if is_LittleEndian bo
              then uint64 (Z.shiftl (uint64 L) 8)
              else uint64 (Z.land L framePayloadMaxLen56))) 0
          [framePayloadMaxLen8Bits + 2]
  = 255 :: order_bytes bo 7 L.
Proof.
  intros HL. unfold order_bytes. rewrite le_bytes_7.
  destruct bo; cbn [is_LittleEndian PutUint64 copy_at firstn skipn app length Nat.add rev].
  - change framePayloadMaxLen56 with (Z.ones 56).
    rewrite Z.land_ones by lia. unfold uint64, byte.
    rewrite (Z.mod_small L (2 ^ 56)) by lia.
    rewrite (Z.mod_small L (2 ^ 64)) by lia.
    rewrite !Z.shiftr_div_pow2 by lia. reflexivity.
  - unfold uint64, byte.
    rewrite (Z.mod_small L (2 ^ 64)) by lia.
    rewrite Z.shiftl_mul_pow2 by lia.
    rewrite (Z.mod_small (L * 2 ^ 8) (2 ^ 64)) by lia.
    rewrite !Z.shiftr_div_pow2 by lia.
    change (framePayloadMaxLen8Bits + 2) with 255.
    repeat match goal with |- _ :: _ = _ :: _ => f_equal end;
      Z.div_mod_to_equations; lia.
Qed.
(** ** Lists and slices *)

Lemma len_app a b : len (a ++ b) = len a + len b.
Proof. unfold len. rewrite length_app. lia. Qed.

Lemma len_nonneg a : 0 <= len a.
Proof. unfold len. lia. Qed.

Lemma copy_at_nil b off : copy_at b off [] = b.
Proof. unfold copy_at. cbn [length app]. rewrite Nat.add_0_r. apply firstn_skipn. Qed.

Lemma copy_at_length b off d :
  (off + length d <= length b)%nat -> length (copy_at b off d) = length b.
Proof.
  intros H. unfold copy_at. rewrite !length_app, length_firstn, length_skipn. lia.
Qed.

Lemma firstn_copy_at b off d :
  (off <= length b)%nat ->
  firstn (off + length d) (copy_at b off d) = firstn off b ++ d.
Proof.
  intros H. unfold copy_at. rewrite app_assoc.
  rewrite firstn_app.
  rewrite length_app, length_firstn.
  replace (off + length d - (Nat.min off (length b) + length d))%nat with 0%nat by lia.
  cbn [firstn]. rewrite app_nil_r.
  apply firstn_all2. rewrite length_app, length_firstn. lia.
Qed.

Lemma firstn_copy_at_low b off d k :
  (k <= off)%nat -> (off <= length b)%nat ->
  firstn k (copy_at b off d) = firstn k b.
Proof.
  intros Hk H. unfold copy_at. rewrite firstn_app, length_firstn.
  replace (k - Nat.min off (length b))%nat with 0%nat by lia.
  cbn [firstn]. rewrite app_nil_r, firstn_firstn. f_equal. lia.
Qed.

Lemma slice_length b lo hi :
  (lo <= hi)%nat -> (hi <= length b)%nat -> length (slice b lo hi) = (hi - lo)%nat.
Proof. intros. unfold slice. rewrite length_firstn, length_skipn. lia. Qed.

Lemma slice_app b lo mid hi :
  (lo <= mid)%nat -> (mid <= hi)%nat ->
  slice b lo mid ++ slice b mid hi = slice b lo hi.
Proof.
  intros H1 H2. unfold slice.
  rewrite <- (firstn_skipn (mid - lo) (firstn (hi - lo) (skipn lo b))).
  rewrite firstn_firstn, skipn_firstn_comm, skipn_skipn.
  f_equal; f_equal; try lia. f_equal. lia.
Qed.

Lemma slice_0 b hi : slice b 0 hi = firstn hi b.
Proof. unfold slice. cbn [skipn]. f_equal. lia. Qed.

Lemma slice_same b lo : slice b lo lo = [].
Proof. unfold slice. rewrite Nat.sub_diag. reflexivity. Qed.

Lemma slice_all b lo : slice b lo (length b) = skipn lo b.
Proof. unfold slice. apply firstn_all2. rewrite length_skipn. lia. Qed.

Lemma firstn_slice b lo hi k :
  (lo + k <= hi)%nat -> firstn k (slice b lo hi) = slice b lo (lo + k).
Proof.
  intros H. unfold slice. rewrite firstn_firstn. f_equal. lia.
Qed.

Lemma skipn_slice b lo hi k :
  (lo + k <= hi)%nat -> skipn k (slice b lo hi) = slice b (lo + k) hi.
Proof.
  intros H. unfold slice. rewrite skipn_firstn_comm, skipn_skipn.
  f_equal; [lia|f_equal; lia].
Qed.

Lemma slice_app_l a b lo hi :
  (hi <= length a)%nat -> slice (a ++ b) lo hi = slice a lo hi.
Proof.
  intros H. unfold slice. rewrite skipn_app, firstn_app, length_skipn.
  replace (hi - lo - (length a - lo))%nat with 0%nat by lia.
  cbn [firstn]. apply app_nil_r.
Qed.

Lemma slice_app_r a b lo hi :
  (length a <= lo)%nat -> slice (a ++ b) lo hi = slice b (lo - length a) (hi - length a).
Proof.
  intros H. unfold slice. rewrite skipn_app.
  rewrite (skipn_all2 a) by lia. cbn [app]. f_equal. lia.
Qed.

Lemma copy_at_copy_at b off d1 d2 :
  (off + length d1 <= length b)%nat ->
  copy_at (copy_at b off d1) (off + length d1) d2 = copy_at b off (d1 ++ d2).
Proof.
  intros H. unfold copy_at at 1.
  rewrite firstn_copy_at by lia.
  unfold copy_at. rewrite <- !app_assoc. do 3 f_equal.
  rewrite (app_assoc (firstn off b)).
  rewrite skipn_app.
  rewrite skipn_all2 by (rewrite length_app, length_firstn; lia).
  cbn [app]. rewrite length_app, length_firstn, skipn_skipn, length_app.
  f_equal. lia.
Qed.

(** ** Single reads on scripted sources *)

Lemma readOnce_serve_part retry d e tl k :
  (0 < k)%nat -> (k < length d)%nat ->
  readOnce_loop retry (serve d e tl) k = (firstn k d, None, serve (skipn k d) e tl).
Proof.
  intros Hk Hd. destruct d as [|b d]; [cbn in Hd; lia|].
  cbn [serve readOnce_loop rd_Read].
  destruct (Nat.leb_spec (length (b :: d)) k) as [Hle|_]; [lia|].
  assert (Hn : length (firstn k (b :: d)) = k) by (rewrite length_firstn; lia).
  rewrite Hn.
  destruct (Nat.eqb_spec k 0) as [->|_]; [lia|].
  cbn [negb andb].
  destruct (Nat.ltb_spec 0 k) as [_|]; [|lia].
  f_equal.
  destruct (skipn k (b :: d)) eqn:Hs; [|reflexivity].
  apply (f_equal (@length Z)) in Hs. rewrite length_skipn in Hs. cbn [length] in Hs, Hd. lia.
Qed.

Lemma readOnce_serve_all retry d e tl k :
  (0 < length d)%nat -> (length d <= k)%nat ->
  readOnce_loop retry (serve d e tl) k = (d, e, tl).
Proof.
  intros Hd Hk. destruct d as [|b d]; [cbn in Hd; lia|].
  cbn [serve readOnce_loop rd_Read].
  destruct (Nat.leb_spec (length (b :: d)) k) as [_|]; [|lia].
  destruct (Nat.eqb_spec k 0) as [->|_]; [lia|].
  cbn [negb andb length Nat.eqb Nat.ltb Nat.leb]. reflexivity.
Qed.

Lemma SigTail_nil retry : SigTail retry [] EOF [].
Proof. intros k Hk. reflexivity. Qed.

Lemma SigTail_sig retry x tl :
  retry = false \/ x <> ErrWouldBlock -> SigTail retry (([], Some x) :: tl) x tl.
Proof.
  intros H k Hk. cbn [readOnce_loop rd_Read length Nat.leb].
  destruct (Nat.eqb_spec k 0) as [->|_]; [lia|].
  cbn [negb andb Nat.eqb is_nil Nat.ltb Nat.leb is_err].
  destruct x; cbn [error_eqb negb]; try reflexivity.
  destruct H as [->|H]; [reflexivity|congruence].
Qed.

Lemma readOnce_rd fr s k :
  rd fr = Some s ->
  readOnce fr k =
  Some (let '(d, e, s') := readOnce_loop (waitOnceOnWouldBlock fr) s k in
        (d, e, set_rd fr (Some s'))).
Proof.
  intros H. unfold readOnce. rewrite H.
  destruct (readOnce_loop (waitOnceOnWouldBlock fr) s k) as [[d e] s']. reflexivity.
Qed.

Lemma bytes_reader_serve w : bytes_reader w = serve w None [].
Proof. destruct w; reflexivity. Qed.

(** ** The loops of the read state machine *)

Ltac zlia := unfold len in *; cbn [length] in *; lia.

Ltac fr_simpl :=
  cbn [rd rbo rpr wr wbo wpr readLimit retryDelay header length_ offset rbuf
       wtOff wtLen wbuf set_rd set_wr set_header set_length set_offset set_rbuf
       set_wbuf rstep reset].

Lemma readOnce_rstep fr s h Lc o k :
  readOnce (rstep fr s h Lc o) k =
  Some (let '(d, e, s') := readOnce_loop (waitOnceOnWouldBlock fr) s k in
        (d, e, rstep fr s' h Lc o)).
Proof.
  unfold readOnce, waitOnceOnWouldBlock. cbn [rd rstep retryDelay].
  destruct (readOnce_loop (if retryDelay fr <? 0 then false else true) s k)
    as [[d e] s'].
  reflexivity.
Qed.

Lemma error_eqb_refl x : error_eqb x x = true.
Proof. destruct x; cbn; try reflexivity. apply Nat.eqb_refl. Qed.

Lemma error_eqb_eq x y : error_eqb x y = true -> x = y.
Proof.
  destruct x, y; cbn; try discriminate; try reflexivity.
  intros H. apply Nat.eqb_eq in H. congruence.
Qed.

Lemma eof_as_eof y : eof_as EOF y = y.
Proof. reflexivity. Qed.

Lemma eof_as_other x y : x <> EOF -> eof_as x y = x.
Proof.
  intros H. unfold eof_as. destruct (error_eqb x EOF) eqn:E; [|reflexivity].
  apply error_eqb_eq in E. contradiction.
Qed.

Lemma read_lead_skip fuel fr :
  1 <= offset fr -> read_lead fuel fr = Some (Next fr).
Proof.
  intros H. destruct fuel; cbn [read_lead]; unfold frameHeaderLen;
    destruct (Z.ltb_spec (offset fr) 1); try zlia; reflexivity.
Qed.

Lemma read_lead_byte fr b d e tl h Lc :
  d <> [] \/ e = None \/ e = Some EOF ->
  read_lead 1 (rstep fr (serve (b :: d) e tl) h Lc 0) =
  Some (Next (rstep fr (serve d e tl) (copy_at h 0 [b]) Lc 1)).
Proof.
  intros He. cbn [read_lead]. fr_simpl. unfold frameHeaderLen.
  change (0 <? 1) with true. cbv iota.
  rewrite readOnce_rstep. change (Z.to_nat (1 - 0)) with 1%nat.
  destruct d as [|c d].
  - rewrite readOnce_serve_all by (cbn [length]; zlia).
    fr_simpl. change (Z.to_nat 0) with 0%nat. change (0 + len [b]) with 1.
    destruct He as [He|[->| ->]]; [congruence| |]; reflexivity.
  - rewrite readOnce_serve_part by (cbn [length]; zlia).
    fr_simpl. reflexivity.
Qed.

Lemma read_lead_sig fr tl x tl' h Lc :
  SigTail (waitOnceOnWouldBlock fr) tl x tl' ->
  read_lead 1 (rstep fr tl h Lc 0) = Some (Return (0, Some x, rstep fr tl' h Lc 0)).
Proof.
  intros Hs. cbn [read_lead]. fr_simpl. unfold frameHeaderLen.
  change (0 <? 1) with true. cbv iota.
  rewrite readOnce_rstep. change (Z.to_nat (1 - 0)) with 1%nat.
  rewrite (Hs 1%nat) by zlia. fr_simpl.
  rewrite copy_at_nil. change (0 + len []) with 0.
  destruct (error_eqb x EOF) eqn:E; [|reflexivity].
  apply error_eqb_eq in E. subst x. reflexivity.
Qed.

Lemma read_ext_skip fuel exLen fr :
  1 + exLen <= offset fr -> read_ext fuel exLen fr = Some (Next fr).
Proof.
  intros H. destruct fuel; cbn [read_ext]; unfold frameHeaderLen;
    destruct (Z.ltb_spec (offset fr) (1 + exLen)); try zlia; reflexivity.
Qed.

Lemma read_ext_enough fuel fr d1 d2 e tl h Lc o exLen :
  0 <= o -> o < 1 + exLen -> len d1 = 1 + exLen - o ->
  d2 <> [] \/ e = None \/ e = Some EOF ->
  read_ext (S fuel) exLen (rstep fr (serve (d1 ++ d2) e tl) h Lc o) =
  Some (Next (rstep fr (serve d2 e tl) (copy_at h (Z.to_nat o) d1) Lc (1 + exLen))).
Proof.
  intros Ho Hlt Hd He. cbn [read_ext]. fr_simpl. unfold frameHeaderLen.
  destruct (Z.ltb_spec o (1 + exLen)) as [_|]; [|zlia].
  rewrite readOnce_rstep.
  assert (Hk : Z.to_nat (1 + exLen - o) = length d1) by (zlia).
  rewrite Hk.
  assert (Hfin : forall fuel', read_ext fuel' exLen
            (rstep fr (serve d2 e tl) (copy_at h (Z.to_nat o) d1) Lc (o + len d1)) =
          Some (Next (rstep fr (serve d2 e tl) (copy_at h (Z.to_nat o) d1) Lc (1 + exLen)))).
  { intros. rewrite read_ext_skip by (fr_simpl; zlia).
    replace (1 + exLen) with (o + len d1) by zlia. reflexivity. }
  destruct d2 as [|c d2].
  - rewrite app_nil_r. rewrite readOnce_serve_all by (zlia).
    fr_simpl.
    destruct He as [He|[->| ->]]; [congruence| |].
    + apply Hfin.
    + cbn [error_eqb]. destruct (Z.ltb_spec (o + len d1) (1 + exLen)); [zlia|].
      replace (1 + exLen) with (o + len d1) by zlia. reflexivity.
  - rewrite readOnce_serve_part
      by (rewrite ?length_app; zlia).
    rewrite firstn_app, Nat.sub_diag, firstn_all. cbn [firstn]. rewrite app_nil_r.
    rewrite skipn_app, Nat.sub_diag, skipn_all. cbn [skipn app].
    fr_simpl. apply Hfin.
Qed.

Lemma read_ext_short fuel fr d tl x tl' h Lc o exLen :
  0 <= o -> len d < 1 + exLen - o -> (length d + 1 <= fuel)%nat ->
  SigTail (waitOnceOnWouldBlock fr) tl x tl' ->
  read_ext fuel exLen (rstep fr (serve d None tl) h Lc o) =
  Some (Return (0, Some (eof_as x ErrUnexpectedEOF),
                rstep fr tl' (copy_at h (Z.to_nat o) d) Lc (o + len d))).
Proof.
  intros Ho Hd Hf Hs.
  assert (Hsig : forall fuel' h' o', o' < 1 + exLen ->
            read_ext (S fuel') exLen (rstep fr tl h' Lc o') =
            Some (Return (0, Some (eof_as x ErrUnexpectedEOF), rstep fr tl' h' Lc o'))).
  { intros fuel' h' o' Ho'. cbn [read_ext]. fr_simpl. unfold frameHeaderLen.
    destruct (Z.ltb_spec o' (1 + exLen)) as [_|]; [|zlia].
    rewrite readOnce_rstep. rewrite (Hs (Z.to_nat (1 + exLen - o'))) by zlia.
    fr_simpl. rewrite copy_at_nil. replace (o' + len []) with o' by zlia.
    unfold eof_as. destruct (error_eqb x EOF); [|reflexivity].
    destruct (Z.ltb_spec o' (1 + exLen)); [reflexivity|zlia]. }
  destruct d as [|c d].
  - cbn [serve]. destruct fuel as [|fuel]; [zlia|].
    rewrite copy_at_nil. replace (o + len []) with o by zlia.
    apply Hsig. zlia.
  - destruct fuel as [|[|fuel]]; [zlia|zlia|].
    cbn [read_ext]. fr_simpl. unfold frameHeaderLen.
    destruct (Z.ltb_spec o (1 + exLen)) as [_|]; [|zlia].
    rewrite readOnce_rstep.
    rewrite readOnce_serve_all by (zlia).
    fr_simpl. apply Hsig. zlia.
Qed.
(** ** Header bytes *)

Lemma wire_header_length bo L : len (wire_header bo L) = header_size L.
Proof.
  unfold wire_header, header_size.
  destruct (L <=? 253); [reflexivity|].
  destruct (L <=? 65535); destruct bo; reflexivity.
Qed.

Lemma header_size_cases L : header_size L = 1 \/ header_size L = 3 \/ header_size L = 8.
Proof.
  unfold header_size. destruct (L <=? 253); [auto|]. destruct (L <=? 65535); auto.
Qed.

Lemma wire_header_lead bo L :
  exists W', wire_header bo L =
    (if L <=? 253 then L else if L <=? 65535 then 254 else 255) :: W'.
Proof.
  unfold wire_header. destruct (L <=? 253); [eexists; reflexivity|].
  destruct (L <=? 65535); eexists; reflexivity.
Qed.

Lemma read_exLen_header fr s h Lc o bo L :
  1 <= o -> 0 <= L ->
  firstn 1 h = firstn 1 (wire_header bo L) ->
  read_exLen (rstep fr s h Lc o) = header_size L - 1.
Proof.
  intros Ho HL Hh. unfold read_exLen. fr_simpl. unfold frameHeaderLen.
  destruct (Z.geb_spec o 1) as [_|]; [|lia].
  destruct (wire_header_lead bo L) as [W' HW]. rewrite HW in Hh.
  destruct h as [|b h]; [discriminate|]. cbn [firstn] in Hh. injection Hh as ->.
  unfold at_, header_size, framePayloadMaxLen8Bits. cbn [nth].
  change (2 ^ 8 - 3 + 1) with 254. change (2 ^ 8 - 3 + 2) with 255.
  destruct (Z.leb_spec L 253).
  - destruct (Z.eqb_spec L 254); [lia|]. destruct (Z.eqb_spec L 255); [lia|]. reflexivity.
  - destruct (Z.leb_spec L 65535); reflexivity.
Qed.

Lemma parse_length_header fr s h Lc bo L :
  rbo fr = bo -> 0 <= L <= framePayloadMaxLen56 ->
  length h = 8%nat ->
  firstn (Z.to_nat (header_size L)) h = wire_header bo L ->
  parse_length (header_size L - 1) (rstep fr s h Lc (header_size L)) =
  rstep fr s h L (header_size L).
Proof.
  intros Hbo HL Hlen Hh. unfold parse_length. fr_simpl. unfold frameHeaderLen.
  destruct (Z.eqb_spec (header_size L) (1 + (header_size L - 1))) as [_|]; [|lia].
  unfold framePayloadMaxLen56 in HL.
  revert Hh. unfold header_size, wire_header.
  destruct (Z.leb_spec L 253) as [H1|H1].
  - intros Hh. change (1 - 1 =? 2) with false. change (1 - 1 =? 7) with false. cbv iota.
    destruct h as [|b h]; [discriminate|]. cbn [firstn Z.to_nat Pos.to_nat Pos.iter_op Nat.add] in Hh.
    injection Hh as ->. reflexivity.
  - destruct (Z.leb_spec L 65535) as [H2|H2]; intros Hh.
    + change (3 - 1 =? 2) with true. cbv iota.
      replace (slice h 1 3) with (order_bytes bo 2 L).
      * rewrite Hbo, Uint16_order_bytes by lia. reflexivity.
      * unfold slice. change (3 - 1)%nat with 2%nat.
        change (Z.to_nat 3) with 3%nat in Hh.
        destruct h as [|b0 [|b1 [|b2 h]]]; try discriminate.
        cbn [firstn skipn] in *. injection Hh as _ Hh. exact (eq_sym Hh).
    + change (8 - 1 =? 2) with false. change (8 - 1 =? 7) with true. cbv iota.
      change (Z.to_nat 8) with 8%nat in Hh. rewrite <- Hlen, firstn_all in Hh.
      rewrite Hh, Hbo.
      pose proof (Uint64_order_bytes bo L ltac:(lia)) as HU.
      destruct (is_LittleEndian bo); rewrite HU; reflexivity.
Qed.

Lemma parse_length_after fr s h Lc o exLen :
  o <> 1 + exLen -> parse_length exLen (rstep fr s h Lc o) = rstep fr s h Lc o.
Proof.
  intros H. unfold parse_length. fr_simpl. unfold frameHeaderLen.
  destruct (Z.eqb_spec o (1 + exLen)); [contradiction|reflexivity].
Qed.
(** ** The payload loop *)

Lemma read_payload_done fuel hs fr s h Lc o p n :
  hs + Lc <= o ->
  read_payload fuel hs (rstep fr s h Lc o) p n = Some (n, None, rstep fr s h 0 0, p).
Proof.
  intros H. destruct fuel; cbn [read_payload]; fr_simpl;
    destruct (Z.ltb_spec o (hs + Lc)); try lia; reflexivity.
Qed.

Lemma read_payload_enough fuel hs fr d1 d2 e tl h Lc o p n :
  0 <= hs <= o -> o < hs + Lc -> len d1 = hs + Lc - o ->
  d2 <> [] \/ e = None \/ e = Some EOF ->
  read_payload (S fuel) hs (rstep fr (serve (d1 ++ d2) e tl) h Lc o) p n =
  Some (n + len d1, None, rstep fr (serve d2 e tl) h 0 0,
        copy_at p (Z.to_nat (o - hs)) d1).
Proof.
  intros Ho Hlt Hd He. cbn [read_payload]. fr_simpl.
  destruct (Z.ltb_spec o (hs + Lc)) as [_|]; [|lia].
  rewrite readOnce_rstep.
  assert (Hk : (Z.to_nat Lc - Z.to_nat (o - hs))%nat = length d1) by zlia.
  rewrite Hk.
  assert (Hfin : forall fuel', read_payload fuel' hs
            (rstep fr (serve d2 e tl) h Lc (o + len d1))
            (copy_at p (Z.to_nat (o - hs)) d1) (n + len d1) =
          Some (n + len d1, None, rstep fr (serve d2 e tl) h 0 0,
                copy_at p (Z.to_nat (o - hs)) d1)).
  { intros. apply read_payload_done. zlia. }
  destruct d2 as [|c d2].
  - rewrite app_nil_r. rewrite readOnce_serve_all by zlia.
    fr_simpl.
    destruct He as [He|[->| ->]]; [congruence| |].
    + apply Hfin.
    + cbn [error_eqb]. destruct (Z.ltb_spec (o + len d1) (hs + Lc)); [zlia|].
      reflexivity.
  - rewrite readOnce_serve_part by (rewrite ?length_app; zlia).
    rewrite firstn_app, Nat.sub_diag, firstn_all. cbn [firstn]. rewrite app_nil_r.
    rewrite skipn_app, Nat.sub_diag, skipn_all. cbn [skipn app].
    fr_simpl. apply Hfin.
Qed.

Lemma read_payload_short fuel hs fr d tl x tl' h Lc o p n :
  0 <= hs <= o -> len d < hs + Lc - o -> (length d + 1 <= fuel)%nat ->
  SigTail (waitOnceOnWouldBlock fr) tl x tl' ->
  read_payload fuel hs (rstep fr (serve d None tl) h Lc o) p n =
  Some (n + len d, Some (eof_as x ErrUnexpectedEOF),
        rstep fr tl' h Lc (o + len d), copy_at p (Z.to_nat (o - hs)) d).
Proof.
  intros Ho Hd Hf Hs.
  assert (Hsig : forall fuel' o' p' n', hs <= o' -> o' < hs + Lc ->
            read_payload (S fuel') hs (rstep fr tl h Lc o') p' n' =
            Some (n', Some (eof_as x ErrUnexpectedEOF), rstep fr tl' h Lc o', p')).
  { intros fuel' o' p' n' Hge Ho'. cbn [read_payload]. fr_simpl.
    destruct (Z.ltb_spec o' (hs + Lc)) as [_|]; [|lia].
    rewrite readOnce_rstep.
    rewrite (Hs (Z.to_nat Lc - Z.to_nat (o' - hs))%nat) by lia.
    fr_simpl. rewrite copy_at_nil. replace (o' + len []) with o' by zlia.
    replace (n' + len []) with n' by zlia.
    unfold eof_as. destruct (error_eqb x EOF); [|reflexivity].
    destruct (Z.ltb_spec o' (hs + Lc)); [reflexivity|lia]. }
  destruct d as [|c d].
  - cbn [serve]. destruct fuel as [|fuel]; [zlia|].
    rewrite copy_at_nil. replace (o + len []) with o by zlia.
    replace (n + len []) with n by zlia.
    apply Hsig; zlia.
  - destruct fuel as [|[|fuel]]; [zlia|zlia|].
    cbn [read_payload]. fr_simpl.
    destruct (Z.ltb_spec o (hs + Lc)) as [_|]; [|zlia].
    rewrite readOnce_rstep.
    rewrite readOnce_serve_all by zlia.
    fr_simpl. apply Hsig; zlia.
Qed.

(** ** After the header: length, size checks, payload *)

Section ReadTail.
Variables (fr : framer) (bo : ByteOrder) (L : Z) (h : list Z).
Hypothesis Hbo : rbo fr = bo.
Hypothesis HL : 0 <= L <= framePayloadMaxLen56.
Hypothesis Hlen : length h = 8%nat.
Hypothesis Hh : firstn (Z.to_nat (header_size L)) h = wire_header bo L.

Let hs := header_size L.

(** The state the size checks and the payload loop start from. *)
Lemma read_tail_parse s Lc o :
  hs <= o -> (hs < o -> Lc = L) ->
  parse_length (hs - 1) (rstep fr s h Lc o) = rstep fr s h L o.
Proof.
  intros Ho HLc. destruct (Z.eq_dec o hs) as [->|Hne].
  - unfold hs. apply parse_length_header with (bo := bo); assumption.
  - rewrite parse_length_after by lia. rewrite HLc by lia. reflexivity.
Qed.

Lemma read_tail_checks s Lc o p :
  hs <= o -> (hs < o -> Lc = L) ->
  readLimit fr <= 0 \/ L <= readLimit fr ->
  L <= len p ->
  read_tail (hs - 1) (rstep fr s h Lc o) p =
  read_payload (Z.to_nat L) hs (rstep fr s h L o) p 0.
Proof.
  intros Ho HLc Hlim Hp. unfold read_tail. rewrite read_tail_parse by assumption.
  fr_simpl. unfold frameHeaderLen.
  destruct (Z.ltb_spec L 0); [lia|].
  destruct (Z.gtb_spec L framePayloadMaxLen56); [lia|]. cbn [orb].
  destruct (Z.gtb_spec (readLimit fr) 0); cbn [andb].
  - destruct (Z.gtb_spec L (readLimit fr)); [lia|].
    destruct (Z.ltb_spec (len p) L); [lia|].
    replace (1 + (hs - 1)) with hs by lia. reflexivity.
  - destruct (Z.ltb_spec (len p) L); [lia|].
    replace (1 + (hs - 1)) with hs by lia. reflexivity.
Qed.

Lemma read_tail_enough d1 d2 e tl Lc o p :
  hs <= o -> (hs < o -> Lc = L) ->
  readLimit fr <= 0 \/ L <= readLimit fr ->
  L <= len p ->
  len d1 = hs + L - o ->
  d2 <> [] \/ e = None \/ e = Some EOF ->
  read_tail (hs - 1) (rstep fr (serve (d1 ++ d2) e tl) h Lc o) p =
  Some (len d1, None, rstep fr (serve d2 e tl) h 0 0,
        copy_at p (Z.to_nat (o - hs)) d1).
Proof.
  intros Ho HLc Hlim Hp Hd He. rewrite read_tail_checks by assumption.
  pose proof (header_size_cases L) as Hhs. fold hs in Hhs.
  destruct (Z.eq_dec o (hs + L)) as [Ho'|Ho'].
  - assert (d1 = []) as -> by (destruct d1; [reflexivity|zlia]).
    rewrite read_payload_done by lia. rewrite copy_at_nil. reflexivity.
  - destruct (Z.to_nat L) as [|fuel] eqn:EL; [zlia|].
    rewrite read_payload_enough by (try assumption; zlia).
    reflexivity.
Qed.

Lemma read_tail_short d tl x tl' Lc o p :
  hs <= o -> (hs < o -> Lc = L) ->
  readLimit fr <= 0 \/ L <= readLimit fr ->
  L <= len p ->
  len d < hs + L - o ->
  SigTail (waitOnceOnWouldBlock fr) tl x tl' ->
  read_tail (hs - 1) (rstep fr (serve d None tl) h Lc o) p =
  Some (len d, Some (eof_as x ErrUnexpectedEOF),
        rstep fr tl' h L (o + len d), copy_at p (Z.to_nat (o - hs)) d).
Proof.
  intros Ho HLc Hlim Hp Hd Hs. rewrite read_tail_checks by assumption.
  pose proof (header_size_cases L) as Hhs. fold hs in Hhs.
  rewrite (read_payload_short _ _ _ _ _ x tl') by (try assumption; zlia).
  reflexivity.
Qed.

Lemma read_tail_shortbuf s Lc p :
  readLimit fr <= 0 \/ L <= readLimit fr ->
  len p < L ->
  read_tail (hs - 1) (rstep fr s h Lc hs) p =
  Some (0, Some ErrShortBuffer, rstep fr s h L hs, p).
Proof.
  intros Hlim Hp. unfold read_tail. rewrite read_tail_parse by lia.
  fr_simpl.
  destruct (Z.ltb_spec L 0); [lia|].
  destruct (Z.gtb_spec L framePayloadMaxLen56); [lia|]. cbn [orb].
  destruct (Z.gtb_spec (readLimit fr) 0); cbn [andb].
  - destruct (Z.gtb_spec L (readLimit fr)); [lia|].
    destruct (Z.ltb_spec (len p) L); [reflexivity|lia].
  - destruct (Z.ltb_spec (len p) L); [reflexivity|lia].
Qed.

Lemma read_tail_toolong s Lc p :
  0 < readLimit fr < L ->
  read_tail (hs - 1) (rstep fr s h Lc hs) p =
  Some (0, Some ErrTooLong, rstep fr s h L hs, p).
Proof.
  intros Hlim. unfold read_tail. rewrite read_tail_parse by lia.
  fr_simpl.
  destruct (Z.ltb_spec L 0); [lia|].
  destruct (Z.gtb_spec L framePayloadMaxLen56); [lia|]. cbn [orb].
  destruct (Z.gtb_spec (readLimit fr) 0); [|lia]. cbn [andb].
  destruct (Z.gtb_spec L (readLimit fr)); [reflexivity|lia].
Qed.
End ReadTail.
(** ** The header phase of [readStream] *)

Lemma readStream_unfold fr p :
  readStream fr p =
  (r1 <- read_lead 1 fr ;;
   match r1 with
   | Return (n, e, fr') => Some (n, e, fr', p)
   | Next fr1 =>
       r3 <- read_ext 7 (read_exLen fr1) fr1 ;;
       match r3 with
       | Return (n, e, fr') => Some (n, e, fr', p)
       | Next fr3 => read_tail (read_exLen fr1) fr3 p
       end
   end).
Proof. reflexivity. Qed.

Lemma firstn_1_of_prefix (h W : list Z) o :
  (1 <= o)%nat -> firstn o h = firstn o W -> firstn 1 h = firstn 1 W.
Proof.
  intros Ho H. apply (f_equal (firstn 1)) in H.
  rewrite !firstn_firstn in H. replace (Nat.min 1 o) with 1%nat in H by lia.
  exact H.
Qed.

Section ReadHeader.
Variables (fr : framer) (bo : ByteOrder) (L : Z) (h : list Z).
Hypothesis HL : 0 <= L.
Hypothesis Hlen : length h = 8%nat.

Let W := wire_header bo L.
Let hs := header_size L.

Lemma header_length : Z.of_nat (length W) = hs.
Proof. apply wire_header_length. Qed.

Lemma header_bound : (1 <= length W <= 8)%nat.
Proof.
  pose proof header_length. pose proof (header_size_cases L). fold hs in H0. lia.
Qed.

(** A call that finds the codec past the header goes straight to the
    payload phase. *)
Lemma readStream_resume s Lc o p :
  hs <= o -> firstn 1 h = firstn 1 W ->
  readStream (rstep fr s h Lc o) p = read_tail (hs - 1) (rstep fr s h Lc o) p.
Proof.
  intros Ho Hh. rewrite readStream_unfold.
  pose proof (header_size_cases L) as Hc. fold hs in Hc.
  rewrite read_lead_skip by (fr_simpl; lia).
  rewrite (read_exLen_header fr s h Lc o bo L) by (try assumption; lia).
  fold hs. rewrite read_ext_skip by (fr_simpl; lia). reflexivity.
Qed.

Lemma header_after_enough o :
  (o <= length W)%nat -> firstn o h = firstn o W ->
  length (copy_at h o (skipn o W)) = 8%nat /\
  firstn (Z.to_nat hs) (copy_at h o (skipn o W)) = W.
Proof.
  intros Ho Hh. pose proof header_bound as Hb. pose proof header_length as Hl.
  split.
  - rewrite copy_at_length; [assumption|]. rewrite length_skipn. lia.
  - replace (Z.to_nat hs) with (o + length (skipn o W))%nat
      by (rewrite length_skipn; lia).
    rewrite firstn_copy_at by lia. rewrite Hh. apply firstn_skipn.
Qed.

Lemma header_after_short o t :
  (o <= t <= length W)%nat -> firstn o h = firstn o W ->
  length (copy_at h o (slice W o t)) = 8%nat /\
  firstn t (copy_at h o (slice W o t)) = firstn t W.
Proof.
  intros Ho Hh. pose proof header_bound as Hb.
  assert (Hsl : length (slice W o t) = (t - o)%nat) by (apply slice_length; lia).
  split.
  - rewrite copy_at_length; [assumption|]. lia.
  - replace t with (o + length (slice W o t))%nat at 1 by lia.
    rewrite firstn_copy_at by lia. rewrite Hh.
    rewrite <- (slice_0 W o), slice_app by lia. apply slice_0.
Qed.

(** The bytes of the header that are still missing are available: the
    call behaves as one resumed at the end of the header. *)
Lemma readStream_header_enough o d2 e tl Lc p :
  (o < length W)%nat -> firstn o h = firstn o W ->
  d2 <> [] \/ e = None \/ e = Some EOF ->
  readStream (rstep fr (serve (skipn o W ++ d2) e tl) h Lc (Z.of_nat o)) p =
  read_tail (hs - 1) (rstep fr (serve d2 e tl) (copy_at h o (skipn o W)) Lc hs) p.
Proof.
  intros Ho Hh He. rewrite readStream_unfold.
  pose proof header_bound as Hb. pose proof header_length as Hl.
  destruct o as [|o].
  - cbn [skipn Z.of_nat].
    destruct W as [|W0 W'] eqn:EW; [cbn [length] in Hb; lia|].
    cbn [app]. rewrite read_lead_byte.
    2:{ destruct W'; [|left; discriminate]. cbn [app]. exact He. }
    rewrite (read_exLen_header fr _ _ Lc 1 bo L); [|lia|assumption|].
    2:{ fold W. rewrite EW. destruct h; [discriminate|]. reflexivity. }
    fold hs.
    destruct W' as [|W1 W''] eqn:EW'.
    + cbn [length] in Hl. rewrite read_ext_skip by (fr_simpl; lia).
      cbn [app]. replace hs with 1 by lia. reflexivity.
    + rewrite <- EW' in *.
      rewrite (read_ext_enough 6 fr W' d2 e tl _ Lc 1 (hs - 1));
        [|lia|cbn [length] in Hl; rewrite EW' in *; zlia
         |cbn [length] in Hl; zlia|assumption].
      change (Z.to_nat 1) with (0 + length [W0])%nat.
      rewrite copy_at_copy_at by (cbn [length]; lia).
      cbn [app]. replace (1 + (hs - 1)) with hs by lia. reflexivity.
  - rewrite read_lead_skip by (fr_simpl; lia).
    rewrite (read_exLen_header fr _ _ Lc _ bo L); [|lia|assumption|].
    2:{ apply firstn_1_of_prefix with (o := S o); [lia|assumption]. }
    fold hs.
    rewrite (read_ext_enough 6 fr (skipn (S o) W) d2 e tl _ Lc _ (hs - 1));
      [|lia|lia|unfold len; rewrite length_skipn; lia|assumption].
    rewrite Nat2Z.id. replace (1 + (hs - 1)) with hs by lia. reflexivity.
Qed.

(** The source runs into a signal before the header is complete. *)
Lemma readStream_header_short o t tl x tl' Lc p :
  (o <= t)%nat -> (t < length W)%nat -> firstn o h = firstn o W ->
  SigTail (waitOnceOnWouldBlock fr) tl x tl' ->
  readStream (rstep fr (serve (slice W o t) None tl) h Lc (Z.of_nat o)) p =
  Some (0, Some (if (t =? 0)%nat then x else eof_as x ErrUnexpectedEOF),
        rstep fr tl' (copy_at h o (slice W o t)) Lc (Z.of_nat t), p).
Proof.
  intros Hot Ht Hh Hs. rewrite readStream_unfold.
  pose proof header_bound as Hb. pose proof header_length as Hl.
  assert (Hsl : length (slice W o t) = (t - o)%nat) by (apply slice_length; lia).
  destruct o as [|o].
  - destruct t as [|t].
    + rewrite slice_same. cbn [serve Z.of_nat Nat.eqb].
      rewrite (read_lead_sig fr tl x tl') by assumption.
      rewrite copy_at_nil. reflexivity.
    + cbn [Nat.eqb]. rewrite slice_0 in *.
      destruct W as [|W0 W'] eqn:EW; [cbn [length] in Hb; lia|].
      cbn [firstn Z.of_nat]. rewrite read_lead_byte by (right; left; reflexivity).
      rewrite (read_exLen_header fr _ _ Lc 1 bo L); [|lia|assumption|].
      2:{ fold W. rewrite EW. destruct h; [discriminate|]. reflexivity. }
      fold hs.
      assert (Hd : length (firstn t W') = t)
        by (rewrite length_firstn; cbn [length] in Ht; lia).
      rewrite (read_ext_short 7 fr (firstn t W') tl x tl' _ Lc 1 (hs - 1));
        [|lia|cbn [length] in *; zlia|cbn [length] in *; lia|assumption].
      change (Z.to_nat 1) with (0 + length [W0])%nat.
      rewrite copy_at_copy_at by (cbn [length]; lia).
      cbn [app]. replace (1 + len (firstn t W')) with (Z.of_nat (S t)) by zlia.
      reflexivity.
  - replace (t =? 0)%nat with false by (symmetry; apply Nat.eqb_neq; lia).
    rewrite read_lead_skip by (fr_simpl; lia).
    rewrite (read_exLen_header fr _ _ Lc _ bo L); [|lia|assumption|].
    2:{ apply firstn_1_of_prefix with (o := S o); [lia|assumption]. }
    fold hs.
    rewrite (read_ext_short 7 fr (slice W (S o) t) tl x tl' _ Lc _ (hs - 1));
      [|lia|zlia|lia|assumption].
    rewrite Nat2Z.id.
    replace (Z.of_nat (S o) + len (slice W (S o) t)) with (Z.of_nat t) by zlia.
    reflexivity.
Qed.
End ReadHeader.
(** ** Single writes on scripted sinks *)

Ltac fw_simpl :=
  cbn [rd rbo rpr wr wbo wpr readLimit retryDelay header length_ offset rbuf
       wtOff wtLen wbuf set_rd set_wr set_header set_length set_offset set_rbuf
       set_wbuf wstep reset accepted budgets].

Lemma writeOnce_loop_all retry acc p :
  writeOnce_loop retry [] acc p = (len p, None, mkSink (acc ++ p) []).
Proof. reflexivity. Qed.

Lemma writeOnce_loop_cut retry c x rest acc p :
  (c < length p)%nat ->
  retry = false \/ x <> ErrWouldBlock \/ (0 < c)%nat ->
  writeOnce_loop retry ((c, Some x) :: rest) acc p =
  (Z.of_nat c, Some x, mkSink (acc ++ firstn c p) rest).
Proof.
  intros Hc Hr. cbn [writeOnce_loop]. unfold wr_Write. cbn [budgets accepted].
  destruct (Nat.leb_spec (length p) c) as [|_]; [lia|].
  cbn [is_nil andb]. rewrite andb_false_r.
  destruct (Z.ltb_spec 0 (Z.of_nat c)) as [|Hz]; [reflexivity|].
  cbn [is_err].
  destruct (error_eqb x ErrWouldBlock) eqn:E; cbn [negb]; [|reflexivity].
  apply error_eqb_eq in E. subst x.
  destruct Hr as [->|[Hr|Hr]]; [reflexivity|congruence|lia].
Qed.

Lemma writeOnce_loop_within retry c e rest acc p :
  (length p <= c)%nat ->
  writeOnce_loop retry ((c, e) :: rest) acc p =
  (len p, None, mkSink (acc ++ p) ((c - length p, e)%nat :: rest)).
Proof.
  intros Hc. cbn [writeOnce_loop]. unfold wr_Write. cbn [budgets accepted].
  destruct (Nat.leb_spec (length p) c) as [_|]; [|lia].
  cbn [is_nil is_err negb andb].
  destruct p as [|b p]; [reflexivity|].
  cbn [length Nat.eqb negb andb]. unfold len. cbn [length].
  destruct (Z.eqb_spec (Z.of_nat (S (length p))) 0); [lia|]. cbn [andb].
  destruct (Z.ltb_spec 0 (Z.of_nat (S (length p)))); [reflexivity|lia].
Qed.

Lemma writeOnce_wstep fr acc bs h Lc o p :
  writeOnce (wstep fr (mkSink acc bs) h Lc o) p =
  Some (let '(n, e, s') := writeOnce_loop (waitOnceOnWouldBlock fr) bs acc p in
        (n, e, wstep fr s' h Lc o)).
Proof.
  unfold writeOnce, waitOnceOnWouldBlock. cbn [wr wstep retryDelay budgets accepted].
  destruct (writeOnce_loop (if retryDelay fr <? 0 then false else true) bs acc p)
    as [[n e] s'].
  reflexivity.
Qed.

(** ** The loops of the write state machine *)

Lemma write_header_skip fuel hs fr :
  hs <= offset fr -> write_header fuel hs fr = Some (Next fr).
Proof.
  intros H. destruct fuel; cbn [write_header];
    destruct (Z.ltb_spec (offset fr) hs); try lia; reflexivity.
Qed.

Lemma write_header_all fuel hs fr acc h Lc o :
  0 <= o < hs -> hs <= len h ->
  write_header (S fuel) hs (wstep fr (mkSink acc []) h Lc o) =
  Some (Next (wstep fr (mkSink (acc ++ slice h (Z.to_nat o) (Z.to_nat hs)) []) h Lc hs)).
Proof.
  intros Ho Hh. cbn [write_header]. fw_simpl.
  destruct (Z.ltb_spec o hs) as [_|]; [|lia].
  rewrite writeOnce_wstep, writeOnce_loop_all. fw_simpl.
  assert (Hsl : len (slice h (Z.to_nat o) (Z.to_nat hs)) = hs - o)
    by (unfold len; rewrite slice_length; zlia).
  rewrite write_header_skip by (fw_simpl; lia).
  rewrite Hsl. replace (o + (hs - o)) with hs by lia. reflexivity.
Qed.

Lemma write_header_within fuel hs fr acc c e rest h Lc o :
  0 <= o < hs -> hs <= len h -> hs - o <= Z.of_nat c ->
  write_header (S fuel) hs (wstep fr (mkSink acc ((c, e) :: rest)) h Lc o) =
  Some (Next (wstep fr (mkSink (acc ++ slice h (Z.to_nat o) (Z.to_nat hs))
                          ((c - Z.to_nat (hs - o), e)%nat :: rest)) h Lc hs)).
Proof.
  intros Ho Hh Hc. cbn [write_header]. fw_simpl.
  destruct (Z.ltb_spec o hs) as [_|]; [|lia].
  assert (Hsl : length (slice h (Z.to_nat o) (Z.to_nat hs)) = Z.to_nat (hs - o))
    by (rewrite slice_length; zlia).
  rewrite writeOnce_wstep, writeOnce_loop_within by lia. fw_simpl.
  rewrite write_header_skip by (fw_simpl; zlia).
  rewrite Hsl. replace (o + len (slice h (Z.to_nat o) (Z.to_nat hs))) with hs by zlia.
  reflexivity.
Qed.

Lemma write_header_cut fuel hs fr acc c x rest h Lc o :
  0 <= o < hs -> hs <= len h -> Z.of_nat c < hs - o ->
  waitOnceOnWouldBlock fr = false \/ x <> ErrWouldBlock \/ (0 < c)%nat ->
  write_header (S fuel) hs (wstep fr (mkSink acc ((c, Some x) :: rest)) h Lc o) =
  Some (Return (0, Some x,
                wstep fr (mkSink (acc ++ slice h (Z.to_nat o) (Z.to_nat o + c)) rest)
                  h Lc (o + Z.of_nat c))).
Proof.
  intros Ho Hh Hc Hr. cbn [write_header]. fw_simpl.
  destruct (Z.ltb_spec o hs) as [_|]; [|lia].
  assert (Hsl : length (slice h (Z.to_nat o) (Z.to_nat hs)) = Z.to_nat (hs - o))
    by (rewrite slice_length; zlia).
  rewrite writeOnce_wstep, writeOnce_loop_cut by (try assumption; lia). fw_simpl.
  rewrite firstn_slice by lia. reflexivity.
Qed.

Lemma write_payload_done fuel hs fr p n :
  hs + length_ fr <= offset fr ->
  write_payload fuel hs fr p n = Some (n, None, reset fr).
Proof.
  intros H. destruct fuel; cbn [write_payload];
    destruct (Z.ltb_spec (offset fr) (hs + length_ fr)); try lia; reflexivity.
Qed.

Lemma write_payload_all fuel hs fr acc h Lc o p n :
  Lc = len p -> 0 <= hs <= o -> o < hs + Lc ->
  write_payload (S fuel) hs (wstep fr (mkSink acc []) h Lc o) p n =
  Some (n + (hs + Lc - o), None,
        wstep fr (mkSink (acc ++ skipn (Z.to_nat (o - hs)) p) []) h 0 0).
Proof.
  intros HLc Ho Hlt. cbn [write_payload]. fw_simpl.
  destruct (Z.ltb_spec o (hs + Lc)) as [_|]; [|lia].
  rewrite writeOnce_wstep, writeOnce_loop_all. fw_simpl.
  assert (Hsk : len (skipn (Z.to_nat (o - hs)) p) = hs + Lc - o)
    by (unfold len; rewrite length_skipn; zlia).
  rewrite write_payload_done by (fw_simpl; rewrite Hsk; lia).
  rewrite Hsk. reflexivity.
Qed.

Lemma write_payload_cut fuel hs fr acc c x rest h Lc o p n :
  Lc = len p -> 0 <= hs <= o -> Z.of_nat c < hs + Lc - o ->
  waitOnceOnWouldBlock fr = false \/ x <> ErrWouldBlock \/ (0 < c)%nat ->
  write_payload (S fuel) hs (wstep fr (mkSink acc ((c, Some x) :: rest)) h Lc o) p n =
  Some (n + Z.of_nat c, Some x,
        wstep fr (mkSink (acc ++ slice p (Z.to_nat (o - hs)) (Z.to_nat (o - hs) + c)) rest)
          h Lc (o + Z.of_nat c)).
Proof.
  intros HLc Ho Hc Hr. cbn [write_payload]. fw_simpl.
  destruct (Z.ltb_spec o (hs + Lc)) as [_|]; [|lia].
  rewrite writeOnce_wstep, writeOnce_loop_cut
    by (try assumption; rewrite length_skipn; zlia).
  fw_simpl. rewrite <- slice_all, firstn_slice by zlia. reflexivity.
Qed.
(** ** The write state machine *)

Lemma write_exLen_wstep fr sk h L o :
  write_exLen (wstep fr sk h L o) = header_size L - 1.
Proof.
  unfold write_exLen, header_size, framePayloadMaxLen8Bits, framePayloadMaxLen16.
  fw_simpl. change (2 ^ 8 - 3) with 253. change (2 ^ 16 - 1) with 65535.
  destruct (L <=? 253); [reflexivity|]. destruct (L <=? 65535); reflexivity.
Qed.

Lemma fill_header_first fr sk h L exLen :
  0 <= L <= framePayloadMaxLen56 -> length h = 8%nat ->
  fill_header exLen (wstep fr sk h L 0) =
  wstep fr sk (copy_at h 0 (wire_header (wbo fr) L)) L 0.
Proof.
  intros HL Hh. unfold fill_header. fw_simpl. change (0 =? 0) with true. cbv iota.
  unfold wire_header, framePayloadMaxLen8Bits, framePayloadMaxLen16, framePayloadMaxLen56 in *.
  change (2 ^ 8 - 3) with 253. change (2 ^ 16 - 1) with 65535.
  destruct (Z.leb_spec L 253).
  - rewrite byte_small by lia. reflexivity.
  - destruct (Z.leb_spec L 65535).
    + rewrite PutUint16_order_bytes by lia.
      change 1%nat with (0 + length [253 + 1])%nat at 1.
      rewrite copy_at_copy_at by (cbn [length]; lia). reflexivity.
    + pose proof (PutUint64_order_bytes (wbo fr) L ltac:(unfold framePayloadMaxLen56; lia)) as HP.
      unfold framePayloadMaxLen56, framePayloadMaxLen8Bits in HP.
      change (2 ^ 8 - 3 + 2) with (253 + 2) in HP.
      set (v := if is_LittleEndian (wbo fr) then _ else _) in *.
      assert (Hv : length (PutUint64 (wbo fr) v) = 8%nat) by (destruct (wbo fr); reflexivity).
      assert (Ho : length (order_bytes (wbo fr) 7 L) = 7%nat) by (destruct (wbo fr); reflexivity).
      assert (Hc : copy_at h 0 (PutUint64 (wbo fr) v) = PutUint64 (wbo fr) v).
      { unfold copy_at. cbn [firstn app]. rewrite skipn_all2 by lia. apply app_nil_r. }
      rewrite Hc, HP.
      unfold copy_at. cbn [firstn app length Nat.add].
      rewrite skipn_all2 by lia. rewrite app_nil_r. reflexivity.
Qed.

Lemma fill_header_later fr sk h Lc o exLen :
  o <> 0 -> fill_header exLen (wstep fr sk h Lc o) = wstep fr sk h Lc o.
Proof.
  intros H. unfold fill_header. fw_simpl.
  destruct (Z.eqb_spec o 0); [contradiction|reflexivity].
Qed.

Lemma writeStream_unfold fr p :
  writeStream fr p =
  if len p >? framePayloadMaxLen56 then Some (0, Some ErrTooLong, fr)
  else
    let fr1 := if offset fr =? 0 then set_length fr (len p) else fr in
    if negb (length_ fr1 =? len p) then Some (0, Some ErrShortWrite, fr1)
    else
      let fr2 := fill_header (write_exLen fr1) fr1 in
      r <- write_header 8 (frameHeaderLen + write_exLen fr1) fr2 ;;
      match r with
      | Return r' => Some r'
      | Next fr3 => write_payload (length p) (frameHeaderLen + write_exLen fr1) fr3 p 0
      end.
Proof. reflexivity. Qed.

(** The message-identity guard. *)
Lemma writeStream_guard fr sk h Lc o q :
  o <> 0 -> Lc <> len q -> len q <= framePayloadMaxLen56 ->
  writeStream (wstep fr sk h Lc o) q =
  Some (0, Some ErrShortWrite, wstep fr sk h Lc o).
Proof.
  intros Ho HL Hq. rewrite writeStream_unfold. fw_simpl.
  destruct (Z.gtb_spec (len q) framePayloadMaxLen56); [lia|].
  destruct (Z.eqb_spec o 0); [contradiction|]. cbv zeta. fw_simpl.
  destruct (Z.eqb_spec Lc (len q)); [contradiction|]. reflexivity.
Qed.

Section WriteStream.
Variables (fr : framer) (p : list Z) (h : list Z) (L hs : Z) (W : list Z).
Hypothesis Hp : len p <= framePayloadMaxLen56.
Hypothesis Hlen : length h = 8%nat.
Hypothesis HL : L = len p.
Hypothesis HW : W = wire_header (wbo fr) L.
Hypothesis Hhs : hs = header_size L.

Local Abbreviation in_flight o := (in_flight_header (wbo fr) L h o).

Lemma header_facts : len W = hs /\ (hs = 1 \/ hs = 3 \/ hs = 8) /\ 0 <= L.
Proof.
  subst W hs. split; [apply wire_header_length|].
  split; [apply header_size_cases|]. rewrite HL. apply len_nonneg.
Qed.

Lemma in_flight_header_ok o :
  (o <> 0 -> firstn (Z.to_nat hs) h = W) ->
  length (in_flight o) = 8%nat /\
  firstn (Z.to_nat hs) (in_flight o) = W.
Proof.
  intros Hh. unfold in_flight_header. rewrite <- HW.
  destruct header_facts as (Hl & Hc & Hnn).
  destruct (Z.eqb_spec o 0).
  - split.
    + rewrite copy_at_length by zlia. assumption.
    + replace (Z.to_nat hs) with (0 + length W)%nat by zlia.
      rewrite firstn_copy_at by lia. reflexivity.
  - split; [assumption|auto].
Qed.

(** The first steps of a call on a message that is new ([o = 0]) or in
    flight with the same length. *)
Lemma writeStream_start sk Lc o :
  (o <> 0 -> Lc = L) ->
  writeStream (wstep fr sk h Lc o) p =
  (r <- write_header 8 hs (wstep fr sk (in_flight o) L o) ;;
   match r with
   | Return r' => Some r'
   | Next fr3 => write_payload (length p) hs fr3 p 0
   end).
Proof.
  intros HLc. rewrite writeStream_unfold. fw_simpl.
  destruct (Z.gtb_spec (len p) framePayloadMaxLen56); [lia|].
  destruct header_facts as (Hl & Hc & Hnn).
  unfold in_flight_header. rewrite <- HW.
  destruct (Z.eqb_spec o 0) as [->|Ho]; cbv zeta; fw_simpl.
  - rewrite Z.eqb_refl. cbn [negb].
    rewrite <- HL.
    change (set_length (wstep fr sk h Lc 0) L) with (wstep fr sk h L 0).
    rewrite write_exLen_wstep, fill_header_first by (try assumption; lia).
    unfold frameHeaderLen. rewrite <- Hhs, <- HW. replace (1 + (hs - 1)) with hs by lia.
    reflexivity.
  - rewrite HLc by assumption. rewrite <- HL. rewrite Z.eqb_refl. cbn [negb].
    rewrite write_exLen_wstep, fill_header_later by assumption.
    unfold frameHeaderLen. rewrite <- Hhs. replace (1 + (hs - 1)) with hs by lia.
    reflexivity.
Qed.

(** On a sink that accepts everything the call completes the message. *)
Lemma writeStream_all acc Lc o :
  0 <= o <= hs + L -> (o <> 0 -> Lc = L) ->
  (o <> 0 -> firstn (Z.to_nat hs) h = W) ->
  writeStream (wstep fr (mkSink acc []) h Lc o) p =
  Some (L - Z.max 0 (o - hs), None,
        wstep fr (mkSink (acc ++ skipn (Z.to_nat o) (W ++ p)) []) (in_flight o) 0 0).
Proof.
  intros Ho HLc Hh. rewrite writeStream_start by assumption.
  destruct (in_flight_header_ok o Hh) as [Hl8 Hpre].
  destruct header_facts as (Hl & Hc & Hnn).
  assert (HWn : length W = Z.to_nat hs) by zlia.
  destruct (Z.lt_ge_cases o hs) as [Hlt|Hge].
  - rewrite write_header_all by zlia.
    assert (Hsl : slice (in_flight o) (Z.to_nat o) (Z.to_nat hs) = skipn (Z.to_nat o) W).
    { rewrite <- Hpre. unfold slice. rewrite skipn_firstn_comm. reflexivity. }
    rewrite Hsl.
    destruct (Z.eq_dec L 0) as [HL0|HL0].
    + rewrite write_payload_done by (fw_simpl; lia). fw_simpl.
      assert (Hnil : skipn (Z.to_nat o) (W ++ p) = skipn (Z.to_nat o) W).
      { rewrite skipn_app. rewrite (skipn_all2 p) by zlia. apply app_nil_r. }
      rewrite Hnil.
      replace (L - Z.max 0 (o - hs)) with 0 by lia. reflexivity.
    + destruct (length p) as [|fuel] eqn:Ep; [zlia|].
      rewrite write_payload_all by (try assumption; lia).
      replace (Z.to_nat (hs - hs)) with 0%nat by lia. cbn [skipn].
      rewrite skipn_app, <- app_assoc.
      replace (Z.to_nat o - length W)%nat with 0%nat by lia. cbn [skipn].
      replace (0 + (hs + L - hs)) with (L - Z.max 0 (o - hs)) by lia.
      reflexivity.
  - rewrite write_header_skip by (fw_simpl; lia).
    assert (Hsk : skipn (Z.to_nat o) (W ++ p) = skipn (Z.to_nat (o - hs)) p).
    { rewrite skipn_app, skipn_all2 by lia. cbn [app]. f_equal. lia. }
    rewrite Hsk.
    destruct (Z.eq_dec o (hs + L)) as [Hfin|Hfin].
    + rewrite write_payload_done by (fw_simpl; lia). fw_simpl.
      rewrite skipn_all2 by zlia. rewrite app_nil_r.
      replace (L - Z.max 0 (o - hs)) with 0 by lia. reflexivity.
    + destruct (length p) as [|fuel] eqn:Ep; [zlia|].
      rewrite write_payload_all by (try assumption; lia).
      replace (0 + (hs + L - o)) with (L - Z.max 0 (o - hs)) by lia.
      reflexivity.
Qed.

(** The sink takes [c] more bytes, fewer than the message still needs, and
    then returns the signal [x]. *)
Lemma writeStream_cut acc c x rest Lc o :
  0 <= o -> Z.of_nat c < hs + L - o -> (o <> 0 -> Lc = L) ->
  (o <> 0 -> firstn (Z.to_nat hs) h = W) ->
  waitOnceOnWouldBlock fr = false \/ x <> ErrWouldBlock ->
  writeStream (wstep fr (mkSink acc ((c, Some x) :: rest)) h Lc o) p =
  Some (Z.max (o + Z.of_nat c) hs - Z.max o hs, Some x,
        wstep fr (mkSink (acc ++ slice (W ++ p) (Z.to_nat o) (Z.to_nat o + c)) rest)
          (in_flight o) L (o + Z.of_nat c)).
Proof.
  intros Ho Hc HLc Hh Hr. rewrite writeStream_start by assumption.
  destruct (in_flight_header_ok o Hh) as [Hl8 Hpre].
  destruct header_facts as (Hl & Hcs & Hnn).
  assert (HWn : length W = Z.to_nat hs) by zlia.
  assert (Hr' : waitOnceOnWouldBlock fr = false \/ x <> ErrWouldBlock \/ (0 < c)%nat)
    by (destruct Hr; auto).
  assert (Hhd : forall a b, (a <= b)%nat -> (b <= Z.to_nat hs)%nat ->
            slice (in_flight o) a b = slice (W ++ p) a b).
  { intros a b Hab Hb. rewrite slice_app_l by lia. rewrite <- Hpre.
    unfold slice. rewrite skipn_firstn_comm, firstn_firstn. f_equal. lia. }
  destruct (Z.lt_ge_cases o hs) as [Hlt|Hge].
  - destruct (Z.lt_ge_cases (Z.of_nat c) (hs - o)) as [Hcut|Hacc].
    + rewrite write_header_cut by (try assumption; zlia).
      rewrite Hhd by lia.
      replace (Z.max (o + Z.of_nat c) hs - Z.max o hs) with 0 by lia.
      reflexivity.
    + rewrite write_header_within by zlia.
      rewrite Hhd by lia.
      destruct (length p) as [|fuel] eqn:Ep; [zlia|].
      rewrite write_payload_cut
        by first [assumption | lia | (destruct Hr; auto)].
      replace (Z.to_nat (hs - hs)) with 0%nat by lia.
      rewrite <- app_assoc.
      replace (slice p 0 (0 + (c - Z.to_nat (hs - o))))
        with (slice (W ++ p) (Z.to_nat hs) (Z.to_nat o + c))
        by (rewrite slice_app_r by lia; f_equal; lia).
      rewrite slice_app by lia.
      replace (0 + Z.of_nat (c - Z.to_nat (hs - o)))
        with (Z.max (o + Z.of_nat c) hs - Z.max o hs) by lia.
      replace (hs + Z.of_nat (c - Z.to_nat (hs - o))) with (o + Z.of_nat c) by lia.
      reflexivity.
  - rewrite write_header_skip by (fw_simpl; lia).
    destruct (length p) as [|fuel] eqn:Ep; [zlia|].
    rewrite write_payload_cut by (try assumption; lia).
    replace (slice p (Z.to_nat (o - hs)) (Z.to_nat (o - hs) + c))
      with (slice (W ++ p) (Z.to_nat o) (Z.to_nat o + c))
      by (rewrite slice_app_r by lia; f_equal; lia).
    replace (0 + Z.of_nat c) with (Z.max (o + Z.of_nat c) hs - Z.max o hs) by lia.
    reflexivity.
Qed.
End WriteStream.
(** ** One call of [readStream] on a message in any state of progress *)

Lemma firstn_min_prefix (h W : list Z) a b :
  (b <= a)%nat -> firstn a h = firstn a W -> firstn b h = firstn b W.
Proof.
  intros Hab H. apply (f_equal (firstn b)) in H.
  rewrite !firstn_firstn in H. replace (Nat.min b a) with b in H by lia. exact H.
Qed.

Section ReadMessage.
Variables (fr : framer) (bo : ByteOrder) (m : list Z) (h : list Z) (W : list Z).
Variables (Lc : Z) (o : nat) (dst : list Z).
Hypothesis Hbo : rbo fr = bo.
Hypothesis Hm : len m <= framePayloadMaxLen56.
Hypothesis Hlim : readLimit fr <= 0 \/ len m <= readLimit fr.
Hypothesis Hdst : len m <= len dst.
Hypothesis HW : W = wire_header bo (len m).
Hypothesis Hlen : length h = 8%nat.
Hypothesis Hh : firstn (Nat.min o (length W)) h = firstn (Nat.min o (length W)) W.
Hypothesis HLc : (length W < o)%nat -> Lc = len m.

Lemma message_facts :
  Z.of_nat (length W) = header_size (len m) /\ (1 <= length W <= 8)%nat /\ 0 <= len m.
Proof.
  pose proof (wire_header_length bo (len m)) as Hl. rewrite <- HW in Hl.
  pose proof (header_size_cases (len m)) as Hc. pose proof (len_nonneg m) as Hn.
  unfold len in Hl, Hc, Hn |- *. lia.
Qed.

(** The source holds the rest of the message: the call delivers it. *)
Lemma readStream_rest d2 e tl :
  (o <= length (W ++ m))%nat ->
  d2 <> [] \/ e = None \/ e = Some EOF ->
  readStream (rstep fr (serve (skipn o (W ++ m) ++ d2) e tl) h Lc (Z.of_nat o)) dst =
  Some (len m - Z.of_nat (o - length W), None,
        rstep fr (serve d2 e tl) (copy_at h (Nat.min o (length W)) (skipn o W)) 0 0,
        copy_at dst (o - length W) (skipn (o - length W) m)).
Proof.
  intros Ho He. destruct message_facts as (Hhs & Hb & Hnn).
  rewrite length_app in Ho.
  destruct (Nat.lt_ge_cases o (length W)) as [Hlt|Hge].
  - replace (Nat.min o (length W)) with o in * by lia.
    replace (o - length W)%nat with 0%nat by lia.
    rewrite skipn_app. replace (o - length W)%nat with 0%nat by lia.
    cbn [skipn]. rewrite <- app_assoc.
    rewrite HW in *.
    assert (He' : m ++ d2 <> [] \/ e = None \/ e = Some EOF).
    { destruct He as [He|He]; [left|right; exact He].
      intros Hc. apply app_eq_nil in Hc. tauto. }
    rewrite (readStream_header_enough fr bo (len m) h Hnn Hlen) by assumption.
    destruct (header_after_enough bo (len m) h Hlen o ltac:(lia) Hh) as [Hl8 Hpre].
    rewrite (read_tail_enough fr bo (len m) _ Hbo ltac:(lia) Hl8 Hpre)
      by (try assumption; lia).
    replace (Z.to_nat (header_size (len m) - header_size (len m))) with 0%nat by lia.
    replace (len m - Z.of_nat 0) with (len m) by lia. reflexivity.
  - replace (Nat.min o (length W)) with (length W) in * by lia.
    rewrite skipn_app. rewrite (skipn_all2 W) by lia. cbn [app].
    rewrite copy_at_nil. rewrite HW in *.
    rewrite !firstn_all in Hh.
    assert (Hpre : firstn (Z.to_nat (header_size (len m))) h = wire_header bo (len m)).
    { rewrite <- Hhs, Nat2Z.id. exact Hh. }
    rewrite (readStream_resume fr bo (len m) h Hnn)
      by first [lia | apply firstn_1_of_prefix with (o := length (wire_header bo (len m)));
                      [lia|rewrite firstn_all; exact Hh]].
    rewrite (read_tail_enough fr bo (len m) h Hbo ltac:(lia) Hlen Hpre)
      by first [assumption | lia | unfold len; rewrite length_skipn; unfold len in *; lia].
    replace (Z.to_nat (Z.of_nat o - header_size (len m)))
      with (o - length (wire_header bo (len m)))%nat by lia.
    replace (len (skipn (o - length (wire_header bo (len m))) m))
      with (len m - Z.of_nat (o - length (wire_header bo (len m))))
      by (unfold len; rewrite length_skipn; unfold len in *; lia).
    reflexivity.
Qed.

(** The source holds the message up to position [t] and then signals. *)
Lemma readStream_signal t tl x tl' :
  (o <= t)%nat -> (t < length (W ++ m))%nat ->
  SigTail (waitOnceOnWouldBlock fr) tl x tl' ->
  readStream (rstep fr (serve (slice (W ++ m) o t) None tl) h Lc (Z.of_nat o)) dst =
  Some (Z.of_nat ((t - length W) - (o - length W)),
        Some (if (t =? 0)%nat then x else eof_as x ErrUnexpectedEOF),
        rstep fr tl' (copy_at h (Nat.min o (length W)) (slice W o t))
          (if (t <? length W)%nat then Lc else len m) (Z.of_nat t),
        copy_at dst (o - length W) (slice m (o - length W) (t - length W))).
Proof.
  intros Hot Ht Hs. destruct message_facts as (Hhs & Hb & Hnn).
  rewrite length_app in Ht.
  destruct (Nat.ltb_spec t (length W)) as [HtW|HtW].
  - (* the signal arrives inside the header *)
    replace (Nat.min o (length W)) with o in * by lia.
    rewrite slice_app_l by lia.
    replace (t - length W)%nat with 0%nat by lia.
    replace (o - length W)%nat with 0%nat by lia.
    rewrite slice_same, copy_at_nil. rewrite HW in *.
    rewrite (readStream_header_short fr bo (len m) h Hnn Hlen o t tl x tl')
      by assumption.
    reflexivity.
  - destruct (Nat.lt_ge_cases o (length W)) as [Hlt|Hge].
    + (* the header completes, the signal arrives inside the payload *)
      replace (Nat.min o (length W)) with o in * by lia.
      replace (o - length W)%nat with 0%nat by lia.
      replace (t =? 0)%nat with false by (symmetry; apply Nat.eqb_neq; lia).
      rewrite <- (slice_app (W ++ m) o (length W) t) by lia.
      rewrite (slice_app_l W m o (length W)) by lia.
      rewrite (slice_app_r W m (length W) t) by lia.
      rewrite Nat.sub_diag, slice_all.
      replace (slice W o t) with (skipn o W)
        by (unfold slice; symmetry; apply firstn_all2; rewrite length_skipn; lia).
      rewrite HW in *.
      rewrite (readStream_header_enough fr bo (len m) h Hnn Hlen)
        by (try assumption; right; left; reflexivity).
      destruct (header_after_enough bo (len m) h Hlen o ltac:(lia) Hh) as [Hl8 Hpre].
      assert (Hsl : len (slice m 0 (t - length (wire_header bo (len m)))) =
                    Z.of_nat (t - length (wire_header bo (len m))))
        by (unfold len; rewrite slice_length; unfold len in *; lia).
      rewrite (read_tail_short fr bo (len m) _ Hbo ltac:(lia) Hl8 Hpre _ tl x tl')
        by first [assumption | zlia].
      replace (Z.to_nat (header_size (len m) - header_size (len m))) with 0%nat by lia.
      rewrite Hsl.
      replace (header_size (len m) + Z.of_nat (t - length (wire_header bo (len m))))
        with (Z.of_nat t) by lia.
      replace (t - length (wire_header bo (len m)) - 0)%nat
        with (t - length (wire_header bo (len m)))%nat by lia.
      reflexivity.
    + (* the call starts inside the payload *)
      replace (Nat.min o (length W)) with (length W) in * by lia.
      replace (t =? 0)%nat with false by (symmetry; apply Nat.eqb_neq; lia).
      rewrite (slice_app_r W m o t) by lia.
      replace (slice W o t) with (@nil Z)
        by (unfold slice; rewrite skipn_all2 by lia; symmetry; apply firstn_nil).
      rewrite copy_at_nil. rewrite HW in *.
      rewrite !firstn_all in Hh.
      assert (Hpre : firstn (Z.to_nat (header_size (len m))) h = wire_header bo (len m)).
      { rewrite <- Hhs, Nat2Z.id. exact Hh. }
      rewrite (readStream_resume fr bo (len m) h Hnn)
        by first [lia | apply firstn_1_of_prefix with (o := length (wire_header bo (len m)));
                        [lia|rewrite firstn_all; exact Hh]].
      assert (Hsl : len (slice m (o - length (wire_header bo (len m)))
                           (t - length (wire_header bo (len m)))) =
                    Z.of_nat (t - o))
        by (unfold len; rewrite slice_length; unfold len in *; lia).
      rewrite (read_tail_short fr bo (len m) h Hbo ltac:(lia) Hlen Hpre _ tl x tl')
        by first [assumption | zlia].
      replace (Z.to_nat (Z.of_nat o - header_size (len m)))
        with (o - length (wire_header bo (len m)))%nat by lia.
      rewrite Hsl.
      replace (Z.of_nat o + Z.of_nat (t - o)) with (Z.of_nat t) by lia.
      replace (t - length (wire_header bo (len m)) - (o - length (wire_header bo (len m))))%nat
        with (t - o)%nat by lia.
      reflexivity.
Qed.

(** The state a signal leaves behind is again a state of progress of the
    same message. *)
Lemma signal_state t :
  (o <= t)%nat ->
  length (copy_at h (Nat.min o (length W)) (slice W o t)) = 8%nat /\
  firstn (Nat.min t (length W)) (copy_at h (Nat.min o (length W)) (slice W o t)) =
  firstn (Nat.min t (length W)) W /\
  ((length W < t)%nat -> (if (t <? length W)%nat then Lc else len m) = len m).
Proof.
  intros Hot. destruct message_facts as (Hhs & Hb & Hnn).
  split; [|split].
  - destruct (Nat.lt_ge_cases o (length W)).
    + rewrite copy_at_length; [assumption|].
      unfold slice. rewrite length_firstn, length_skipn. lia.
    + replace (slice W o t) with (@nil Z)
        by (unfold slice; rewrite skipn_all2 by lia; symmetry; apply firstn_nil).
      rewrite copy_at_nil. assumption.
  - destruct (Nat.lt_ge_cases o (length W)).
    + replace (Nat.min o (length W)) with o in * by lia.
      replace (slice W o t) with (slice W o (Nat.min t (length W))).
      2:{ unfold slice. destruct (Nat.le_ge_cases t (length W)).
          - replace (Nat.min t (length W)) with t by lia. reflexivity.
          - replace (Nat.min t (length W)) with (length W) by lia.
            rewrite !firstn_all2 by (rewrite length_skipn; lia). reflexivity. }
      rewrite HW in *.
      apply header_after_short; [assumption|lia|assumption].
    + replace (slice W o t) with (@nil Z)
        by (unfold slice; rewrite skipn_all2 by lia; symmetry; apply firstn_nil).
      rewrite copy_at_nil.
      replace (Nat.min t (length W)) with (length W) by lia.
      replace (Nat.min o (length W)) with (length W) in Hh by lia. exact Hh.
  - intros Ht. replace (t <? length W)%nat with false
      by (symmetry; apply Nat.ltb_ge; lia). reflexivity.
Qed.
End ReadMessage.
(** ** A reader interrupted at position [k] of a frame *)

Lemma copy_at_slices (b m : list Z) a c :
  (a <= c)%nat -> (c <= length m)%nat -> (c <= length b)%nat ->
  copy_at (copy_at b 0 (slice m 0 a)) a (slice m a c) = copy_at b 0 (slice m 0 c).
Proof.
  intros Hac Hc Hb. rewrite <- (slice_app m 0 a c) by lia.
  rewrite <- copy_at_copy_at by (rewrite slice_length; lia).
  rewrite slice_length by lia. f_equal. lia.
Qed.

Section Interrupted.
Variables (o : Options) (m dst : list Z).
Hypothesis Hpr : ReadProto o = BinaryStream.
Hypothesis Hm : len m <= framePayloadMaxLen56.
Hypothesis Hlim : ReadLimit o <= 0 \/ len m <= ReadLimit o.
Hypothesis Hdst : len m <= len dst.

Local Abbreviation W := (wire_header (ReadByteOrder o) (len m)).
Local Abbreviation fr0 := (newFramer None None o).

Local Abbreviation pos k s := (at_position o m k s).
Local Abbreviation dest k := (dst_at o m dst k).

Lemma read_stream_dispatch s h Lc off p :
  read (rstep fr0 s h Lc off) p = readStream (rstep fr0 s h Lc off) p.
Proof.
  unfold read. cbn [rd rstep rpr newFramer]. rewrite Hpr. reflexivity.
Qed.

Lemma at_position_0 s : pos 0 s = NewReader s o.
Proof.
  unfold at_position, NewReader. rewrite slice_same, copy_at_nil.
  destruct (wire_header_lead (ReadByteOrder o) (len m)) as [W' ->].
  reflexivity.
Qed.

Lemma dst_at_0 : dest 0 = dst.
Proof. unfold dst_at. cbn [Nat.sub]. rewrite slice_same. apply copy_at_nil. Qed.

Lemma at_position_state k :
  length (copy_at (repeat 0 8) 0 (slice W 0 k)) = 8%nat /\
  firstn (Nat.min k (length W)) (copy_at (repeat 0 8) 0 (slice W 0 k)) =
  firstn (Nat.min k (length W)) W /\
  ((length W < k)%nat -> (if (k <? length W)%nat then 0 else len m) = len m).
Proof.
  apply (signal_state (ReadByteOrder o) m (repeat 0 8) W 0 0%nat eq_refl eq_refl
           eq_refl ltac:(intros; lia) k ltac:(lia)).
Qed.

Lemma dst_at_length k : length (dest k) = length dst.
Proof.
  unfold dst_at. apply copy_at_length. unfold slice. cbn [skipn].
  rewrite length_firstn. unfold len in Hdst. lia.
Qed.

(** From position [k], a source that holds the frame up to position [t] and
    then signals [x]. *)
Lemma read_interrupted k t tl x tl' :
  (k <= t)%nat -> (t < length (W ++ m))%nat ->
  SigTail (waitOnceOnWouldBlock fr0) tl x tl' ->
  read (pos k (serve (slice (W ++ m) k t) None tl)) (dest k) =
  Some (Z.of_nat ((t - length W) - (k - length W)),
        Some (if (t =? 0)%nat then x else eof_as x ErrUnexpectedEOF),
        pos t tl', dest t).
Proof.
  intros Hkt Ht Hs. unfold at_position at 1. rewrite read_stream_dispatch.
  destruct (at_position_state k) as (Hl8 & Hpre & HLc).
  pose proof (dst_at_length k) as Hdl.
  rewrite (readStream_signal fr0 (ReadByteOrder o) m _ W _ k (dest k)
             eq_refl Hm Hlim ltac:(unfold len in *; lia) eq_refl Hl8 Hpre HLc
             t tl x tl' Hkt Ht Hs).
  f_equal. f_equal; [f_equal|].
  - unfold at_position.
    replace (copy_at (copy_at (repeat 0 8) 0 (slice W 0 k)) (Nat.min k (length W))
               (slice W k t))
      with (copy_at (repeat 0 8) 0 (slice W 0 t)).
    2:{ assert (Hwl : Z.of_nat (length W) = header_size (len m))
          by apply wire_header_length.
        pose proof (header_size_cases (len m)) as Hc.
        destruct (Nat.le_ge_cases k (length W)).
        - replace (Nat.min k (length W)) with k by lia.
          destruct (Nat.le_ge_cases t (length W)).
          + rewrite copy_at_slices by (cbn [repeat length]; lia). reflexivity.
          + replace (slice W k t) with (slice W k (length W))
              by (unfold slice; rewrite !firstn_all2 by (rewrite length_skipn; lia);
                  reflexivity).
            replace (slice W 0 t) with (slice W 0 (length W))
              by (unfold slice; rewrite !firstn_all2 by (rewrite length_skipn; lia);
                  reflexivity).
            rewrite copy_at_slices by (cbn [repeat length]; lia). reflexivity.
        - replace (slice W k t) with (@nil Z)
            by (unfold slice; rewrite skipn_all2 by lia; symmetry; apply firstn_nil).
          rewrite copy_at_nil. f_equal. unfold slice. cbn [skipn].
          rewrite !firstn_all2 by lia. reflexivity. }
    f_equal.
    destruct (Nat.ltb_spec t (length W)); destruct (Nat.ltb_spec k (length W));
      try reflexivity; lia.
  - unfold dst_at.
    rewrite length_app in Ht.
    rewrite copy_at_slices by (unfold len in Hdst; lia). reflexivity.
Qed.

(** From position [k], a source that holds the rest of the frame. *)
Lemma read_completed k d2 e tl :
  (k <= length (W ++ m))%nat ->
  d2 <> [] \/ e = None \/ e = Some EOF ->
  exists fr' dst',
    read (pos k (serve (skipn k (W ++ m) ++ d2) e tl)) (dest k) =
    Some (len m - Z.of_nat (k - length W), None, fr', dst') /\
    firstn (length m) dst' = m /\ offset fr' = 0 /\ length_ fr' = 0 /\
    rd fr' = Some (serve d2 e tl).
Proof.
  intros Hk He. unfold at_position. rewrite read_stream_dispatch.
  destruct (at_position_state k) as (Hl8 & Hpre & HLc).
  pose proof (dst_at_length k) as Hdl.
  rewrite (readStream_rest fr0 (ReadByteOrder o) m _ W _ k (dest k)
             eq_refl Hm Hlim ltac:(unfold len in *; lia) eq_refl Hl8 Hpre HLc
             d2 e tl Hk He).
  do 2 eexists. split; [reflexivity|]. split; [|repeat split].
  unfold dst_at. rewrite length_app in Hk.
  assert (Hsl : length (slice m 0 (k - length W)) = (k - length W)%nat)
    by (rewrite slice_length; lia).
  rewrite <- slice_all.
  rewrite copy_at_slices by (unfold len in Hdst; lia).
  rewrite slice_0, firstn_all.
  change (length m) with (0 + length m)%nat.
  rewrite firstn_copy_at by lia. reflexivity.
Qed.
End Interrupted.
(** ** The forwarder *)

Lemma write_stream_dispatch o sk h Lc off p :
  WriteProto o = BinaryStream ->
  write (wstep (newFramer None None o) sk h Lc off) p =
  writeStream (wstep (newFramer None None o) sk h Lc off) p.
Proof.
  intros H. unfold write. cbn [wr wstep wpr newFramer]. rewrite H. reflexivity.
Qed.

Section Message.
Variables (fr : framer) (bo : ByteOrder) (m more h : list Z).
Hypothesis Hbo : rbo fr = bo.
Hypothesis Hm : len m <= framePayloadMaxLen56.
Hypothesis Hlim : readLimit fr <= 0 \/ len m <= readLimit fr.
Hypothesis Hlen : length h = 8%nat.

Local Abbreviation Wm := (wire_header bo (len m)).

Lemma header_stored :
  length (copy_at h 0 Wm) = 8%nat /\
  firstn (Z.to_nat (header_size (len m))) (copy_at h 0 Wm) = Wm.
Proof.
  apply (header_after_enough bo (len m) h Hlen 0); [lia|reflexivity].
Qed.

(** A whole frame at the head of the source, a destination that holds it. *)
Lemma readStream_frame dst :
  len m <= len dst ->
  readStream (rstep fr (bytes_reader (frame bo m ++ more)) h 0 0) dst =
  Some (len m, None, rstep fr (bytes_reader more) (copy_at h 0 Wm) 0 0,
        copy_at dst 0 m).
Proof.
  intros Hdst. rewrite !bytes_reader_serve. unfold frame.
  change (Wm ++ m) with (skipn 0 (Wm ++ m)) at 1.
  change 0 with (Z.of_nat 0) at 2.
  rewrite (readStream_rest fr bo m h Wm 0 0%nat dst Hbo Hm Hlim Hdst eq_refl Hlen
             eq_refl ltac:(intros; lia) more None [] ltac:(lia)
             ltac:(right; left; reflexivity)).
  cbn [Nat.sub Nat.min skipn]. replace (len m - Z.of_nat 0) with (len m) by lia.
  reflexivity.
Qed.

(** The same with a destination that is too small: the header is consumed
    and the payload stays in the source. *)
Lemma readStream_frame_short small :
  len small < len m ->
  readStream (rstep fr (bytes_reader (frame bo m ++ more)) h 0 0) small =
  Some (0, Some ErrShortBuffer,
        rstep fr (bytes_reader (m ++ more)) (copy_at h 0 Wm) (len m)
          (header_size (len m)), small).
Proof.
  intros Hs. pose proof (len_nonneg m) as Hnn. pose proof (len_nonneg small) as Hns.
  assert (Hwl : len Wm = header_size (len m)) by apply wire_header_length.
  pose proof (header_size_cases (len m)) as Hc.
  destruct header_stored as [Hl8 Hpre].
  rewrite !bytes_reader_serve. unfold frame. rewrite <- app_assoc.
  change (Wm ++ m ++ more) with (skipn 0 Wm ++ (m ++ more)).
  change 0 with (Z.of_nat 0) at 2.
  rewrite (readStream_header_enough fr bo (len m) h Hnn Hlen 0 (m ++ more) None [])
    by first [reflexivity | (right; left; reflexivity) | zlia].
  cbn [skipn].
  rewrite (read_tail_shortbuf fr bo (len m) (copy_at h 0 Wm))
    by first [assumption | lia].
  reflexivity.
Qed.

(** The payload read that follows. *)
Lemma readStream_payload dst :
  len m <= len dst ->
  readStream (rstep fr (bytes_reader (m ++ more)) (copy_at h 0 Wm) (len m)
                (header_size (len m))) dst =
  Some (len m, None, rstep fr (bytes_reader more) (copy_at h 0 Wm) 0 0,
        copy_at dst 0 m).
Proof.
  intros Hdst. pose proof (len_nonneg m) as Hnn.
  assert (Hwl : len Wm = header_size (len m)) by apply wire_header_length.
  destruct header_stored as [Hl8 Hpre].
  rewrite !bytes_reader_serve.
  replace (header_size (len m)) with (Z.of_nat (length Wm)) by exact Hwl.
  replace (m ++ more) with (skipn (length Wm) (Wm ++ m) ++ more)
    by (rewrite skipn_app, skipn_all, Nat.sub_diag; reflexivity).
  rewrite (readStream_rest fr bo m (copy_at h 0 Wm) Wm (len m) (length Wm) dst
             Hbo Hm Hlim Hdst eq_refl Hl8).
  - rewrite Nat.min_id, skipn_all, copy_at_nil, Nat.sub_diag. cbn [skipn].
    replace (len m - Z.of_nat 0) with (len m) by lia. reflexivity.
  - rewrite Nat.min_id, firstn_all.
    replace (length Wm) with (Z.to_nat (header_size (len m))) by zlia. exact Hpre.
  - reflexivity.
  - rewrite length_app. lia.
  - right; left; reflexivity.
Qed.
End Message.

(** End of stream between two messages, whatever the header array holds. *)
Lemma readStream_eof fr h dst :
  length h = 8%nat ->
  readStream (rstep fr [] h 0 0) dst = Some (0, Some EOF, rstep fr [] h 0 0, dst).
Proof.
  intros Hlen.
  pose proof (readStream_signal fr (rbo fr) [] h (wire_header (rbo fr) (len [])) 0 0%nat dst
                eq_refl ltac:(vm_compute; discriminate)
                ltac:(destruct (Z.leb_spec (readLimit fr) 0); [left; assumption|right; cbn; lia])
                (len_nonneg dst) eq_refl Hlen eq_refl ltac:(intros; lia)
                0%nat [] EOF [] ltac:(lia)
                ltac:(destruct (rbo fr); cbn; lia)
                (SigTail_nil _)) as H.
  rewrite slice_same in H. cbn [serve Nat.sub Nat.min Nat.eqb Z.of_nat] in H.
  rewrite slice_same, !copy_at_nil in H.
  destruct (0 <? length (wire_header (rbo fr) (len [])))%nat; exact H.
Qed.

Lemma copy_at_whole (b d : list Z) : length d = length b -> copy_at b 0 d = d.
Proof.
  intros H. unfold copy_at. cbn [firstn app Nat.add].
  rewrite H, skipn_all. apply app_nil_r.
Qed.

Lemma firstn_copy_at_0 (b d : list Z) :
  (length d <= length b)%nat -> firstn (length d) (copy_at b 0 d) = d.
Proof.
  intros H. change (length d) with (0 + length d)%nat at 1.
  rewrite firstn_copy_at by lia. reflexivity.
Qed.

Lemma forward_read_stream_done fuel f :
  need f <= got f -> forward_read_stream fuel f = Some (Next f).
Proof.
  intros H. destruct fuel; cbn [forward_read_stream];
    destruct (Z.ltb_spec (got f) (need f)); try lia; reflexivity.
Qed.

Lemma NewForwarder_idle sk s o :
  NewForwarder (Some sk) (Some s) o =
  idle_forwarder o s sk (repeat 0 8) (repeat 0 8) (repeat 0 (Z.to_nat (forwarder_cap o))).
Proof. reflexivity. Qed.

Section Forward.
Variable o : Options.
Hypothesis Hrp : ReadProto o = BinaryStream.
Hypothesis Hwp : WriteProto o = BinaryStream.

Local Abbreviation fr0 := (newFramer None None o).

Lemma write_message acc hw m :
  len m <= framePayloadMaxLen56 -> length hw = 8%nat ->
  write (wstep fr0 (mkSink acc []) hw 0 0) m =
  Some (len m, None,
        wstep fr0 (mkSink (acc ++ frame (WriteByteOrder o) m) [])
          (copy_at hw 0 (wire_header (WriteByteOrder o) (len m))) 0 0).
Proof.
  intros Hm Hl. rewrite write_stream_dispatch by assumption.
  pose proof (header_size_cases (len m)). pose proof (len_nonneg m).
  rewrite (writeStream_all fr0 m hw (len m) (header_size (len m))
             (wire_header (WriteByteOrder o) (len m)) Hm Hl eq_refl eq_refl eq_refl acc 0 0)
    by first [lia | congruence].
  replace (len m - Z.max 0 (0 - header_size (len m))) with (len m) by lia.
  reflexivity.
Qed.

(** One call on an idle forwarder whose source starts with the frame of
    [m]: the message moves to the sink as one frame and the forwarder is
    idle again. *)
Lemma forward_message m more acc h hw b fuel :
  len m <= framePayloadMaxLen56 -> ReadLimit o <= 0 \/ len m <= ReadLimit o ->
  len m <= len b -> length h = 8%nat -> length hw = 8%nat ->
  exists h' hw' b',
    length h' = 8%nat /\ length hw' = 8%nat /\ length b' = length b /\
    ForwardOnce (S fuel)
      (idle_forwarder o (bytes_reader (frame (ReadByteOrder o) m ++ more))
         (mkSink acc []) h hw b) =
    Some (len m, None,
          idle_forwarder o (bytes_reader more)
            (mkSink (acc ++ frame (WriteByteOrder o) m) []) h' hw' b').
Proof.
  intros Hm Hlim Hb Hh Hhw.
  pose proof (len_nonneg m) as Hnn.
  destruct (header_stored (ReadByteOrder o) m h Hh) as [Hl8 _].
  assert (Hw8 : length (copy_at hw 0 (wire_header (WriteByteOrder o) (len m))) = 8%nat).
  { apply (header_stored (WriteByteOrder o) m hw Hhw). }
  unfold ForwardOnce, idle_forwarder. cbn [state eofPending andb Z.eqb].
  unfold forward_phase0. cbn [state rr ww buf need got eofAfterThis eofPending rpr rstep Z.eqb].
  change (rpr fr0) with (ReadProto o). rewrite Hrp. cbn [preserveBoundary negb].
  rewrite read_stream_dispatch by assumption.
  destruct (Z.eq_dec (len m) 0) as [Hz|Hz].
  - (* the empty message *)
    assert (m = []) as -> by (destruct m; [reflexivity|cbn in Hz; lia]).
    rewrite (readStream_frame fr0 (ReadByteOrder o) [] more h eq_refl Hm Hlim Hh [])
      by (cbn; lia).
    unfold forward_phase1. cbn [state Z.eqb Pos.eqb].
    unfold forward_phase2. cbn [state ww buf need rr got eofAfterThis eofPending Z.eqb Pos.eqb].
    change (firstn (Z.to_nat 0) b) with (@nil Z).
    rewrite write_message by assumption.
    eexists _, _, b. split; [exact Hl8|split; [exact Hw8|split; reflexivity]].
  - rewrite (readStream_frame_short fr0 (ReadByteOrder o) m more h eq_refl Hm Hlim Hh [])
      by (cbn; lia).
    cbn [error_eqb length_ rstep].
    destruct (Z.gtb_spec (len m) (len b)) as [Hgt|_]; [lia|].
    unfold forward_phase1. cbn [state rr rpr rstep Z.eqb Pos.eqb].
    change (rpr fr0) with (ReadProto o). rewrite Hrp. cbn [preserveBoundary].
    cbn [forward_read_stream need got rr buf ww state eofAfterThis eofPending].
    destruct (Z.ltb_spec 0 (len m)) as [_|Hle]; [|lia].
    rewrite read_stream_dispatch by assumption.
    assert (Hfl : length (firstn (Z.to_nat (len m)) b) = length m)
      by (rewrite length_firstn; zlia).
    rewrite (readStream_payload fr0 (ReadByteOrder o) m more h eq_refl Hm Hlim Hh)
      by (unfold len in *; rewrite length_firstn; lia).
    rewrite (copy_at_whole (firstn (Z.to_nat (len m)) b) m) by (symmetry; exact Hfl).
    rewrite forward_read_stream_done by (cbn [need got]; lia).
    unfold forward_phase2. cbn [state ww buf need rr got eofAfterThis eofPending Z.eqb Pos.eqb].
    replace (Z.to_nat (len m)) with (length m) by zlia.
    rewrite firstn_copy_at_0 by zlia.
    rewrite write_message by assumption.
    eexists _, _, (copy_at b 0 m).
    split; [exact Hl8|split; [exact Hw8|split; [apply copy_at_length; zlia|reflexivity]]].
Qed.

(** At end of stream the call reports io.EOF. *)
Lemma forward_eof sk h hw b fuel :
  length h = 8%nat ->
  ForwardOnce fuel (idle_forwarder o [] sk h hw b) =
  Some (0, Some EOF, idle_forwarder o [] sk h hw b).
Proof.
  intros Hh. unfold ForwardOnce, idle_forwarder. cbn [state eofPending andb Z.eqb].
  unfold forward_phase0. cbn [state rr ww buf need got eofAfterThis eofPending rpr rstep Z.eqb].
  change (rpr fr0) with (ReadProto o). rewrite Hrp. cbn [preserveBoundary negb].
  rewrite read_stream_dispatch by assumption.
  rewrite readStream_eof by assumption. reflexivity.
Qed.

(** The relay loop over a source that holds the frames of [msgs]. *)
Lemma relay_frames cap fuel msgs :
  Forall (fun m => len m <= framePayloadMaxLen56 /\
                   (ReadLimit o <= 0 \/ len m <= ReadLimit o) /\ len m <= cap) msgs ->
  forall acc h hw b,
    len b = cap -> length h = 8%nat -> length hw = 8%nat ->
    exists h' hw' b',
      relay (S (length msgs)) (S fuel)
        (idle_forwarder o (bytes_reader (concat (map (frame (ReadByteOrder o)) msgs)))
           (mkSink acc []) h hw b) =
      Some (map len msgs, None,
            idle_forwarder o []
              (mkSink (acc ++ concat (map (frame (WriteByteOrder o)) msgs)) []) h' hw' b').
Proof.
  induction 1 as [|m msgs (Hm & Hlim & Hcap) _ IH]; intros acc h hw b Hb Hh Hhw.
  - exists h, hw, b. cbn [length map concat bytes_reader relay].
    rewrite forward_eof by assumption. cbn [error_eqb]. rewrite app_nil_r. reflexivity.
  - cbn [length map concat].
    destruct (forward_message m (concat (map (frame (ReadByteOrder o)) msgs)) acc h hw b
                fuel Hm Hlim ltac:(lia) Hh Hhw) as (h1 & hw1 & b1 & Hh1 & Hhw1 & Hb1 & Hf).
    destruct (IH (acc ++ frame (WriteByteOrder o) m) h1 hw1 b1
                ltac:(unfold len in *; lia) Hh1 Hhw1) as (h2 & hw2 & b2 & Hr).
    exists h2, hw2, b2.
    change (relay (S (S (length msgs))) (S fuel) ?f)
      with ('(n, e, f1) <- ForwardOnce (S fuel) f ;;
            match e with
            | None =>
                '(ns, e', f') <- relay (S (length msgs)) (S fuel) f1 ;;
                Some (n :: ns, e', f')
            | Some x =>
                if error_eqb x EOF then Some ([], None, f1)
                else if error_eqb x ErrWouldBlock || error_eqb x ErrMore
                then relay (S (length msgs)) (S fuel) f1
                else Some ([], Some x, f1)
            end).
    rewrite Hf. cbv beta iota. rewrite Hr. rewrite <- app_assoc. reflexivity.
Qed.

(** The reader's loop over a source that holds the frames of [msgs]. *)
Lemma decode_frames cap msgs :
  Forall (fun m => len m <= framePayloadMaxLen56 /\
                   (ReadLimit o <= 0 \/ len m <= ReadLimit o) /\
                   len m <= Z.of_nat cap) msgs ->
  forall h, length h = 8%nat ->
    decode (S (length msgs)) cap
      (rstep fr0 (bytes_reader (concat (map (frame (ReadByteOrder o)) msgs))) h 0 0) =
    Some msgs.
Proof.
  induction 1 as [|m msgs (Hm & Hlim & Hcap) _ IH]; intros h Hh.
  - cbn [length map concat bytes_reader decode].
    rewrite read_stream_dispatch, readStream_eof by assumption. reflexivity.
  - cbn [length map concat].
    change (decode (S (S (length msgs))) cap ?f)
      with ('(n, e, fr1, got) <- read f (repeat 0 cap) ;;
            match e with
            | None =>
                ms <- decode (S (length msgs)) cap fr1 ;;
                Some (firstn (Z.to_nat n) got :: ms)
            | Some x => if error_eqb x EOF then Some [] else None
            end).
    rewrite read_stream_dispatch by assumption.
    rewrite (readStream_frame fr0 (ReadByteOrder o) m _ h eq_refl Hm Hlim Hh)
      by (unfold len in *; rewrite repeat_length; lia).
    cbv beta iota.
    destruct (header_stored (ReadByteOrder o) m h Hh) as [Hl8 _].
    rewrite (IH _ Hl8).
    replace (Z.to_nat (len m)) with (length m) by zlia.
    rewrite firstn_copy_at_0 by (rewrite repeat_length; zlia). reflexivity.
Qed.
End Forward.

Lemma forwarder_cap_pos o : 0 < forwarder_cap o.
Proof. unfold forwarder_cap. destruct (Z.leb_spec (ReadLimit o) 0); lia. Qed.

Lemma readPacket_final fr d tl h Lc off p :
  (0 < length d)%nat -> (length d <= length p)%nat ->
  readLimit fr <= 0 \/ len d <= readLimit fr ->
  readPacket (rstep fr ((d, Some EOF) :: tl) h Lc off) p =
  Some (len d, Some EOF, rstep fr tl h Lc off, copy_at p 0 d).
Proof.
  intros Hd Hp Hlim. unfold readPacket. rewrite readOnce_rstep.
  replace ((d, Some EOF) :: tl) with (serve d (Some EOF) tl)
    by (destruct d; [cbn in Hd; lia|reflexivity]).
  rewrite readOnce_serve_all by assumption. fr_simpl.
  destruct (Z.gtb_spec (readLimit fr) 0); cbn [andb]; [|reflexivity].
  destruct (Z.gtb_spec (len d) (readLimit fr)); [lia|reflexivity].
Qed.

Lemma writePacket_all fr acc h Lc off p :
  len p <= framePayloadMaxLen56 ->
  writePacket (wstep fr (mkSink acc []) h Lc off) p =
  Some (len p, None, wstep fr (mkSink (acc ++ p) []) h Lc off).
Proof.
  intros Hp. unfold writePacket.
  destruct (Z.gtb_spec (len p) framePayloadMaxLen56); [lia|].
  rewrite writeOnce_wstep, writeOnce_loop_all. cbn [is_nil negb].
  rewrite Z.eqb_refl. reflexivity.
Qed.

(** * Properties of the codec and of its callers *)

(** A fresh writer on a sink that accepts everything emits the canonical
    frame and returns the payload length. *)
Lemma write_fresh o acc p :
  WriteProto o = BinaryStream -> len p <= framePayloadMaxLen56 ->
  write (NewWriter (mkSink acc []) o) p =
  Some (len p, None,
        wstep (newFramer None None o) (mkSink (acc ++ frame (WriteByteOrder o) p) [])
          (copy_at (repeat 0 8) 0 (wire_header (WriteByteOrder o) (len p))) 0 0).
Proof.
  intros Hpr Hp. unfold write, NewWriter. cbn [wr newFramer wpr]. rewrite Hpr.
  cbn [preserveBoundary].
  change (newFramer None (Some (mkSink acc [])) o)
    with (wstep (newFramer None None o) (mkSink acc []) (repeat 0 8) 0 0).
  pose proof (header_size_cases (len p)). pose proof (len_nonneg p).
  rewrite (writeStream_all (newFramer None None o) p (repeat 0 8) (len p)
             (header_size (len p)) (wire_header (WriteByteOrder o) (len p))
             Hp eq_refl eq_refl eq_refl eq_refl acc 0 0)
    by first [lia | congruence].
  replace (len p - Z.max 0 (0 - header_size (len p))) with (len p) by lia.
  reflexivity.
Qed.

(** A fresh reader on a source that holds one frame, possibly followed by
    more bytes, delivers the payload. *)
Lemma read_fresh o m more dst :
  ReadProto o = BinaryStream -> len m <= framePayloadMaxLen56 ->
  ReadLimit o <= 0 \/ len m <= ReadLimit o -> len m <= len dst ->
  read (NewReader (bytes_reader (frame (ReadByteOrder o) m ++ more)) o) dst =
  Some (len m, None,
        rstep (newFramer None None o) (bytes_reader more)
          (copy_at (repeat 0 8) 0 (wire_header (ReadByteOrder o) (len m))) 0 0,
        copy_at dst 0 m).
Proof.
  intros Hpr Hm Hlim Hdst. unfold read, NewReader. cbn [rd newFramer rpr]. rewrite Hpr.
  cbn [preserveBoundary]. rewrite !bytes_reader_serve.
  change (newFramer (Some ?s) None o)
    with (rstep (newFramer None None o) s (repeat 0 8) 0 (Z.of_nat 0)).
  unfold frame.
  change (wire_header (ReadByteOrder o) (len m) ++ m)
    with (skipn 0 (wire_header (ReadByteOrder o) (len m) ++ m)) at 1.
  rewrite (readStream_rest (newFramer None None o) (ReadByteOrder o) m (repeat 0 8)
             (wire_header (ReadByteOrder o) (len m)) 0 0%nat dst
             eq_refl Hm Hlim Hdst eq_refl eq_refl eq_refl
             ltac:(intros; lia) more None [] ltac:(lia) ltac:(right; left; reflexivity)).
  cbn [Nat.sub Nat.min skipn]. replace (len m - Z.of_nat 0) with (len m) by lia.
  reflexivity.
Qed.

(** C1 — Stream-mode round-trip identity: for every payload [p] of at most
    2^56-1 bytes and each byte order, the bytes a fresh stream writer emits
    for [p] on a sink that accepts them, handed to a fresh stream reader of
    the same byte order with no read limit and a destination of at least
    [len p] bytes, come back as exactly [p] with count [len p] and a nil
    error. *)
Theorem roundtrip_stream (o : Options) (p dst : list Z) :
  ReadProto o = BinaryStream -> WriteProto o = BinaryStream ->
  ReadByteOrder o = WriteByteOrder o -> ReadLimit o = 0 ->
  len p <= framePayloadMaxLen56 -> len p <= len dst ->
  exists fw wire fr' dst',
    write (NewWriter buffer_sink o) p = Some (len p, None, fw) /\
    wr fw = Some (mkSink wire []) /\
    read (NewReader (bytes_reader wire) o) dst = Some (len p, None, fr', dst') /\
    firstn (length p) dst' = p /\ offset fr' = 0.
Proof.
  intros Hr Hw Hbo Hlim Hp Hdst. unfold buffer_sink.
  rewrite write_fresh by assumption.
  do 4 eexists. split; [reflexivity|]. split; [reflexivity|].
  cbn [app]. rewrite <- Hbo.
  rewrite <- (app_nil_r (frame (ReadByteOrder o) p)).
  rewrite read_fresh by first [assumption | lia].
  split; [reflexivity|]. split; [|reflexivity].
  change (length p) with (0 + length p)%nat.
  rewrite firstn_copy_at by lia. reflexivity.
Qed.

Lemma roundtrip_stream_witness :
  exists fw wire fr' dst',
    write (NewWriter buffer_sink defaultOptions) [104; 101; 108; 108; 111] =
      Some (5, None, fw) /\
    wr fw = Some (mkSink wire []) /\
    read (NewReader (bytes_reader wire) defaultOptions) (repeat 0 8) =
      Some (5, None, fr', dst') /\
    firstn 5 dst' = [104; 101; 108; 108; 111] /\ offset fr' = 0.
Proof.
  apply (roundtrip_stream defaultOptions [104; 101; 108; 108; 111] (repeat 0 8));
    try reflexivity; vm_compute; discriminate.
Defined.

(** C2 — Size-class boundaries: for a payload of length 0, 1, 253, 254, 255,
    65535 or 65536 the stream writer emits a header of 1, 1, 1, 3, 3, 3 or 8
    bytes whose lead byte is the length itself in the first class, [0xFE] in
    the second and [0xFF] in the third; and the reader, having read that lead
    byte, derives the same number of extended length bytes (0, 2 or 7). *)
Theorem size_class_boundaries (o : Options) (p : list Z) (L hsz lead : Z) :
  WriteProto o = BinaryStream ->
  In (L, (hsz, lead)) boundary_table -> len p = L ->
  exists fw wire fr1,
    write (NewWriter buffer_sink o) p = Some (L, None, fw) /\
    wr fw = Some (mkSink wire []) /\
    len wire = hsz + L /\ at_ wire 0 = lead /\
    skipn (Z.to_nat hsz) wire = p /\
    read_lead 1 (NewReader (bytes_reader wire) o) = Some (Next fr1) /\
    read_exLen fr1 = hsz - 1.
Proof.
  intros Hw Hin HL. unfold buffer_sink.
  rewrite write_fresh by (try assumption; unfold boundary_table in Hin; cbn [In] in Hin;
    unfold framePayloadMaxLen56;
    repeat (destruct Hin as [Hin|Hin]; [injection Hin as <- _ _; lia|]); contradiction).
  rewrite HL. cbn [app].
  exists (wstep (newFramer None None o) (mkSink (frame (WriteByteOrder o) p) [])
            (copy_at (repeat 0 8) 0 (wire_header (WriteByteOrder o) L)) 0 0).
  exists (frame (WriteByteOrder o) p).
  unfold frame. rewrite HL.
  assert (Hlead : forall W0 W', wire_header (WriteByteOrder o) L = W0 :: W' ->
            read_lead 1 (NewReader (bytes_reader ((W0 :: W') ++ p)) o) =
            Some (Next (rstep (newFramer None None o) (serve (W' ++ p) None [])
                          (copy_at (repeat 0 8) 0 [W0]) 0 1))).
  { intros W0 W' _. rewrite bytes_reader_serve. unfold NewReader.
    change (newFramer (Some ?s) None o)
      with (rstep (newFramer None None o) s (repeat 0 8) 0 0).
    cbn [app]. apply read_lead_byte. right. left. reflexivity. }
  unfold boundary_table in Hin. cbn [In] in Hin.
  repeat (destruct Hin as [Hin|Hin];
    [injection Hin as <- <- <-;
     destruct (WriteByteOrder o);
     (eexists; split; [reflexivity|]; split; [reflexivity|];
      split; [rewrite len_app, HL; reflexivity|];
      split; [reflexivity|]; split; [reflexivity|];
      split; [apply Hlead; reflexivity|reflexivity])|]).
  contradiction.
Qed.

Lemma size_class_boundaries_witness :
  exists fw wire fr1,
    write (NewWriter buffer_sink defaultOptions) (repeat 7 254) = Some (254, None, fw) /\
    wr fw = Some (mkSink wire []) /\
    len wire = 3 + 254 /\ at_ wire 0 = 254 /\
    skipn (Z.to_nat 3) wire = repeat 7 254 /\
    read_lead 1 (NewReader (bytes_reader wire) defaultOptions) = Some (Next fr1) /\
    read_exLen fr1 = 3 - 1.
Proof.
  apply (size_class_boundaries defaultOptions (repeat 7 254) 254 3 254).
  - reflexivity.
  - unfold boundary_table. cbn [In]. do 3 right. left. reflexivity.
  - vm_compute. reflexivity.
Defined.

Lemma nonblock_no_retry o :
  RetryDelay o < 0 -> waitOnceOnWouldBlock (newFramer None None o) = false.
Proof.
  intros H. unfold waitOnceOnWouldBlock. cbn [retryDelay newFramer].
  destruct (Z.ltb_spec (RetryDelay o) 0); [reflexivity|lia].
Qed.

Lemma frame_length bo m :
  length (frame bo m) = (length (wire_header bo (len m)) + length m)%nat.
Proof. unfold frame. apply length_app. Qed.

(** C3 — EOF taxonomy of the stream read state machine.  For a reader
    configured for stream mode and a frame [wire] of a payload [m] that fits
    the destination: (a) end of stream with no byte of a message consumed
    returns (0, io.EOF); (b) end of stream after [k] bytes of the frame,
    [0 < k < len wire], returns io.ErrUnexpectedEOF, whether those bytes were
    consumed by this call or (b') by an earlier call that was interrupted by
    would-block; (c) a transport that delivers the last byte of the frame
    together with io.EOF completes the message with ([len m], nil). *)
Theorem eof_taxonomy (o : Options) (m dst : list Z) :
  ReadProto o = BinaryStream -> len m <= framePayloadMaxLen56 ->
  ReadLimit o <= 0 \/ len m <= ReadLimit o -> len m <= len dst ->
  let wire := frame (ReadByteOrder o) m in
  let hs := length (wire_header (ReadByteOrder o) (len m)) in
  (exists fr',
     read (NewReader [] o) dst = Some (0, Some EOF, fr', dst) /\ offset fr' = 0) /\
  (forall k, (0 < k < length wire)%nat ->
     exists fr' dst',
       read (NewReader (bytes_reader (firstn k wire)) o) dst =
         Some (Z.of_nat (k - hs), Some ErrUnexpectedEOF, fr', dst') /\
       offset fr' = Z.of_nat k) /\
  (RetryDelay o < 0 ->
   forall k, (0 < k < length wire)%nat ->
     exists n1 fr1 dst1 fr2 dst2,
       read (NewReader (serve (firstn k wire) None [([], Some ErrWouldBlock)]) o) dst =
         Some (n1, Some ErrWouldBlock, fr1, dst1) /\
       offset fr1 = Z.of_nat k /\
       read fr1 dst1 = Some (0, Some ErrUnexpectedEOF, fr2, dst2) /\
       offset fr2 = Z.of_nat k) /\
  (exists fr' dst',
     read (NewReader [(wire, Some EOF)] o) dst = Some (len m, None, fr', dst') /\
     firstn (length m) dst' = m /\ offset fr' = 0).
Proof.
  intros Hpr Hm Hlim Hdst wire hs.
  pose proof (frame_length (ReadByteOrder o) m) as Hfl. fold wire hs in Hfl.
  assert (Hhs : (1 <= hs)%nat).
  { destruct (wire_header_lead (ReadByteOrder o) (len m)) as [W' HW].
    unfold hs. rewrite HW. cbn [length]. lia. }
  assert (Hfl' : length (wire_header (ReadByteOrder o) (len m) ++ m) = length wire)
    by reflexivity.
  split; [|split; [|split]].
  - pose proof (read_interrupted o m dst Hpr Hm Hlim Hdst 0 0 [] EOF []
                  ltac:(lia) ltac:(lia) (SigTail_nil _)) as H.
    rewrite slice_same in H. cbn [serve Nat.sub Nat.eqb Z.of_nat] in H.
    rewrite !at_position_0, !dst_at_0 in H.
    eexists. split; [exact H|reflexivity].
  - intros k Hk.
    pose proof (read_interrupted o m dst Hpr Hm Hlim Hdst 0 k [] EOF []
                  ltac:(lia) ltac:(lia) (SigTail_nil _)) as H.
    rewrite slice_0, <- bytes_reader_serve, at_position_0, dst_at_0 in H.
    replace (k =? 0)%nat with false in H by (symmetry; apply Nat.eqb_neq; lia).
    fold hs in H. replace (k - hs - (0 - hs))%nat with (k - hs)%nat in H by lia.
    do 2 eexists. split; [exact H|reflexivity].
  - intros Hnb k Hk.
    pose proof (read_interrupted o m dst Hpr Hm Hlim Hdst 0 k
                  [([], Some ErrWouldBlock)] ErrWouldBlock []
                  ltac:(lia) ltac:(lia)
                  (SigTail_sig _ _ _ (or_introl (nonblock_no_retry o Hnb)))) as H1.
    rewrite slice_0, at_position_0, dst_at_0 in H1.
    replace (k =? 0)%nat with false in H1 by (symmetry; apply Nat.eqb_neq; lia).
    pose proof (read_interrupted o m dst Hpr Hm Hlim Hdst k k [] EOF []
                  ltac:(lia) ltac:(lia) (SigTail_nil _)) as H2.
    rewrite slice_same in H2. cbn [serve] in H2.
    replace (k =? 0)%nat with false in H2 by (symmetry; apply Nat.eqb_neq; lia).
    replace (k - length (wire_header (ReadByteOrder o) (len m))
             - (k - length (wire_header (ReadByteOrder o) (len m))))%nat
      with 0%nat in H2 by lia.
    do 5 eexists. split; [exact H1|]. split; [reflexivity|].
    split; [exact H2|reflexivity].
  - destruct (read_completed o m dst Hpr Hm Hlim Hdst 0 [] (Some EOF) [])
      as (fr' & dst' & Hr & Hd & Ho & _); [lia|right; right; reflexivity|].
    cbn [skipn Nat.sub] in Hr. rewrite app_nil_r in Hr.
    rewrite at_position_0, dst_at_0 in Hr.
    replace (len m - Z.of_nat 0) with (len m) in Hr by lia.
    assert (Hs : serve (wire_header (ReadByteOrder o) (len m) ++ m) (Some EOF) [] =
                 [(wire, Some EOF)]).
    { fold (frame (ReadByteOrder o) m). fold wire.
      destruct wire; [cbn [length] in Hfl; lia|reflexivity]. }
    rewrite Hs in Hr. exists fr', dst'. auto.
Qed.

Lemma eof_taxonomy_witness :
  (exists fr',
     read (NewReader [] defaultOptions) [0; 0; 0; 0] =
       Some (0, Some EOF, fr', [0; 0; 0; 0]) /\ offset fr' = 0) /\
  (exists fr' dst',
     read (NewReader (bytes_reader (firstn 2 (frame BigEndian [10; 11; 12])))
             defaultOptions) [0; 0; 0; 0] =
       Some (1, Some ErrUnexpectedEOF, fr', dst') /\ offset fr' = 2).
Proof.
  assert (H := eof_taxonomy defaultOptions [10; 11; 12] [0; 0; 0; 0]
                 eq_refl ltac:(vm_compute; discriminate)
                 ltac:(left; vm_compute; discriminate)
                 ltac:(vm_compute; discriminate)).
  cbv zeta in H. destruct H as (Ha & Hb & _).
  split; [exact Ha|]. apply (Hb 2%nat). vm_compute. lia.
Defined.

(** C4 (as stated) fails on the byte count: with the frame of the three-byte
    payload [10; 11; 12] split after two bytes, the first call returns
    (1, ErrWouldBlock), the second call returns (2, nil), and one
    uninterrupted call returns (3, nil). *)
Lemma resumption_count_counterexample :
  exists fr1 dst1 fr2 dst2 fr' dst',
    read (NewReader (split_source (frame BigEndian [10; 11; 12]) 2) defaultOptions)
      [0; 0; 0] = Some (1, Some ErrWouldBlock, fr1, dst1) /\
    read fr1 dst1 = Some (2, None, fr2, dst2) /\
    read (NewReader (bytes_reader (frame BigEndian [10; 11; 12])) defaultOptions)
      [0; 0; 0] = Some (3, None, fr', dst') /\
    dst2 = dst' /\ 2 <> 3.
Proof.
  do 6 eexists. split; [vm_compute; reflexivity|].
  split; [vm_compute; reflexivity|].
  split; [vm_compute; reflexivity|].
  split; [reflexivity|discriminate].
Qed.

(** C4 (amended) — Resumption of stream reads: for every frame [wire] of a
    payload [m] and every split position [k < len wire], on a non-blocking
    reader whose transport serves the first [k] bytes, then would-block, then
    the rest, the first call returns would-block with the codec's offset at
    [k] (state kept), and the second call with the same destination returns
    nil with the same payload in the destination as one uninterrupted call;
    each call counts the payload bytes it placed itself, so the two counts add
    up to the count [len m] of the uninterrupted call. *)
Theorem resumption_read (o : Options) (m dst : list Z) (k : nat) :
  ReadProto o = BinaryStream -> RetryDelay o < 0 ->
  len m <= framePayloadMaxLen56 ->
  ReadLimit o <= 0 \/ len m <= ReadLimit o -> len m <= len dst ->
  let wire := frame (ReadByteOrder o) m in
  let hs := length (wire_header (ReadByteOrder o) (len m)) in
  (k < length wire)%nat ->
  exists n1 fr1 dst1 n2 fr2 dst2 fr' dst',
    read (NewReader (split_source wire k) o) dst =
      Some (n1, Some ErrWouldBlock, fr1, dst1) /\
    offset fr1 = Z.of_nat k /\
    read fr1 dst1 = Some (n2, None, fr2, dst2) /\
    read (NewReader (bytes_reader wire) o) dst = Some (len m, None, fr', dst') /\
    firstn (length m) dst2 = m /\ firstn (length m) dst' = m /\
    offset fr2 = 0 /\ offset fr' = 0 /\
    n1 = Z.of_nat (k - hs) /\ n2 = len m - Z.of_nat (k - hs) /\ n1 + n2 = len m.
Proof.
  intros Hpr Hnb Hm Hlim Hdst wire hs Hk.
  pose proof (frame_length (ReadByteOrder o) m) as Hfl. fold wire hs in Hfl.
  assert (Hfl' : length (wire_header (ReadByteOrder o) (len m) ++ m) = length wire)
    by reflexivity.
  (* first call *)
  pose proof (read_interrupted o m dst Hpr Hm Hlim Hdst 0 k
                (([], Some ErrWouldBlock) :: serve (skipn k wire) None [])
                ErrWouldBlock (serve (skipn k wire) None [])
                ltac:(lia) ltac:(lia)
                (SigTail_sig _ _ _ (or_introl (nonblock_no_retry o Hnb)))) as H1.
  rewrite slice_0, at_position_0, dst_at_0 in H1.
  fold (frame (ReadByteOrder o) m) in H1. fold wire in H1.
  assert (Hx : (if (k =? 0)%nat then ErrWouldBlock
                else eof_as ErrWouldBlock ErrUnexpectedEOF) = ErrWouldBlock)
    by (destruct (k =? 0)%nat; reflexivity).
  rewrite Hx in H1. fold hs in H1.
  replace (k - hs - (0 - hs))%nat with (k - hs)%nat in H1 by lia.
  (* second call *)
  destruct (read_completed o m dst Hpr Hm Hlim Hdst k [] None [])
    as (fr2 & dst2 & H2 & Hd2 & Ho2 & _); [lia|right; left; reflexivity|].
  rewrite app_nil_r in H2.
  fold (frame (ReadByteOrder o) m) in H2. fold wire hs in H2.
  (* the uninterrupted call *)
  destruct (read_completed o m dst Hpr Hm Hlim Hdst 0 [] None [])
    as (fr' & dst' & H3 & Hd3 & Ho3 & _); [lia|right; left; reflexivity|].
  cbn [skipn Nat.sub] in H3. rewrite app_nil_r in H3.
  rewrite at_position_0, dst_at_0, <- bytes_reader_serve in H3.
  fold (frame (ReadByteOrder o) m) in H3. fold wire in H3.
  replace (len m - Z.of_nat 0) with (len m) in H3 by lia.
  exists (Z.of_nat (k - hs)), (at_position o m k (serve (skipn k wire) None [])),
    (dst_at o m dst k), (len m - Z.of_nat (k - hs)), fr2, dst2, fr', dst'.
  unfold split_source.
  repeat split; try assumption; try reflexivity. lia.
Qed.

Lemma resumption_read_witness :
  exists n1 fr1 dst1 n2 fr2 dst2 fr' dst',
    read (NewReader (split_source (frame BigEndian [10; 11; 12]) 2) defaultOptions)
      [0; 0; 0] = Some (n1, Some ErrWouldBlock, fr1, dst1) /\
    offset fr1 = 2 /\
    read fr1 dst1 = Some (n2, None, fr2, dst2) /\
    read (NewReader (bytes_reader (frame BigEndian [10; 11; 12])) defaultOptions)
      [0; 0; 0] = Some (3, None, fr', dst') /\
    firstn 3 dst2 = [10; 11; 12] /\ firstn 3 dst' = [10; 11; 12] /\
    offset fr2 = 0 /\ offset fr' = 0 /\
    n1 = 1 /\ n2 = 3 - 1 /\ n1 + n2 = 3.
Proof.
  apply (resumption_read defaultOptions [10; 11; 12] [0; 0; 0] 2).
  - reflexivity.
  - reflexivity.
  - vm_compute. discriminate.
  - left. vm_compute. discriminate.
  - vm_compute. discriminate.
  - vm_compute. lia.
Defined.

(** C10 — Atomicity of a stream read that fails on a destination that is too
    small: the call returns (0, io.ErrShortBuffer) with the destination
    untouched, the whole header consumed and parsed (offset at the header
    size, length and header bytes stored) and every payload byte still in
    the transport; the next call with a destination of at least [len m] bytes
    returns the complete payload and takes exactly the payload bytes from the
    transport (no header byte is read again). *)
Theorem short_buffer_atomic (o : Options) (m more small dst : list Z) :
  ReadProto o = BinaryStream -> len m <= framePayloadMaxLen56 ->
  ReadLimit o <= 0 \/ len m <= ReadLimit o ->
  len small < len m -> len m <= len dst ->
  let W := wire_header (ReadByteOrder o) (len m) in
  exists fr1,
    read (NewReader (bytes_reader (frame (ReadByteOrder o) m ++ more)) o) small =
      Some (0, Some ErrShortBuffer, fr1, small) /\
    rd fr1 = Some (bytes_reader (m ++ more)) /\
    offset fr1 = header_size (len m) /\ length_ fr1 = len m /\
    firstn (length W) (header fr1) = W /\
    exists fr2 dst2,
      read fr1 dst = Some (len m, None, fr2, dst2) /\
      firstn (length m) dst2 = m /\
      rd fr2 = Some (bytes_reader more) /\ offset fr2 = 0 /\ length_ fr2 = 0.
Proof.
  intros Hpr Hm Hlim Hsmall Hdst W.
  pose proof (len_nonneg m) as Hnn. pose proof (len_nonneg small) as Hns.
  assert (Hwl : Z.of_nat (length W) = header_size (len m)) by apply wire_header_length.
  pose proof (header_size_cases (len m)) as Hc.
  assert (Hmne : m <> []) by (intros ->; cbn in Hsmall; lia).
  destruct (header_after_enough (ReadByteOrder o) (len m) (repeat 0 8) eq_refl 0)
    as [Hl8 Hpre]; [lia|reflexivity|].
  fold W in Hl8, Hpre. cbn [skipn] in Hl8, Hpre.
  set (h1 := copy_at (repeat 0 8) 0 W) in *.
  exists (rstep (newFramer None None o) (bytes_reader (m ++ more)) h1 (len m)
            (header_size (len m))).
  split; [|split; [reflexivity|split; [reflexivity|split; [reflexivity|split]]]].
  - unfold read, NewReader. cbn [rd newFramer rpr]. rewrite Hpr. cbn [preserveBoundary].
    rewrite !bytes_reader_serve. unfold frame. fold W. rewrite <- app_assoc.
    change (newFramer (Some ?s) None o)
      with (rstep (newFramer None None o) s (repeat 0 8) 0 (Z.of_nat 0)).
    change (W ++ m ++ more) with (skipn 0 W ++ (m ++ more)).
    unfold W.
    rewrite (readStream_header_enough (newFramer None None o) (ReadByteOrder o)
               (len m) (repeat 0 8) Hnn eq_refl 0 (m ++ more) None [])
      by first [reflexivity | (right; left; reflexivity)
               | (fold W; lia)].
    cbn [skipn]. fold W. fold h1.
    rewrite (read_tail_shortbuf (newFramer None None o) (ReadByteOrder o) (len m) h1)
      by first [reflexivity | lia | assumption].
    reflexivity.
  - replace (length W) with (Z.to_nat (header_size (len m))) by lia. exact Hpre.
  - destruct (read_completed o m dst Hpr Hm Hlim Hdst (length W) more None [])
      as (fr2 & dst2 & H2 & Hd2 & Ho2 & HL2 & Hrd2);
      [rewrite length_app; fold W; lia|right; left; reflexivity|].
    fold W in H2.
    rewrite skipn_app, skipn_all, Nat.sub_diag in H2. cbn [skipn app] in H2.
    replace (len m - Z.of_nat 0) with (len m) in H2 by lia.
    assert (Hpos : at_position o m (length W) (serve (m ++ more) None []) =
                   rstep (newFramer None None o) (bytes_reader (m ++ more)) h1 (len m)
                     (header_size (len m))).
    { unfold at_position. fold W. rewrite Nat.ltb_irrefl, slice_0, firstn_all.
      rewrite bytes_reader_serve, Hwl. reflexivity. }
    assert (Hdst0 : dst_at o m dst (length W) = dst).
    { unfold dst_at. fold W. rewrite Nat.sub_diag, slice_same. apply copy_at_nil. }
    rewrite Hpos, Hdst0 in H2.
    exists fr2, dst2. rewrite bytes_reader_serve. auto.
Qed.

Lemma short_buffer_atomic_witness :
  exists fr1,
    read (NewReader (bytes_reader (frame BigEndian [10; 11; 12] ++ [1; 77])) defaultOptions)
      [0; 0] = Some (0, Some ErrShortBuffer, fr1, [0; 0]) /\
    rd fr1 = Some (bytes_reader ([10; 11; 12] ++ [1; 77])) /\
    offset fr1 = header_size 3 /\ length_ fr1 = 3 /\
    firstn 1 (header fr1) = [3] /\
    exists fr2 dst2,
      read fr1 [0; 0; 0; 0] = Some (3, None, fr2, dst2) /\
      firstn 3 dst2 = [10; 11; 12] /\
      rd fr2 = Some (bytes_reader [1; 77]) /\ offset fr2 = 0 /\ length_ fr2 = 0.
Proof.
  apply (short_buffer_atomic defaultOptions [10; 11; 12] [1; 77] [0; 0] [0; 0; 0; 0]).
  - reflexivity.
  - vm_compute. discriminate.
  - left. vm_compute. discriminate.
  - vm_compute. reflexivity.
  - vm_compute. discriminate.
Defined.

(** C5 — Message-identity guard of stream writes.  A non-blocking writer
    whose sink accepts [c] bytes, fewer than the frame of [p], and then
    would-blocks: the first call returns would-block with exactly the first
    [c] bytes of the frame emitted; resuming with the same [p] emits the rest,
    so the sink holds the canonical frame once, and the payload counts of the
    two calls add up to [len p]; with the message in flight ([c > 0]), a call
    whose input has another length returns (0, io.ErrShortWrite) and leaves
    codec and sink as they were. *)
Theorem write_identity_guard (o : Options) (acc p q : list Z) (c : nat) :
  WriteProto o = BinaryStream -> RetryDelay o < 0 ->
  len p <= framePayloadMaxLen56 ->
  let wire := frame (WriteByteOrder o) p in
  (c < length wire)%nat ->
  exists n1 fr1,
    write (NewWriter (mkSink acc [(c, Some ErrWouldBlock)]) o) p =
      Some (n1, Some ErrWouldBlock, fr1) /\
    wr fr1 = Some (mkSink (acc ++ firstn c wire) []) /\
    offset fr1 = Z.of_nat c /\
    ((0 < c)%nat -> len q <> len p -> len q <= framePayloadMaxLen56 ->
     write fr1 q = Some (0, Some ErrShortWrite, fr1)) /\
    exists n2 fr2,
      write fr1 p = Some (n2, None, fr2) /\
      wr fr2 = Some (mkSink (acc ++ wire) []) /\
      offset fr2 = 0 /\ n1 + n2 = len p.
Proof.
  intros Hpr Hnb Hp wire Hc.
  set (fr0 := newFramer None None o).
  set (L := len p). set (hs := header_size L).
  set (W := wire_header (WriteByteOrder o) L).
  assert (Hwl : Z.of_nat (length W) = hs) by apply wire_header_length.
  pose proof (header_size_cases L) as Hcs. fold hs in Hcs.
  pose proof (len_nonneg p) as Hnn. fold L in Hnn.
  assert (Hwire : length wire = (length W + length p)%nat) by apply length_app.
  assert (HcL : Z.of_nat c < hs + L - 0) by (unfold L, len; lia).
  pose proof (writeStream_cut fr0 p (repeat 0 8) L hs W Hp eq_refl eq_refl eq_refl
                eq_refl acc c ErrWouldBlock [] 0 0 ltac:(lia) HcL
                ltac:(intros; lia) ltac:(intros; lia)
                (or_introl (nonblock_no_retry o Hnb))) as H1.
  change (Z.to_nat 0) with 0%nat in H1. cbn [Nat.add] in H1.
  rewrite slice_0 in H1. fold (frame (wbo fr0) p) in H1.
  change (frame (wbo fr0) p) with wire in H1.
  change (wstep fr0 (mkSink acc [(c, Some ErrWouldBlock)]) (repeat 0 8) 0 0)
    with (NewWriter (mkSink acc [(c, Some ErrWouldBlock)]) o) in H1.
  set (h1 := in_flight_header (wbo fr0) L (repeat 0 8) 0) in *.
  destruct (in_flight_header_ok fr0 p (repeat 0 8) L hs W eq_refl eq_refl eq_refl
              eq_refl 0 ltac:(intros; lia)) as [Hl8 Hpre].
  fold h1 in Hl8, Hpre.
  set (fr1 := wstep fr0 (mkSink (acc ++ firstn c wire) []) h1 L (0 + Z.of_nat c)) in *.
  exists (Z.max (0 + Z.of_nat c) hs - Z.max 0 hs), fr1.
  split; [|split; [reflexivity|split; [unfold fr1; cbn [offset wstep]; lia|split]]].
  - unfold write, NewWriter. cbn [wr newFramer wpr]. rewrite Hpr. exact H1.
  - intros Hc0 Hq Hqm. unfold fr1, fr0. rewrite write_stream_dispatch by assumption.
    apply writeStream_guard; [lia|fold L; congruence|assumption].
  - pose proof (writeStream_all fr0 p h1 L hs W Hp Hl8 eq_refl eq_refl eq_refl
                  (acc ++ firstn c wire) L (0 + Z.of_nat c)
                  ltac:(lia) ltac:(intros; reflexivity) ltac:(intros; exact Hpre)) as H2.
    replace (Z.to_nat (0 + Z.of_nat c)) with c in H2 by lia.
    change (W ++ p) with wire in H2.
    rewrite <- app_assoc, firstn_skipn in H2.
    do 2 eexists. unfold fr1, fr0. rewrite write_stream_dispatch by assumption.
    split; [exact H2|]. split; [reflexivity|]. split; [reflexivity|]. lia.
Qed.

Lemma write_identity_guard_witness :
  exists n1 fr1,
    write (NewWriter (mkSink [] [(3%nat, Some ErrWouldBlock)]) defaultOptions)
      [104; 101; 108; 108; 111] = Some (n1, Some ErrWouldBlock, fr1) /\
    wr fr1 = Some (mkSink ([] ++ firstn 3 (frame BigEndian [104; 101; 108; 108; 111])) []) /\
    offset fr1 = 3 /\
    ((0 < 3)%nat -> len [1; 2] <> len [104; 101; 108; 108; 111] ->
     len [1; 2] <= framePayloadMaxLen56 ->
     write fr1 [1; 2] = Some (0, Some ErrShortWrite, fr1)) /\
    exists n2 fr2,
      write fr1 [104; 101; 108; 108; 111] = Some (n2, None, fr2) /\
      wr fr2 = Some (mkSink ([] ++ frame BigEndian [104; 101; 108; 108; 111]) []) /\
      offset fr2 = 0 /\ n1 + n2 = len [104; 101; 108; 108; 111].
Proof.
  apply (write_identity_guard defaultOptions [] [104; 101; 108; 108; 111] [1; 2] 3).
  - reflexivity.
  - reflexivity.
  - vm_compute. discriminate.
  - vm_compute. lia.
Defined.

(** C8 — [Reader.WriteTo] with a sink that accepts only part of the scratch
    buffer.  The specification (and the comment on [wtOff]/[wtLen] in the codec) asks
    for the unwritten range to be recorded and drained first by the next
    call.  The code does neither.  With one 10-byte message and a sink that
    takes 4 bytes before would-block, the first call returns
    (4, ErrWouldBlock) with [wtOff = wtLen = 0], and the second call returns
    (0, nil) at end of stream: the sink holds 4 bytes and 6 are lost.  With a
    second message behind the first, the second call reads and writes that
    next message while two bytes of the first are lost. *)
Lemma drain_to_partial_sink_loses_bytes :
  two_drains 4
    (NewReader (bytes_reader (frame BigEndian [65; 66; 67; 68; 69; 70; 71; 72; 73; 74]))
       defaultOptions)
    (mkSink [] [(4%nat, Some ErrWouldBlock)]) =
  Some (4, Some ErrWouldBlock, (0, 0), 0, None, [65; 66; 67; 68], Some []) /\
  two_drains 4
    (NewReader (bytes_reader (frame BigEndian [97; 98; 99] ++ frame BigEndian [100]))
       defaultOptions)
    (mkSink [] [(1%nat, Some ErrWouldBlock)]) =
  Some (1, Some ErrWouldBlock, (0, 0), 1, None, [97; 100], Some []).
Proof. split; vm_compute; reflexivity. Qed.

(** C9 — Scenario S7 on [Writer.ReadFrom]: a source with one 5-byte chunk
    and a sink that takes 3 bytes before would-block.  The first call returns
    (2, ErrWouldBlock) with the codec's offset at 3, as specified.  The
    second call reads the source again, finds end of stream and returns
    (0, nil) without resuming the write in flight: the sink holds the lead
    byte 5 and two payload bytes only. *)
Lemma fill_from_partial_write_not_resumed :
  two_fills 2
    (NewWriter (mkSink [] [(3%nat, Some ErrWouldBlock)]) defaultOptions)
    [([104; 101; 108; 108; 111], None)] =
  Some (2, Some ErrWouldBlock, 3, 0, None, Some [5; 104; 101]).
Proof. vm_compute. reflexivity. Qed.

(** C7 — Packet final-EOF idiom of the forwarder: in packet mode, when the
    source's read returns the [n > 0] bytes of the last packet together with
    io.EOF, [ForwardOnce] on an idle forwarder whose destination accepts the
    packet forwards the [n] bytes and returns ([n], nil), and the following
    [ForwardOnce] returns (0, io.EOF). *)
Theorem packet_final_eof (o : Options) (acc d : list Z) (tl : source) (fuel : nat) :
  preserveBoundary (ReadProto o) = true ->
  0 < len d -> len d <= forwarder_cap o -> len d <= framePayloadMaxLen56 ->
  exists f1 f2 w1,
    ForwardOnce fuel
      (NewForwarder (Some (mkSink acc [])) (Some ((d, Some EOF) :: tl)) o) =
      Some (len d, None, f1) /\
    wr (ww f1) = Some (mkSink (acc ++ w1) []) /\
    w1 = (if preserveBoundary (WriteProto o) then d else frame (WriteByteOrder o) d) /\
    rd (rr f1) = Some tl /\
    ForwardOnce fuel f1 = Some (0, Some EOF, f2).
Proof.
  intros Hpr Hd Hcap Hmax.
  pose proof (forwarder_cap_pos o) as Hcp.
  set (fr := newFramer None None o).
  set (cap := Z.to_nat (forwarder_cap o)).
  set (buf0 := repeat 0 cap).
  assert (Hbl : length buf0 = cap) by apply repeat_length.
  assert (Hf0 : NewForwarder (Some (mkSink acc [])) (Some ((d, Some EOF) :: tl)) o =
                mkForwarder (rstep fr ((d, Some EOF) :: tl) (repeat 0 8) 0 0)
                  (wstep fr (mkSink acc []) (repeat 0 8) 0 0) buf0 0 0 0 false false)
    by reflexivity.
  rewrite Hf0. clear Hf0.
  assert (Hmaxv : (if (readLimit fr >? 0) && (len buf0 >? readLimit fr)
                   then readLimit fr else len buf0) = forwarder_cap o).
  { assert (Hlb : len buf0 = forwarder_cap o) by (unfold len; rewrite Hbl; unfold cap; lia).
    rewrite Hlb. unfold forwarder_cap in *. change (readLimit fr) with (ReadLimit o).
    destruct (Z.leb_spec (ReadLimit o) 0); destruct (Z.gtb_spec (ReadLimit o) 0);
      cbn [andb]; try lia; try reflexivity.
    destruct (Z.gtb_spec (ReadLimit o) (ReadLimit o)); [lia|reflexivity]. }
  assert (Hsl : slice buf0 (Z.to_nat 0) (Z.to_nat (forwarder_cap o)) = buf0).
  { unfold slice. change (Z.to_nat 0) with 0%nat. cbn [skipn].
    apply firstn_all2. fold cap. lia. }
  assert (Hlim : readLimit fr <= 0 \/ len d <= readLimit fr).
  { change (readLimit fr) with (ReadLimit o). unfold forwarder_cap in Hcap.
    destruct (Z.leb_spec (ReadLimit o) 0); [left|right]; lia. }
  assert (Hdl : (0 < length d)%nat /\ (length d <= length buf0)%nat)
    by (unfold len in *; rewrite Hbl; unfold cap; lia).
  set (buf1 := copy_at buf0 0 (copy_at buf0 0 d)).
  assert (Hb1 : firstn (Z.to_nat (0 + len d)) buf1 = d).
  { replace (Z.to_nat (0 + len d)) with (length d) by (unfold len; lia).
    unfold buf1.
    assert (Hl1 : length (copy_at buf0 0 d) = length buf0) by (apply copy_at_length; lia).
    assert (Hcc : copy_at buf0 0 (copy_at buf0 0 d) = copy_at buf0 0 d).
    { unfold copy_at at 1. cbn [firstn app Nat.add].
      rewrite Hl1, skipn_all. apply app_nil_r. }
    rewrite Hcc. apply firstn_copy_at_0. lia. }
  (* the write phase *)
  assert (Hw : exists ww1,
            write (wstep fr (mkSink acc []) (repeat 0 8) 0 0) d = Some (len d, None, ww1) /\
            wr ww1 = Some (mkSink (acc ++ (if preserveBoundary (WriteProto o) then d
                                           else frame (WriteByteOrder o) d)) [])).
  { unfold write. cbn [wr wstep wpr]. change (wpr fr) with (WriteProto o).
    destruct (preserveBoundary (WriteProto o)) eqn:Ew.
    - rewrite writePacket_all by assumption. eexists. split; reflexivity.
    - assert (Hws : WriteProto o = BinaryStream) by (destruct (WriteProto o); [reflexivity|discriminate|discriminate]).
      pose proof (write_fresh o acc d Hws Hmax) as Hwf.
      unfold write, NewWriter in Hwf. cbn [wr newFramer wpr] in Hwf. rewrite Hws in Hwf.
      cbn [preserveBoundary] in Hwf.
      change (newFramer None (Some (mkSink acc [])) o)
        with (wstep fr (mkSink acc []) (repeat 0 8) 0 0) in Hwf.
      rewrite Hwf. eexists. split; reflexivity. }
  destruct Hw as (ww1 & Hw1 & Hw2).
  exists (mkForwarder (rstep fr tl (repeat 0 8) 0 0) ww1 buf1 0 0 0 false true).
  exists (mkForwarder (rstep fr tl (repeat 0 8) 0 0) ww1 buf1 0 0 0 false true).
  eexists.
  split; [|split; [exact Hw2|split; [reflexivity|split; [reflexivity|reflexivity]]]].
  unfold ForwardOnce. cbn [state eofPending andb Z.eqb].
  unfold forward_phase0. cbn [state rr rpr rstep Z.eqb].
  change (rpr fr) with (ReadProto o). rewrite Hpr. cbn [negb].
  unfold forward_phase1. cbn [state rr rpr rstep Z.eqb].
  change (rpr fr) with (ReadProto o). rewrite Hpr.
  unfold forward_read_packet.
  cbn [rr ww buf need got state eofAfterThis eofPending readLimit rstep].
  change (readLimit fr) with (readLimit fr) in Hmaxv.
  fold fr. cbn [readLimit] in Hmaxv |- *.
  rewrite Hmaxv, Hsl.
  unfold read at 1. cbn [rd rstep rpr]. change (rpr fr) with (ReadProto o). rewrite Hpr.
  rewrite readPacket_final by (try assumption; lia).
  cbn [error_eqb orb]. cbn [rr ww buf need got state eofAfterThis eofPending].
  destruct (Z.eqb_spec (0 + len d) 0); [lia|].
  unfold forward_phase2. cbn [rr ww buf need got state eofAfterThis eofPending Z.eqb].
  change (Z.to_nat 0) with 0%nat.
  fold buf1. cbn [Z.eqb Pos.eqb rr ww buf need got state eofAfterThis eofPending].
  rewrite Hb1, Hw1. reflexivity.
Qed.

Lemma packet_final_eof_witness :
  exists f1 f2 w1,
    ForwardOnce 0
      (NewForwarder (Some (mkSink [] [])) (Some (([1; 2; 3], Some EOF) :: []))
         (mkOptions BigEndian BigEndian SeqPacket SeqPacket 16 (-1))) =
      Some (len [1; 2; 3], None, f1) /\
    wr (ww f1) = Some (mkSink ([] ++ w1) []) /\
    w1 = (if preserveBoundary (WriteProto (mkOptions BigEndian BigEndian SeqPacket SeqPacket 16 (-1)))
          then [1; 2; 3]
          else frame (WriteByteOrder (mkOptions BigEndian BigEndian SeqPacket SeqPacket 16 (-1)))
                 [1; 2; 3]) /\
    rd (rr f1) = Some [] /\
    ForwardOnce 0 f1 = Some (0, Some EOF, f2).
Proof.
  apply (packet_final_eof (mkOptions BigEndian BigEndian SeqPacket SeqPacket 16 (-1))
           [] [1; 2; 3] [] 0).
  - reflexivity.
  - vm_compute. reflexivity.
  - vm_compute. discriminate.
  - vm_compute. discriminate.
Defined.

(** C6 — Forwarder boundary preservation.  A stream-mode forwarder whose
    source holds the frames of [msgs], each within the buffer capacity (hence
    within the read limit) and encodable, and whose sink accepts every write:
    the relay loop ends at io.EOF after one successful call per message, each
    returning that message's length; the sink then holds exactly one frame
    per message, in order; and a stream reader over the sink's bytes decodes
    the same list of payloads and then meets io.EOF. *)
Theorem forwarder_preserves_boundaries (o o' : Options) (msgs : list (list Z)) (fuel : nat) :
  ReadProto o = BinaryStream -> WriteProto o = BinaryStream ->
  Forall (fun m => len m <= framePayloadMaxLen56 /\ len m <= forwarder_cap o) msgs ->
  ReadProto o' = BinaryStream -> ReadByteOrder o' = WriteByteOrder o ->
  ReadLimit o' <= 0 \/ forwarder_cap o <= ReadLimit o' ->
  exists f' wire,
    relay (S (length msgs)) (S fuel)
      (NewForwarder (Some buffer_sink)
         (Some (bytes_reader (concat (map (frame (ReadByteOrder o)) msgs)))) o) =
      Some (map len msgs, None, f') /\
    wr (ww f') = Some (mkSink wire []) /\
    wire = concat (map (frame (WriteByteOrder o)) msgs) /\
    decode (S (length msgs)) (Z.to_nat (forwarder_cap o))
      (NewReader (bytes_reader wire) o') = Some msgs.
Proof.
  intros Hrp Hwp Hall Hrp' Hbo' Hlim'.
  pose proof (forwarder_cap_pos o) as Hcp.
  rewrite NewForwarder_idle.
  destruct (relay_frames o Hrp Hwp (forwarder_cap o) fuel msgs) with
    (acc := @nil Z) (h := repeat 0 8) (hw := repeat 0 8)
    (b := repeat 0 (Z.to_nat (forwarder_cap o))) as (h' & hw' & b' & Hr).
  - eapply Forall_impl; [|exact Hall]. cbv beta. intros m [Hm Hc].
    split; [exact Hm|split; [|exact Hc]].
    unfold forwarder_cap in Hc. destruct (Z.leb_spec (ReadLimit o) 0); [left|right]; lia.
  - unfold len. rewrite repeat_length. lia.
  - reflexivity.
  - reflexivity.
  - eexists _, _. split; [exact Hr|]. split; [reflexivity|]. split; [reflexivity|].
    cbn [app]. rewrite <- Hbo'.
    apply (decode_frames o' Hrp' (Z.to_nat (forwarder_cap o)) msgs); [|reflexivity].
    eapply Forall_impl; [|exact Hall]. cbv beta. intros m [Hm Hc].
    split; [exact Hm|split; [|lia]].
    destruct Hlim'; [left|right]; lia.
Qed.

Lemma forwarder_preserves_boundaries_witness :
  exists f' wire,
    relay (S (length [[]; [104; 105]; [1; 2; 3]])) (S 0)
      (NewForwarder (Some buffer_sink)
         (Some (bytes_reader (concat (map (frame (ReadByteOrder defaultOptions))
                                        [[]; [104; 105]; [1; 2; 3]])))) defaultOptions) =
      Some (map len [[]; [104; 105]; [1; 2; 3]], None, f') /\
    wr (ww f') = Some (mkSink wire []) /\
    wire = concat (map (frame (WriteByteOrder defaultOptions)) [[]; [104; 105]; [1; 2; 3]]) /\
    decode (S (length [[]; [104; 105]; [1; 2; 3]])) (Z.to_nat (forwarder_cap defaultOptions))
      (NewReader (bytes_reader wire) defaultOptions) = Some [[]; [104; 105]; [1; 2; 3]].
Proof.
  apply (forwarder_preserves_boundaries defaultOptions defaultOptions
           [[]; [104; 105]; [1; 2; 3]] 0).
  - reflexivity.
  - reflexivity.
  - repeat constructor; vm_compute; discriminate.
  - reflexivity.
  - reflexivity.
  - left. vm_compute. discriminate.
Defined.
(** ** Messages over the read limit *)

Section OverLimit.
Variables (fr : framer) (bo : ByteOrder) (m : list Z).
Hypothesis Hbo : rbo fr = bo.
Hypothesis Hm : len m <= framePayloadMaxLen56.
Hypothesis Hover : 0 < readLimit fr < len m.

Local Abbreviation Wm := (wire_header bo (len m)).

(** The header is consumed, the payload is not. *)
Lemma readStream_over_limit more h dst :
  length h = 8%nat ->
  readStream (rstep fr (bytes_reader (frame bo m ++ more)) h 0 0) dst =
  Some (0, Some ErrTooLong,
        rstep fr (bytes_reader (m ++ more)) (copy_at h 0 Wm) (len m) (header_size (len m)),
        dst).
Proof.
  intros Hh. pose proof (len_nonneg m) as Hnn.
  assert (Hwl : len Wm = header_size (len m)) by apply wire_header_length.
  pose proof (header_size_cases (len m)) as Hc.
  destruct (header_stored bo m h Hh) as [Hl8 Hpre].
  rewrite !bytes_reader_serve. unfold frame. rewrite <- app_assoc.
  change (Wm ++ m ++ more) with (skipn 0 Wm ++ (m ++ more)).
  pose proof (readStream_header_enough fr bo (len m) h Hnn Hh 0 (m ++ more) None [] 0 dst
                ltac:(zlia) eq_refl ltac:(right; left; reflexivity)) as Hr.
  change (Z.of_nat 0) with 0 in Hr. rewrite Hr. cbn [skipn].
  apply (read_tail_toolong fr bo (len m) (copy_at h 0 Wm) Hbo ltac:(lia) Hl8 Hpre).
  exact Hover.
Qed.

(** The codec stays there: the next call fails the same way. *)
Lemma readStream_over_limit_again s h dst :
  length h = 8%nat -> firstn (Z.to_nat (header_size (len m))) h = Wm ->
  readStream (rstep fr s h (len m) (header_size (len m))) dst =
  Some (0, Some ErrTooLong, rstep fr s h (len m) (header_size (len m)), dst).
Proof.
  intros Hh Hpre. pose proof (len_nonneg m) as Hnn.
  pose proof (header_size_cases (len m)) as Hc.
  assert (Hwl : Z.of_nat (length Wm) = header_size (len m)) by apply wire_header_length.
  assert (H1 : firstn 1 h = firstn 1 Wm).
  { apply firstn_1_of_prefix with (o := Z.to_nat (header_size (len m))); [lia|].
    rewrite Hpre. symmetry. apply firstn_all2. lia. }
  rewrite (readStream_resume fr bo (len m) h Hnn) by first [lia | exact H1].
  apply (read_tail_toolong fr bo (len m) h Hbo ltac:(lia) Hh Hpre). exact Hover.
Qed.
End OverLimit.

(** X8 — The read limit in stream mode.  When the frame at the head of the
    source announces a payload longer than the reader's limit, [Read]
    returns (0, ErrTooLong) whatever the destination: the header has been
    consumed and parsed, the payload is still in the transport, and the
    destination is untouched.  The reader stays there: every later [Read]
    returns (0, ErrTooLong) again without consuming anything, so the
    oversized message is never skipped. *)
Theorem read_limit_exceeded (o : Options) (m more dst : list Z) :
  ReadProto o = BinaryStream -> len m <= framePayloadMaxLen56 ->
  0 < ReadLimit o < len m ->
  exists fr1,
    read (NewReader (bytes_reader (frame (ReadByteOrder o) m ++ more)) o) dst =
      Some (0, Some ErrTooLong, fr1, dst) /\
    rd fr1 = Some (bytes_reader (m ++ more)) /\
    offset fr1 = header_size (len m) /\ length_ fr1 = len m /\
    forall dst', read fr1 dst' = Some (0, Some ErrTooLong, fr1, dst').
Proof.
  intros Hpr Hm Hover.
  destruct (header_stored (ReadByteOrder o) m (repeat 0 8) eq_refl) as [Hl8 Hpre].
  eexists. split.
  { unfold NewReader.
    change (newFramer (Some ?s) None o)
      with (rstep (newFramer None None o) s (repeat 0 8) 0 0).
    rewrite read_stream_dispatch by assumption.
    apply (readStream_over_limit (newFramer None None o) (ReadByteOrder o) m eq_refl Hm Hover).
    reflexivity. }
  split; [reflexivity|]. split; [reflexivity|]. split; [reflexivity|].
  intros dst'. rewrite read_stream_dispatch by assumption.
  apply (readStream_over_limit_again (newFramer None None o) (ReadByteOrder o) m eq_refl Hm
           Hover); assumption.
Qed.

Lemma read_limit_exceeded_witness :
  exists fr1,
    read (NewReader (bytes_reader (frame (ReadByteOrder
                                            (mkOptions BigEndian BigEndian BinaryStream
                                               BinaryStream 2 (-1)))
                                     [97; 98; 99; 100; 101] ++ [0]))
            (mkOptions BigEndian BigEndian BinaryStream BinaryStream 2 (-1)))
      (repeat 0 8) =
      Some (0, Some ErrTooLong, fr1, repeat 0 8) /\
    rd fr1 = Some (bytes_reader ([97; 98; 99; 100; 101] ++ [0])) /\
    offset fr1 = header_size (len [97; 98; 99; 100; 101]) /\
    length_ fr1 = len [97; 98; 99; 100; 101] /\
    forall dst', read fr1 dst' = Some (0, Some ErrTooLong, fr1, dst').
Proof.
  apply (read_limit_exceeded (mkOptions BigEndian BigEndian BinaryStream BinaryStream 2 (-1))
           [97; 98; 99; 100; 101] [0] (repeat 0 8)).
  - reflexivity.
  - vm_compute. discriminate.
  - vm_compute. split; reflexivity.
Defined.
(** ** The fast paths on transports that deliver and accept everything *)

Lemma read_rstep_stream fr s h Lc o p :
  rpr fr = BinaryStream ->
  read (rstep fr s h Lc o) p = readStream (rstep fr s h Lc o) p.
Proof. intros H. unfold read. cbn [rd rstep rpr]. rewrite H. reflexivity. Qed.

Lemma write_wstep_stream fr sk h Lc o p :
  wpr fr = BinaryStream ->
  write (wstep fr sk h Lc o) p = writeStream (wstep fr sk h Lc o) p.
Proof. intros H. unfold write. cbn [wr wstep wpr]. rewrite H. reflexivity. Qed.

Lemma WriteTo_read_payload_done fuel fr b need got :
  need <= got -> WriteTo_read_payload fuel fr b need got = Some (Next (fr, b)).
Proof.
  intros H. destruct fuel; cbn [WriteTo_read_payload];
    destruct (Z.ltb_spec got need); try lia; reflexivity.
Qed.

Lemma WriteTo_write_payload_done fuel b need off total dst :
  need <= off -> WriteTo_write_payload fuel b need off total dst = Some (Next (total, dst)).
Proof.
  intros H. destruct fuel; cbn [WriteTo_write_payload];
    destruct (Z.ltb_spec off need); try lia; reflexivity.
Qed.

Section Drain.
Variables (fr : framer) (bo : ByteOrder).
Hypothesis Hpr : rpr fr = BinaryStream.
Hypothesis Hbo : rbo fr = bo.

Lemma WriteTo_stream_eof fuel h b total dst :
  length h = 8%nat ->
  WriteTo_stream (S fuel) (rstep fr [] h 0 0) b total dst =
  Some (total, None, set_rbuf (rstep fr [] h 0 0) (Some b), dst).
Proof.
  intros Hh. cbn [WriteTo_stream].
  rewrite read_rstep_stream, readStream_eof by assumption. reflexivity.
Qed.

(** One message: its payload goes to the sink as it is. *)
Lemma WriteTo_stream_message fuel m more h b total acc :
  len m <= framePayloadMaxLen56 -> readLimit fr <= 0 \/ len m <= readLimit fr ->
  len m <= len b -> length h = 8%nat ->
  exists h' b',
    length h' = 8%nat /\ length b' = length b /\
    WriteTo_stream (S fuel) (rstep fr (bytes_reader (frame bo m ++ more)) h 0 0) b total
      (mkSink acc []) =
    WriteTo_stream fuel (rstep fr (bytes_reader more) h' 0 0) b' (total + len m)
      (mkSink (acc ++ m) []).
Proof.
  intros Hm Hlim Hb Hh. pose proof (len_nonneg m) as Hnn.
  destruct (header_stored bo m h Hh) as [Hl8 _].
  cbn [WriteTo_stream]. rewrite read_rstep_stream by assumption.
  destruct (Z.eq_dec (len m) 0) as [Hz|Hz].
  - assert (m = []) as -> by (destruct m; [reflexivity|cbn in Hz; lia]).
    rewrite (readStream_frame fr bo [] more h Hbo Hm Hlim Hh []) by (cbn; lia).
    cbn [length_ rstep Z.eqb]. rewrite app_nil_r.
    replace (total + len []) with total by (cbn; lia).
    exists (copy_at h 0 (wire_header bo (len []))), b. auto.
  - rewrite (readStream_frame_short fr bo m more h Hbo Hm Hlim Hh []) by (cbn; lia).
    cbn [error_eqb length_ rstep].
    destruct (Z.gtb_spec (len m) (len b)) as [Hgt|_]; [lia|].
    destruct (Z.eqb_spec (len m) 0) as [|_]; [lia|].
    cbn [WriteTo_read_payload].
    destruct (Z.ltb_spec 0 (len m)) as [_|]; [|lia].
    rewrite read_rstep_stream by assumption.
    assert (Hfl : length (slice b (Z.to_nat 0) (Z.to_nat (len m))) = length m)
      by (rewrite slice_length; zlia).
    rewrite (readStream_payload fr bo m more h Hbo Hm Hlim Hh)
      by (unfold len in *; rewrite slice_length; lia).
    rewrite (copy_at_whole _ m) by (symmetry; exact Hfl).
    rewrite WriteTo_read_payload_done by lia.
    change (Z.to_nat 0) with 0%nat.
    cbn [WriteTo_write_payload].
    destruct (Z.ltb_spec 0 (len m)) as [_|]; [|lia].
    assert (Hsl : slice (copy_at b 0 m) 0 (Z.to_nat (len m)) = m).
    { unfold slice. cbn [skipn]. rewrite Nat.sub_0_r.
      replace (Z.to_nat (len m)) with (length m) by zlia.
      apply firstn_copy_at_0. zlia. }
    change (Z.to_nat 0) with 0%nat.
    rewrite Hsl. unfold wr_Write. cbn [budgets accepted].
    destruct (Z.gtb_spec (len m) 0) as [_|]; [|lia].
    destruct (Z.eqb_spec (len m) 0) as [|_]; [lia|].
    rewrite WriteTo_write_payload_done by lia.
    exists (copy_at h 0 (wire_header bo (len m))), (copy_at b 0 m).
    split; [exact Hl8|]. split; [apply copy_at_length; zlia|reflexivity].
Qed.

(** A whole stream of messages. *)
Lemma WriteTo_stream_frames cap msgs :
  Forall (fun m => len m <= framePayloadMaxLen56 /\
                   (readLimit fr <= 0 \/ len m <= readLimit fr) /\ len m <= cap) msgs ->
  forall fuel h b total acc,
    (length msgs < fuel)%nat -> len b = cap -> length h = 8%nat ->
    exists fr',
      WriteTo_stream fuel (rstep fr (bytes_reader (concat (map (frame bo) msgs))) h 0 0)
        b total (mkSink acc []) =
      Some (total + total_len msgs, None, fr', mkSink (acc ++ concat msgs) []) /\
      rd fr' = Some [] /\ offset fr' = 0 /\ length_ fr' = 0.
Proof.
  induction 1 as [|m msgs (Hm & Hlim & Hcap) _ IH]; intros fuel h b total acc Hf Hb Hh.
  - destruct fuel as [|fuel]; [cbn in Hf; lia|].
    cbn [map concat bytes_reader total_len fold_right].
    rewrite WriteTo_stream_eof by assumption.
    rewrite app_nil_r, Z.add_0_r. eexists. repeat split.
  - destruct fuel as [|fuel]; [cbn in Hf; lia|].
    cbn [map concat].
    destruct (WriteTo_stream_message fuel m (concat (map (frame bo) msgs)) h b total acc
                Hm Hlim ltac:(lia) Hh) as (h1 & b1 & Hh1 & Hb1 & ->).
    assert (Hb1' : len b1 = cap) by (unfold len in Hb |- *; lia).
    assert (Hf' : (length msgs < fuel)%nat) by (cbn [length] in Hf; lia).
    destruct (IH fuel h1 b1 (total + len m) (acc ++ m) Hf' Hb1' Hh1)
      as (fr' & Hr & Hrest).
    exists fr'. rewrite Hr. split; [|exact Hrest].
    cbn [total_len fold_right concat]. rewrite <- app_assoc.
    fold (total_len msgs).
    replace (total + (len m + total_len msgs)) with (total + len m + total_len msgs) by lia.
    reflexivity.
Qed.
End Drain.

Lemma total_len_app a b : total_len (a ++ b) = total_len a + total_len b.
Proof.
  unfold total_len. induction a as [|m a IH]; cbn [app fold_right]; [reflexivity|].
  rewrite IH. lia.
Qed.

(** One complete write on an idle codec whose sink accepts everything, in
    either mode. *)
Lemma write_idle fr acc hw p :
  len p <= framePayloadMaxLen56 -> length hw = 8%nat ->
  exists hw',
    length hw' = 8%nat /\
    write (wstep fr (mkSink acc []) hw 0 0) p =
    Some (len p, None, wstep fr (mkSink (acc ++ on_wire (wpr fr) (wbo fr) p) []) hw' 0 0).
Proof.
  intros Hp Hl. unfold write, on_wire. cbn [wr wstep wpr].
  destruct (preserveBoundary (wpr fr)).
  - exists hw. split; [exact Hl|]. apply writePacket_all. exact Hp.
  - exists (copy_at hw 0 (wire_header (wbo fr) (len p))).
    split; [apply (header_stored (wbo fr) p hw Hl)|].
    pose proof (header_size_cases (len p)). pose proof (len_nonneg p).
    rewrite (writeStream_all fr p hw (len p) (header_size (len p))
               (wire_header (wbo fr) (len p)) Hp Hl eq_refl eq_refl eq_refl acc 0 0)
      by first [lia | congruence].
    replace (len p - Z.max 0 (0 - header_size (len p))) with (len p) by lia.
    reflexivity.
Qed.

Section Fill.
Variable fr : framer.

Lemma ReadFrom_loop_eof fuel sk hw b total :
  exists fr',
    ReadFrom_loop (S fuel) (wstep fr sk hw 0 0) b total [] = Some (total, None, fr', []) /\
    wr fr' = Some sk /\ offset fr' = 0 /\ length_ fr' = 0.
Proof.
  cbn [ReadFrom_loop rd_Read]. change (len [] >? 0) with false. cbv iota.
  cbn [error_eqb]. eexists. repeat split.
Qed.

Lemma ReadFrom_loop_chunk fuel acc hw b total d src :
  d <> [] -> (length d <= length b)%nat -> len d <= framePayloadMaxLen56 ->
  length hw = 8%nat ->
  exists hw' b',
    length hw' = 8%nat /\ length b' = length b /\
    ReadFrom_loop (S fuel) (wstep fr (mkSink acc []) hw 0 0) b total ((d, None) :: src) =
    ReadFrom_loop fuel (wstep fr (mkSink (acc ++ on_wire (wpr fr) (wbo fr) d) []) hw' 0 0)
      b' (total + len d) src.
Proof.
  intros Hd Hb Hm Hh.
  assert (Hpos : 0 < len d) by (destruct d; [congruence|zlia]).
  destruct (write_idle fr acc hw d Hm Hh) as (hw' & Hh' & Hw).
  exists hw', (copy_at b 0 d). split; [exact Hh'|].
  split; [apply copy_at_length; lia|].
  cbn [ReadFrom_loop rd_Read].
  destruct (Nat.leb_spec (length d) (length b)) as [_|]; [|lia].
  destruct (Z.gtb_spec (len d) 0) as [_|]; [|lia].
  replace (Z.to_nat (len d)) with (length d) by zlia.
  rewrite firstn_copy_at_0 by lia. rewrite Hw.
  destruct (Z.gtb_spec (len d) 0) as [_|]; [|lia].
  rewrite Z.eqb_refl. reflexivity.
Qed.

Lemma ReadFrom_loop_chunks cap ds :
  Forall (fun d => d <> [] /\ len d <= cap /\ len d <= framePayloadMaxLen56) ds ->
  forall fuel acc hw b total,
    (length ds < fuel)%nat -> len b = cap -> length hw = 8%nat ->
    exists fr',
      ReadFrom_loop fuel (wstep fr (mkSink acc []) hw 0 0) b total (chunk_source ds) =
      Some (total + total_len ds, None, fr', []) /\
      wr fr' = Some (mkSink (acc ++ concat (map (on_wire (wpr fr) (wbo fr)) ds)) []) /\
      offset fr' = 0 /\ length_ fr' = 0.
Proof.
  induction 1 as [|d ds (Hd & Hcap & Hm) _ IH]; intros fuel acc hw b total Hf Hb Hh.
  - destruct fuel as [|fuel]; [cbn in Hf; lia|].
    destruct (ReadFrom_loop_eof fuel (mkSink acc []) hw b total) as (fr' & Hr & Hw & Ho).
    exists fr'. cbn [chunk_source map concat total_len fold_right].
    rewrite app_nil_r, Z.add_0_r. split; [exact Hr|auto].
  - destruct fuel as [|fuel]; [cbn in Hf; lia|].
    cbn [chunk_source map]. fold (chunk_source ds).
    destruct (ReadFrom_loop_chunk fuel acc hw b total d (chunk_source ds) Hd
                ltac:(unfold len in *; lia) Hm Hh) as (hw1 & b1 & Hh1 & Hb1 & ->).
    assert (Hb1' : len b1 = cap) by (unfold len in Hb |- *; lia).
    assert (Hf' : (length ds < fuel)%nat) by (cbn [length] in Hf; lia).
    destruct (IH fuel (acc ++ on_wire (wpr fr) (wbo fr) d) hw1 b1 (total + len d)
                Hf' Hb1' Hh1) as (fr' & Hr & Hw & Ho).
    exists fr'. rewrite Hr, Hw. cbn [map concat total_len fold_right].
    fold (total_len ds). rewrite <- app_assoc.
    replace (total + (len d + total_len ds)) with (total + len d + total_len ds) by lia.
    auto.
Qed.
End Fill.

(** X2 — [Writer.ReadFrom] over a source that delivers the non-empty chunks
    [ds] (each at most the 32 KiB of the scratch buffer) and then end of
    stream, with a sink that accepts every write: the call returns the sum of
    the chunk lengths and nil, and every chunk reaches the sink as one
    message, that is as one frame in stream mode and as it is in packet
    mode. *)
Theorem ReadFrom_frames_chunks (o : Options) (ds : list (list Z)) (acc : list Z) (fuel : nat) :
  Forall (fun d => d <> [] /\ len d <= 32 * 1024) ds ->
  (length ds < fuel)%nat ->
  exists fr',
    ReadFrom fuel (NewWriter (mkSink acc []) o) (chunk_source ds) =
    Some (total_len ds, None, fr', []) /\
    wr fr' = Some (mkSink (acc ++ concat (map (on_wire (WriteProto o) (WriteByteOrder o)) ds))
                     []) /\
    offset fr' = 0.
Proof.
  intros Hall Hf. unfold ReadFrom, NewWriter. cbn [wbuf newFramer].
  set (b := repeat 0 (32 * 1024)).
  set (frb := set_wbuf (newFramer None None o) (Some b)).
  change (set_wbuf (newFramer None (Some ?s) o) (Some b))
    with (wstep frb s (repeat 0 8) 0 0).
  destruct (ReadFrom_loop_chunks frb (32 * 1024) ds) with
    (fuel := fuel) (acc := acc) (hw := repeat 0 8) (b := b) (total := 0)
    as (fr' & Hr & Hw & Ho & _).
  - eapply Forall_impl; [|exact Hall]. cbv beta. intros d (Hd & Hc).
    split; [exact Hd|]. split; [exact Hc|]. unfold framePayloadMaxLen56. lia.
  - exact Hf.
  - unfold b, len. rewrite repeat_length. reflexivity.
  - reflexivity.
  - exists fr'. rewrite Hr. auto.
Qed.

Lemma ReadFrom_frames_chunks_witness :
  exists fr',
    ReadFrom 3 (NewWriter (mkSink [] []) defaultOptions) (chunk_source [[1; 2]; [3]]) =
    Some (total_len [[1; 2]; [3]], None, fr', []) /\
    wr fr' = Some (mkSink ([] ++ concat (map (on_wire (WriteProto defaultOptions)
                                                (WriteByteOrder defaultOptions))
                                           [[1; 2]; [3]])) []) /\
    offset fr' = 0.
Proof.
  apply (ReadFrom_frames_chunks defaultOptions [[1; 2]; [3]] [] 3).
  - repeat constructor; try discriminate; vm_compute; discriminate.
  - cbn [length]. lia.
Defined.

(** X3 — [Writer.ReadFrom] composed with the reading side.  The wire that
    [ReadFrom] produces in stream mode from the chunks [ds] is read back by a
    stream reader of the same byte order message by message as exactly [ds],
    and [Reader.WriteTo] over the same wire hands the destination the
    original bytes [concat ds]. *)
Theorem ReadFrom_then_drain (o o' : Options) (ds : list (list Z)) (acc : list Z)
  (fuel : nat) :
  WriteProto o = BinaryStream -> ReadProto o' = BinaryStream ->
  ReadByteOrder o' = WriteByteOrder o ->
  ReadLimit o' <= 0 \/ 32 * 1024 <= ReadLimit o' ->
  Forall (fun d => d <> [] /\ len d <= 32 * 1024) ds ->
  (length ds < fuel)%nat ->
  exists fw wire fr',
    ReadFrom fuel (NewWriter buffer_sink o) (chunk_source ds) =
      Some (total_len ds, None, fw, []) /\
    wr fw = Some (mkSink wire []) /\
    decode (S (length ds)) (32 * 1024) (NewReader (bytes_reader wire) o') = Some ds /\
    WriteTo fuel (NewReader (bytes_reader wire) o') (mkSink acc []) =
      Some (total_len ds, None, fr', mkSink (acc ++ concat ds) []).
Proof.
  intros Hwp Hrp Hbo Hlim Hall Hf.
  (* the writer *)
  set (bw := repeat 0 (32 * 1024)).
  set (frw := set_wbuf (newFramer None None o) (Some bw)).
  destruct (ReadFrom_loop_chunks frw (32 * 1024) ds) with
    (fuel := fuel) (acc := @nil Z) (hw := repeat 0 8) (b := bw) (total := 0)
    as (fw & Hr & Hw & _).
  { eapply Forall_impl; [|exact Hall]. cbv beta. intros d (Hd & Hc).
    split; [exact Hd|]. split; [exact Hc|]. unfold framePayloadMaxLen56. lia. }
  { exact Hf. }
  { unfold bw, len. rewrite repeat_length. reflexivity. }
  { reflexivity. }
  change (wpr frw) with (WriteProto o) in Hw. change (wbo frw) with (WriteByteOrder o) in Hw.
  assert (Hmap : map (on_wire (WriteProto o) (WriteByteOrder o)) ds =
                 map (frame (ReadByteOrder o')) ds).
  { apply map_ext. intros d. unfold on_wire. rewrite Hwp, Hbo. reflexivity. }
  rewrite Hmap in Hw. cbn [app] in Hw.
  (* the reader *)
  assert (Hmsgs : forall cap, 32 * 1024 <= cap ->
            Forall (fun m => len m <= framePayloadMaxLen56 /\
                             (ReadLimit o' <= 0 \/ len m <= ReadLimit o') /\ len m <= cap) ds).
  { intros cap Hcap. eapply Forall_impl; [|exact Hall]. cbv beta. intros d (Hd & Hc).
    split; [unfold framePayloadMaxLen56; lia|].
    split; [destruct Hlim; [left|right]; lia|lia]. }
  set (br := repeat 0 (Z.to_nat (forwarder_cap o'))).
  set (frr := set_rbuf (newFramer None None o') (Some br)).
  assert (Hcap : 32 * 1024 <= forwarder_cap o').
  { unfold forwarder_cap. destruct (Z.leb_spec (ReadLimit o') 0); lia. }
  destruct (WriteTo_stream_frames frr (ReadByteOrder o') Hrp eq_refl (forwarder_cap o') ds
              (Hmsgs _ Hcap)) with
    (fuel := fuel) (h := repeat 0 8) (b := br) (total := 0) (acc := acc)
    as (fr' & Hd & _).
  { exact Hf. }
  { unfold br, len. rewrite repeat_length. lia. }
  { reflexivity. }
  exists fw, (concat (map (frame (ReadByteOrder o')) ds)), fr'.
  split; [exact Hr|]. split; [exact Hw|]. split.
  - apply (decode_frames o' Hrp (32 * 1024) ds); [|reflexivity].
    eapply Forall_impl; [|exact (Hmsgs (32 * 1024) ltac:(lia))]. cbv beta.
    intros d (H1 & H2 & H3). split; [exact H1|]. split; [exact H2|lia].
  - unfold WriteTo, NewReader. cbn [rpr rbuf newFramer readLimit]. rewrite Hrp.
    cbn [preserveBoundary]. exact Hd.
Qed.

Lemma ReadFrom_then_drain_witness :
  exists fw wire fr',
    ReadFrom 3 (NewWriter buffer_sink defaultOptions) (chunk_source [[1; 2]; [3]]) =
      Some (total_len [[1; 2]; [3]], None, fw, []) /\
    wr fw = Some (mkSink wire []) /\
    decode (S (length [[1; 2]; [3]])) (32 * 1024) (NewReader (bytes_reader wire) defaultOptions) =
      Some [[1; 2]; [3]] /\
    WriteTo 3 (NewReader (bytes_reader wire) defaultOptions) (mkSink [7] []) =
      Some (total_len [[1; 2]; [3]], None, fr', mkSink ([7] ++ concat [[1; 2]; [3]]) []).
Proof.
  apply (ReadFrom_then_drain defaultOptions defaultOptions [[1; 2]; [3]] [7] 3).
  - reflexivity.
  - reflexivity.
  - reflexivity.
  - left. vm_compute. discriminate.
  - repeat constructor; try discriminate; vm_compute; discriminate.
  - cbn [length]. lia.
Defined.


(** ** Packet mode *)

Lemma read_rstep_packet fr s h Lc o p :
  preserveBoundary (rpr fr) = true ->
  read (rstep fr s h Lc o) p = readPacket (rstep fr s h Lc o) p.
Proof. intros H. unfold read. cbn [rd rstep rpr]. rewrite H. reflexivity. Qed.

(** One transport read that delivers the whole chunk [d] with its error. *)
Lemma readPacket_chunk fr d e tl h Lc off p :
  (0 < length d)%nat -> (length d <= length p)%nat ->
  readLimit fr <= 0 \/ len d <= readLimit fr ->
  readPacket (rstep fr ((d, e) :: tl) h Lc off) p =
  Some (len d, e, rstep fr tl h Lc off, copy_at p 0 d).
Proof.
  intros Hd Hp Hlim. unfold readPacket. rewrite readOnce_rstep.
  replace ((d, e) :: tl) with (serve d e tl)
    by (destruct d; [cbn in Hd; lia|reflexivity]).
  rewrite readOnce_serve_all by assumption. fr_simpl.
  destruct (Z.gtb_spec (readLimit fr) 0); cbn [andb]; [|reflexivity].
  destruct (Z.gtb_spec (len d) (readLimit fr)); [lia|reflexivity].
Qed.

Lemma readPacket_eof fr h Lc off p :
  readPacket (rstep fr [] h Lc off) p = Some (0, Some EOF, rstep fr [] h Lc off, p).
Proof.
  unfold readPacket. rewrite readOnce_rstep. cbn [readOnce_loop]. fr_simpl.
  change (len []) with 0. rewrite copy_at_nil.
  destruct (Z.gtb_spec (readLimit fr) 0); cbn [andb]; [|reflexivity].
  destruct (Z.gtb_spec 0 (readLimit fr)); [lia|reflexivity].
Qed.

Lemma WriteTo_packet_drain_done fuel b n off total dst :
  n <= off -> WriteTo_packet_drain fuel b n off total dst = Some (Next (total, dst)).
Proof.
  intros H. destruct fuel; cbn [WriteTo_packet_drain];
    destruct (Z.ltb_spec off n); try lia; reflexivity.
Qed.

Section PacketDrain.
Variable fr : framer.
Hypothesis Hpr : preserveBoundary (rpr fr) = true.

Lemma WriteTo_packet_chunks cap ds :
  Forall (fun d => d <> [] /\ len d <= cap /\
                   (readLimit fr <= 0 \/ len d <= readLimit fr)) ds ->
  forall fuel h Lc off b total acc,
    (length ds < fuel)%nat -> len b = cap ->
    WriteTo_packet fuel (rstep fr (chunk_source ds) h Lc off) b total (mkSink acc []) =
    Some (total + total_len ds, None, rstep fr [] h Lc off, mkSink (acc ++ concat ds) []).
Proof.
  induction 1 as [|d ds (Hd & Hcap & Hlim) _ IH];
    intros fuel h Lc off b total acc Hf Hb.
  - destruct fuel as [|fuel]; [cbn in Hf; lia|].
    cbn [chunk_source map concat total_len fold_right WriteTo_packet].
    rewrite read_rstep_packet, readPacket_eof by assumption.
    change (0 >? 0) with false. cbv iota. cbn [error_eqb].
    rewrite app_nil_r, Z.add_0_r. reflexivity.
  - destruct fuel as [|fuel]; [cbn in Hf; lia|].
    assert (Hpos : 0 < len d) by (destruct d; [congruence|zlia]).
    cbn [chunk_source map WriteTo_packet]. fold (chunk_source ds).
    rewrite read_rstep_packet by assumption.
    rewrite readPacket_chunk by (try assumption; unfold len in *; lia).
    destruct (Z.gtb_spec (len d) 0) as [_|]; [|lia].
    cbn [WriteTo_packet_drain].
    destruct (Z.ltb_spec 0 (len d)) as [_|]; [|lia].
    assert (Hsl : slice (copy_at b 0 d) (Z.to_nat 0) (Z.to_nat (len d)) = d).
    { unfold slice. change (Z.to_nat 0) with 0%nat. cbn [skipn]. rewrite Nat.sub_0_r.
      replace (Z.to_nat (len d)) with (length d) by zlia.
      apply firstn_copy_at_0. unfold len in *. lia. }
    rewrite Hsl. unfold wr_Write. cbn [budgets accepted].
    destruct (Z.gtb_spec (len d) 0) as [_|]; [|lia].
    destruct (Z.eqb_spec (len d) 0) as [|_]; [lia|].
    rewrite WriteTo_packet_drain_done by lia.
    assert (Hb1 : len (copy_at b 0 d) = cap)
      by (unfold len in Hb, Hcap |- *; rewrite copy_at_length; lia).
    assert (Hf' : (length ds < fuel)%nat) by (cbn [length] in Hf; lia).
    rewrite (IH fuel h Lc off (copy_at b 0 d) (total + len d) (acc ++ d) Hf' Hb1).
    cbn [concat total_len fold_right]. fold (total_len ds). rewrite <- app_assoc.
    replace (total + (len d + total_len ds)) with (total + len d + total_len ds) by lia.
    reflexivity.
Qed.
End PacketDrain.

(** X4 — [Reader.WriteTo] in packet mode is a pass-through copy: over a
    source that delivers the non-empty packets [ds] (each at most the 32 KiB
    of the copy buffer and within the read limit) and then end of stream,
    with a destination that accepts every write, it returns the number of
    bytes copied and nil, and the destination holds the packets' bytes in
    order. *)
Theorem WriteTo_packet_passthrough (o : Options) (ds : list (list Z)) (acc : list Z)
  (fuel : nat) :
  preserveBoundary (ReadProto o) = true ->
  Forall (fun d => d <> [] /\ len d <= 32 * 1024 /\
                   (ReadLimit o <= 0 \/ len d <= ReadLimit o)) ds ->
  (length ds < fuel)%nat ->
  exists fr',
    WriteTo fuel (NewReader (chunk_source ds) o) (mkSink acc []) =
    Some (total_len ds, None, fr', mkSink (acc ++ concat ds) []) /\
    rd fr' = Some [].
Proof.
  intros Hpr Hall Hf. unfold WriteTo, NewReader. cbn [rpr newFramer]. rewrite Hpr.
  change (newFramer (Some ?s) None o)
    with (rstep (newFramer None None o) s (repeat 0 8) 0 0).
  rewrite (WriteTo_packet_chunks (newFramer None None o) Hpr (32 * 1024) ds Hall)
    by (try assumption; unfold len; rewrite repeat_length; lia).
  eexists. split; reflexivity.
Qed.

Lemma WriteTo_packet_passthrough_witness :
  exists fr',
    WriteTo 3 (NewReader (chunk_source [[1; 2]; [3]])
                 (mkOptions BigEndian BigEndian Datagram Datagram 0 (-1)))
      (mkSink [7] []) =
    Some (total_len [[1; 2]; [3]], None, fr', mkSink ([7] ++ concat [[1; 2]; [3]]) []) /\
    rd fr' = Some [].
Proof.
  apply (WriteTo_packet_passthrough (mkOptions BigEndian BigEndian Datagram Datagram 0 (-1))
           [[1; 2]; [3]] [7] 3).
  - reflexivity.
  - repeat constructor; try discriminate; try (vm_compute; discriminate);
      left; vm_compute; discriminate.
  - cbn [length]. lia.
Defined.

(** ** [WriteTo] on streams that end badly *)

Section DrainTail.
Variables (fr : framer) (bo : ByteOrder).
Hypothesis Hpr : rpr fr = BinaryStream.
Hypothesis Hbo : rbo fr = bo.

(** The complete messages in front of whatever follows. *)
Lemma WriteTo_stream_prefix cap msgs rest :
  Forall (fun m => len m <= framePayloadMaxLen56 /\
                   (readLimit fr <= 0 \/ len m <= readLimit fr) /\ len m <= cap) msgs ->
  forall fuel h b total acc,
    len b = cap -> length h = 8%nat ->
    exists h' b',
      length h' = 8%nat /\ len b' = cap /\
      WriteTo_stream (length msgs + fuel)
        (rstep fr (bytes_reader (concat (map (frame bo) msgs) ++ rest)) h 0 0)
        b total (mkSink acc []) =
      WriteTo_stream fuel (rstep fr (bytes_reader rest) h' 0 0) b'
        (total + total_len msgs) (mkSink (acc ++ concat msgs) []).
Proof.
  induction 1 as [|m msgs (Hm & Hlim & Hcap) _ IH]; intros fuel h b total acc Hb Hh.
  - exists h, b. cbn [map concat total_len fold_right length Nat.add app].
    rewrite app_nil_r, Z.add_0_r. auto.
  - cbn [map concat length Nat.add]. rewrite <- app_assoc.
    destruct (WriteTo_stream_message fr bo Hpr Hbo (length msgs + fuel) m
                (concat (map (frame bo) msgs) ++ rest) h b total acc
                Hm Hlim ltac:(lia) Hh) as (h1 & b1 & Hh1 & Hb1 & ->).
    assert (Hb1' : len b1 = cap) by (unfold len in Hb |- *; lia).
    destruct (IH fuel h1 b1 (total + len m) (acc ++ m) Hb1' Hh1)
      as (h2 & b2 & Hh2 & Hb2 & ->).
    exists h2, b2. split; [exact Hh2|]. split; [exact Hb2|].
    cbn [total_len fold_right concat]. fold (total_len msgs). rewrite <- app_assoc.
    replace (total + (len m + total_len msgs)) with (total + len m + total_len msgs) by lia.
    reflexivity.
Qed.

(** A message that does not fit the scratch buffer. *)
Lemma WriteTo_stream_toolong fuel m more h b total dst :
  len m <= framePayloadMaxLen56 -> length h = 8%nat -> len b < len m ->
  readLimit fr <= 0 \/ 0 < readLimit fr < len m ->
  exists fr',
    WriteTo_stream (S fuel) (rstep fr (bytes_reader (frame bo m ++ more)) h 0 0) b total dst =
    Some (total, Some ErrTooLong, fr', dst) /\
    rd fr' = Some (bytes_reader (m ++ more)).
Proof.
  intros Hm Hh Hb Hlim. cbn [WriteTo_stream].
  rewrite read_rstep_stream by assumption.
  destruct Hlim as [Hno|Hover].
  - rewrite (readStream_frame_short fr bo m more h Hbo Hm (or_introl Hno) Hh [])
      by (pose proof (len_nonneg b); cbn; lia).
    cbn [error_eqb length_ rstep].
    destruct (Z.gtb_spec (len m) (len b)) as [_|]; [|lia].
    eexists. split; reflexivity.
  - rewrite (readStream_over_limit fr bo m Hbo Hm Hover more h []) by assumption.
    cbn [error_eqb]. eexists. split; reflexivity.
Qed.

(** The stream ends inside a frame. *)
Lemma WriteTo_stream_truncated fuel m k h b total dst :
  len m <= framePayloadMaxLen56 -> readLimit fr <= 0 \/ len m <= readLimit fr ->
  len m <= len b -> length h = 8%nat ->
  (0 < k < length (frame bo m))%nat ->
  exists fr',
    WriteTo_stream (S fuel) (rstep fr (bytes_reader (firstn k (frame bo m))) h 0 0) b total dst =
    Some (total, Some ErrUnexpectedEOF, fr', dst) /\
    rd fr' = Some [] /\ offset fr' = Z.of_nat k.
Proof.
  intros Hm Hlim Hb Hh Hk. unfold frame in *. rewrite length_app in Hk.
  set (W := wire_header bo (len m)) in *.
  pose proof (len_nonneg m) as Hnn.
  assert (Hwl : Z.of_nat (length W) = header_size (len m)) by apply wire_header_length.
  pose proof (header_size_cases (len m)) as Hcs.
  cbn [WriteTo_stream]. rewrite read_rstep_stream by assumption.
  rewrite bytes_reader_serve.
  destruct (Nat.lt_ge_cases k (length W)) as [Hlt|Hge].
  - replace (firstn k (W ++ m)) with (slice W 0 k)
      by (rewrite <- slice_0, slice_app_l by lia; reflexivity).
    pose proof (readStream_header_short fr bo (len m) h Hnn Hh 0 k [] EOF [] 0 []
                  ltac:(lia) Hlt eq_refl (SigTail_nil _)) as Hr.
    change (Z.of_nat 0) with 0 in Hr. fold W in Hr. rewrite Hr. clear Hr.
    replace (k =? 0)%nat with false by (symmetry; apply Nat.eqb_neq; lia).
    cbn [eof_as error_eqb]. eexists. split; [reflexivity|]. split; reflexivity.
  - assert (Hpos : 0 < len m) by (unfold len; lia).
    destruct (header_stored bo m h Hh) as [Hl8 Hst]. fold W in Hl8, Hst.
    set (a := (k - length W)%nat).
    replace (firstn k (W ++ m)) with (skipn 0 W ++ firstn a m)
      by (rewrite firstn_app, (firstn_all2 (n := k) W) by lia; reflexivity).
    pose proof (readStream_header_enough fr bo (len m) h Hnn Hh 0 (firstn a m) None [] 0 []
                  ltac:(fold W; lia) eq_refl ltac:(right; left; reflexivity)) as Hr0.
    change (Z.of_nat 0) with 0 in Hr0. fold W in Hr0. rewrite Hr0. clear Hr0.
    cbn [skipn].
    rewrite (read_tail_shortbuf fr bo (len m) (copy_at h 0 W) Hbo ltac:(lia) Hl8 Hst)
      by first [assumption | (cbn; lia)].
    cbn [error_eqb length_ rstep].
    destruct (Z.gtb_spec (len m) (len b)) as [|_]; [lia|].
    destruct (Z.eqb_spec (len m) 0) as [|_]; [lia|].
    cbn [WriteTo_read_payload].
    destruct (Z.ltb_spec 0 (len m)) as [_|]; [|lia].
    rewrite read_rstep_stream by assumption.
    pose proof (readStream_signal fr bo m (copy_at h 0 W) W (len m) (length W)
                  (slice b (Z.to_nat 0) (Z.to_nat (len m)))
                  Hbo Hm Hlim ltac:(unfold len in *; rewrite slice_length; lia) eq_refl Hl8
                  ltac:(rewrite Nat.min_id, firstn_all;
                        replace (length W) with (Z.to_nat (header_size (len m))) by lia;
                        exact Hst)
                  ltac:(reflexivity) k [] EOF [] Hge
                  ltac:(rewrite length_app; lia) (SigTail_nil _)) as Hr1.
    rewrite Hwl in Hr1.
    rewrite slice_app_r, Nat.sub_diag, slice_0 in Hr1 by lia. fold a in Hr1.
    change (serve (firstn a m) None []) with (serve (firstn a m) None []).
    rewrite Hr1. clear Hr1.
    replace (k =? 0)%nat with false by (symmetry; apply Nat.eqb_neq; lia).
    cbn [eof_as error_eqb orb].
    eexists. split; [reflexivity|]. split; reflexivity.
Qed.
End DrainTail.

Lemma stream_capacity o m :
  len m <= forwarder_cap o -> ReadLimit o <= 0 \/ len m <= ReadLimit o.
Proof.
  unfold forwarder_cap. destruct (Z.leb_spec (ReadLimit o) 0); [left|right]; lia.
Qed.

Lemma over_capacity o m :
  forwarder_cap o < len m -> ReadLimit o <= 0 \/ 0 < ReadLimit o < len m.
Proof.
  unfold forwarder_cap. destruct (Z.leb_spec (ReadLimit o) 0); [left|right]; lia.
Qed.

(** X9 — [Reader.WriteTo] in stream mode meets a message longer than its
    scratch capacity (the read limit, or 64 KiB without one) after the
    complete messages [msgs]: it delivers the payloads of [msgs], then
    returns their total with ErrTooLong; the header of the long message has
    been consumed and its payload is still in the transport. *)
Theorem WriteTo_message_too_long (o : Options) (msgs : list (list Z)) (m more acc : list Z)
  (fuel : nat) :
  ReadProto o = BinaryStream ->
  Forall (fun m => len m <= framePayloadMaxLen56 /\ len m <= forwarder_cap o) msgs ->
  len m <= framePayloadMaxLen56 -> forwarder_cap o < len m ->
  (length msgs < fuel)%nat ->
  exists fr',
    WriteTo fuel
      (NewReader (bytes_reader (concat (map (frame (ReadByteOrder o)) msgs) ++
                                frame (ReadByteOrder o) m ++ more)) o)
      (mkSink acc []) =
    Some (total_len msgs, Some ErrTooLong, fr', mkSink (acc ++ concat msgs) []) /\
    rd fr' = Some (bytes_reader (m ++ more)).
Proof.
  intros Hpr Hall Hm Hover Hf.
  pose proof (forwarder_cap_pos o) as Hcp.
  unfold WriteTo, NewReader. cbn [rpr rbuf newFramer readLimit]. rewrite Hpr.
  cbn [preserveBoundary]. fold (forwarder_cap o).
  set (b := repeat 0 (Z.to_nat (forwarder_cap o))).
  set (frb := set_rbuf (newFramer None None o) (Some b)).
  change (set_rbuf (newFramer (Some ?s) None o) (Some b))
    with (rstep frb s (repeat 0 8) 0 0).
  replace fuel with (length msgs + S (fuel - length msgs - 1))%nat by lia.
  destruct (WriteTo_stream_prefix frb (ReadByteOrder o) Hpr eq_refl (forwarder_cap o) msgs
              (frame (ReadByteOrder o) m ++ more)) with
    (fuel := S (fuel - length msgs - 1)) (h := repeat 0 8) (b := b) (total := 0) (acc := acc)
    as (h1 & b1 & Hh1 & Hb1 & ->).
  - eapply Forall_impl; [|exact Hall]. cbv beta. intros x [Hx Hc].
    split; [exact Hx|split; [exact (stream_capacity o x Hc)|exact Hc]].
  - unfold b, len. rewrite repeat_length. lia.
  - reflexivity.
  - destruct (WriteTo_stream_toolong frb (ReadByteOrder o) Hpr eq_refl (fuel - length msgs - 1)
                m more h1 b1 (0 + total_len msgs) (mkSink (acc ++ concat msgs) []) Hm Hh1
                ltac:(lia) (over_capacity o m Hover)) as (fr' & Hr & Hrd).
    exists fr'. rewrite Hr. auto.
Qed.

Lemma WriteTo_message_too_long_witness :
  exists fr',
    WriteTo 2
      (NewReader (bytes_reader
                    (concat (map (frame (ReadByteOrder
                                           (mkOptions BigEndian BigEndian BinaryStream
                                              BinaryStream 2 (-1)))) [[1; 2]]) ++
                     frame (ReadByteOrder (mkOptions BigEndian BigEndian BinaryStream
                                             BinaryStream 2 (-1))) [3; 4; 5] ++ [9]))
         (mkOptions BigEndian BigEndian BinaryStream BinaryStream 2 (-1)))
      (mkSink [] []) =
    Some (total_len [[1; 2]], Some ErrTooLong, fr', mkSink ([] ++ concat [[1; 2]]) []) /\
    rd fr' = Some (bytes_reader ([3; 4; 5] ++ [9])).
Proof.
  apply (WriteTo_message_too_long
           (mkOptions BigEndian BigEndian BinaryStream BinaryStream 2 (-1))
           [[1; 2]] [3; 4; 5] [9] [] 2).
  - reflexivity.
  - repeat constructor; vm_compute; discriminate.
  - vm_compute. discriminate.
  - vm_compute. reflexivity.
  - cbn [length]. lia.
Defined.

(** X10 — [Reader.WriteTo] on a stream that ends inside a frame, after [k]
    of its bytes (in the header or in the payload): the payloads of the
    complete messages in front are delivered and counted, the call returns
    io.ErrUnexpectedEOF, and no byte of the truncated message reaches the
    destination. *)
Theorem WriteTo_truncated_stream (o : Options) (msgs : list (list Z)) (m acc : list Z)
  (k fuel : nat) :
  ReadProto o = BinaryStream ->
  Forall (fun m => len m <= framePayloadMaxLen56 /\ len m <= forwarder_cap o) msgs ->
  len m <= framePayloadMaxLen56 -> len m <= forwarder_cap o ->
  (0 < k < length (frame (ReadByteOrder o) m))%nat ->
  (length msgs < fuel)%nat ->
  exists fr',
    WriteTo fuel
      (NewReader (bytes_reader (concat (map (frame (ReadByteOrder o)) msgs) ++
                                firstn k (frame (ReadByteOrder o) m))) o)
      (mkSink acc []) =
    Some (total_len msgs, Some ErrUnexpectedEOF, fr', mkSink (acc ++ concat msgs) []) /\
    rd fr' = Some [] /\ offset fr' = Z.of_nat k.
Proof.
  intros Hpr Hall Hm Hcap Hk Hf.
  pose proof (forwarder_cap_pos o) as Hcp.
  unfold WriteTo, NewReader. cbn [rpr rbuf newFramer readLimit]. rewrite Hpr.
  cbn [preserveBoundary]. fold (forwarder_cap o).
  set (b := repeat 0 (Z.to_nat (forwarder_cap o))).
  set (frb := set_rbuf (newFramer None None o) (Some b)).
  change (set_rbuf (newFramer (Some ?s) None o) (Some b))
    with (rstep frb s (repeat 0 8) 0 0).
  replace fuel with (length msgs + S (fuel - length msgs - 1))%nat by lia.
  destruct (WriteTo_stream_prefix frb (ReadByteOrder o) Hpr eq_refl (forwarder_cap o) msgs
              (firstn k (frame (ReadByteOrder o) m))) with
    (fuel := S (fuel - length msgs - 1)) (h := repeat 0 8) (b := b) (total := 0) (acc := acc)
    as (h1 & b1 & Hh1 & Hb1 & ->).
  - eapply Forall_impl; [|exact Hall]. cbv beta. intros x [Hx Hc].
    split; [exact Hx|split; [exact (stream_capacity o x Hc)|exact Hc]].
  - unfold b, len. rewrite repeat_length. lia.
  - reflexivity.
  - destruct (WriteTo_stream_truncated frb (ReadByteOrder o) Hpr eq_refl
                (fuel - length msgs - 1) m k h1 b1 (0 + total_len msgs)
                (mkSink (acc ++ concat msgs) []) Hm (stream_capacity o m Hcap)
                ltac:(lia) Hh1 Hk) as (fr' & Hr & Hrd & Ho).
    exists fr'. rewrite Hr. auto.
Qed.

Lemma WriteTo_truncated_stream_witness :
  exists fr',
    WriteTo 2
      (NewReader (bytes_reader (concat (map (frame (ReadByteOrder defaultOptions)) [[1; 2]]) ++
                                firstn 3 (frame (ReadByteOrder defaultOptions) [3; 4; 5])))
         defaultOptions)
      (mkSink [] []) =
    Some (total_len [[1; 2]], Some ErrUnexpectedEOF, fr', mkSink ([] ++ concat [[1; 2]]) []) /\
    rd fr' = Some [] /\ offset fr' = Z.of_nat 3.
Proof.
  apply (WriteTo_truncated_stream defaultOptions [[1; 2]] [3; 4; 5] [] 3 2).
  - reflexivity.
  - repeat constructor; vm_compute; discriminate.
  - vm_compute. discriminate.
  - vm_compute. discriminate.
  - vm_compute. lia.
  - cbn [length]. lia.
Defined.
(** ** The forwarder over packet transports *)

Section ForwardPacket.
Variable o : Options.
Hypothesis Hrp : preserveBoundary (ReadProto o) = true.

Local Abbreviation fr0 := (newFramer None None o).

(** The read bound of phase 1 is the buffer capacity. *)
Lemma forward_packet_max b :
  len b = forwarder_cap o ->
  (if (readLimit fr0 >? 0) && (len b >? readLimit fr0) then readLimit fr0 else len b) =
  len b.
Proof.
  intros Hb. rewrite Hb. unfold forwarder_cap. change (readLimit fr0) with (ReadLimit o).
  destruct (Z.leb_spec (ReadLimit o) 0); destruct (Z.gtb_spec (ReadLimit o) 0);
    cbn [andb]; try lia; try reflexivity.
  destruct (Z.gtb_spec (ReadLimit o) (ReadLimit o)); [lia|reflexivity].
Qed.

Lemma forward_packet d s acc h hw b fuel :
  d <> [] -> len d <= forwarder_cap o -> len d <= framePayloadMaxLen56 ->
  len b = forwarder_cap o -> length hw = 8%nat ->
  exists hw' b',
    length hw' = 8%nat /\ len b' = forwarder_cap o /\
    ForwardOnce fuel (idle_forwarder o ((d, None) :: s) (mkSink acc []) h hw b) =
    Some (len d, None,
          idle_forwarder o s
            (mkSink (acc ++ on_wire (WriteProto o) (WriteByteOrder o) d) []) h hw' b').
Proof.
  intros Hd Hcap Hm Hb Hhw.
  assert (Hpos : 0 < len d) by (destruct d; [congruence|zlia]).
  destruct (write_idle fr0 acc hw d Hm Hhw) as (hw' & Hhw' & Hw).
  assert (Hlim : readLimit fr0 <= 0 \/ len d <= readLimit fr0).
  { change (readLimit fr0) with (ReadLimit o). unfold forwarder_cap in Hcap.
    destruct (Z.leb_spec (ReadLimit o) 0); [left|right]; lia. }
  exists hw', (copy_at b 0 (copy_at b 0 d)).
  assert (Hl1 : length (copy_at b 0 d) = length b) by (apply copy_at_length; zlia).
  assert (Hcc : copy_at b 0 (copy_at b 0 d) = copy_at b 0 d)
    by (apply copy_at_whole; exact Hl1).
  split; [exact Hhw'|]. split; [rewrite Hcc; unfold len in Hb |- *; lia|].
  unfold ForwardOnce, idle_forwarder. cbn [state eofPending andb Z.eqb].
  unfold forward_phase0. cbn [state rr ww buf need got eofAfterThis eofPending rpr rstep Z.eqb].
  change (rpr fr0) with (ReadProto o). rewrite Hrp. cbn [negb].
  unfold forward_phase1. cbn [state rr rpr rstep Z.eqb Pos.eqb].
  change (rpr fr0) with (ReadProto o). rewrite Hrp.
  unfold forward_read_packet.
  cbn [rr ww buf need got state eofAfterThis eofPending readLimit rstep].
  rewrite (forward_packet_max b Hb).
  assert (Hsl : slice b (Z.to_nat 0) (Z.to_nat (len b)) = b).
  { unfold slice. change (Z.to_nat 0) with 0%nat. cbn [skipn]. apply firstn_all2. zlia. }
  rewrite Hsl. rewrite read_rstep_packet by exact Hrp.
  rewrite readPacket_chunk by (try assumption; zlia).
  cbn [rr ww buf need got state eofAfterThis eofPending].
  unfold forward_phase2. cbn [rr ww buf need got state eofAfterThis eofPending Z.eqb Pos.eqb].
  change (Z.to_nat 0) with 0%nat. rewrite Hcc.
  replace (Z.to_nat (0 + len d)) with (length d) by zlia.
  rewrite firstn_copy_at_0 by zlia.
  change (wpr fr0) with (WriteProto o) in Hw. change (wbo fr0) with (WriteByteOrder o) in Hw.
  rewrite Hw. reflexivity.
Qed.

Lemma forward_packet_eof sk h hw b fuel :
  len b = forwarder_cap o ->
  exists f',
    ForwardOnce fuel (idle_forwarder o [] sk h hw b) = Some (0, Some EOF, f') /\
    wr (ww f') = Some sk /\ rd (rr f') = Some [].
Proof.
  intros Hb.
  unfold ForwardOnce, idle_forwarder. cbn [state eofPending andb Z.eqb].
  unfold forward_phase0. cbn [state rr ww buf need got eofAfterThis eofPending rpr rstep Z.eqb].
  change (rpr fr0) with (ReadProto o). rewrite Hrp. cbn [negb].
  unfold forward_phase1. cbn [state rr rpr rstep Z.eqb Pos.eqb].
  change (rpr fr0) with (ReadProto o). rewrite Hrp.
  unfold forward_read_packet.
  cbn [rr ww buf need got state eofAfterThis eofPending readLimit rstep].
  rewrite (forward_packet_max b Hb).
  rewrite read_rstep_packet by exact Hrp. rewrite readPacket_eof.
  cbn [error_eqb orb rr ww buf need got state eofAfterThis eofPending Z.add Z.eqb].
  eexists. repeat split.
Qed.

Lemma relay_packets fuel ds :
  Forall (fun d => d <> [] /\ len d <= forwarder_cap o /\
                   len d <= framePayloadMaxLen56) ds ->
  forall acc h hw b,
    len b = forwarder_cap o -> length hw = 8%nat ->
    exists f',
      relay (S (length ds)) fuel
        (idle_forwarder o (chunk_source ds) (mkSink acc []) h hw b) =
      Some (map len ds, None, f') /\
      wr (ww f') =
      Some (mkSink (acc ++ concat (map (on_wire (WriteProto o) (WriteByteOrder o)) ds)) []) /\
      rd (rr f') = Some [].
Proof.
  induction 1 as [|d ds (Hd & Hcap & Hm) _ IH]; intros acc h hw b Hb Hhw.
  - destruct (forward_packet_eof (mkSink acc []) h hw b fuel Hb) as (f' & Hf & Hw & Hr).
    exists f'. cbn [length map concat chunk_source relay].
    change (@nil chunk) with (@nil (list Z * option error)) in Hf.
    rewrite Hf. cbn [error_eqb]. rewrite app_nil_r. auto.
  - cbn [length map concat chunk_source]. fold (chunk_source ds).
    destruct (forward_packet d (chunk_source ds) acc h hw b fuel Hd Hcap Hm Hb Hhw)
      as (hw1 & b1 & Hhw1 & Hb1 & Hf).
    destruct (IH (acc ++ on_wire (WriteProto o) (WriteByteOrder o) d) h hw1 b1 Hb1 Hhw1)
      as (f' & Hr & Hw & Hs).
    exists f'.
    change (relay (S (S (length ds))) fuel ?f)
      with ('(n, e, f1) <- ForwardOnce fuel f ;;
            match e with
            | None =>
                '(ns, e', f') <- relay (S (length ds)) fuel f1 ;;
                Some (n :: ns, e', f')
            | Some x =>
                if error_eqb x EOF then Some ([], None, f1)
                else if error_eqb x ErrWouldBlock || error_eqb x ErrMore
                then relay (S (length ds)) fuel f1
                else Some ([], Some x, f1)
            end).
    rewrite Hf. cbv beta iota. rewrite Hr, Hw, <- app_assoc. auto.
Qed.
End ForwardPacket.

(** X5 — A forwarder whose read side is a packet transport relays packet by
    packet: over a source that delivers the non-empty packets [ds] (each
    within the buffer capacity) and then end of stream, with a sink that
    accepts every write, the relay loop makes one successful call per packet,
    each returning that packet's length, and then meets io.EOF; every packet
    reaches the sink as one message of the write side, so a stream write
    side frames each packet. *)
Theorem forwarder_relays_packets (o : Options) (ds : list (list Z)) (acc : list Z)
  (fuel : nat) :
  preserveBoundary (ReadProto o) = true ->
  Forall (fun d => d <> [] /\ len d <= forwarder_cap o /\ len d <= framePayloadMaxLen56) ds ->
  exists f',
    relay (S (length ds)) fuel
      (NewForwarder (Some (mkSink acc [])) (Some (chunk_source ds)) o) =
    Some (map len ds, None, f') /\
    wr (ww f') =
    Some (mkSink (acc ++ concat (map (on_wire (WriteProto o) (WriteByteOrder o)) ds)) []) /\
    rd (rr f') = Some [].
Proof.
  intros Hrp Hall. rewrite NewForwarder_idle.
  pose proof (forwarder_cap_pos o) as Hcp.
  apply (relay_packets o Hrp fuel ds Hall); [|reflexivity].
  unfold len. rewrite repeat_length. lia.
Qed.

Lemma forwarder_relays_packets_witness :
  exists f',
    relay (S (length [[1; 2]; [3]])) 0
      (NewForwarder (Some (mkSink [] [])) (Some (chunk_source [[1; 2]; [3]]))
         (mkOptions BigEndian BigEndian SeqPacket BinaryStream 16 (-1))) =
    Some (map len [[1; 2]; [3]], None, f') /\
    wr (ww f') =
    Some (mkSink ([] ++ concat (map (on_wire
              (WriteProto (mkOptions BigEndian BigEndian SeqPacket BinaryStream 16 (-1)))
              (WriteByteOrder (mkOptions BigEndian BigEndian SeqPacket BinaryStream 16 (-1))))
              [[1; 2]; [3]])) []) /\
    rd (rr f') = Some [].
Proof.
  apply (forwarder_relays_packets (mkOptions BigEndian BigEndian SeqPacket BinaryStream 16 (-1))
           [[1; 2]; [3]] [] 0).
  - reflexivity.
  - repeat constructor; try discriminate; vm_compute; discriminate.
Defined.

(** ** The forwarder over stream transports: interrupted calls *)

(** A forwarder in the write phase goes straight to it. *)
Lemma forward_in_write_phase fuel r w b n g ea ep :
  ForwardOnce fuel (mkForwarder r w b n g 2 ea ep) =
  forward_phase2 (mkForwarder r w b n g 2 ea ep).
Proof. reflexivity. Qed.

Section ForwardStream.
Variable o : Options.
Hypothesis Hrp : ReadProto o = BinaryStream.

Local Abbreviation fr0 := (newFramer None None o).

(** Phases 0 and 1 on an idle forwarder whose source starts with the frame
    of [m]: the payload is loaded into the buffer and the write phase is
    entered. *)
Lemma forward_load m more w h b fuel :
  len m <= framePayloadMaxLen56 -> ReadLimit o <= 0 \/ len m <= ReadLimit o ->
  len m <= len b -> length h = 8%nat ->
  exists h' b',
    length h' = 8%nat /\ length b' = length b /\
    firstn (length m) b' = m /\
    ForwardOnce (S fuel)
      (mkForwarder (rstep fr0 (bytes_reader (frame (ReadByteOrder o) m ++ more)) h 0 0)
         w b 0 0 0 false false) =
    forward_phase2
      (mkForwarder (rstep fr0 (bytes_reader more) h' 0 0) w b' (len m) (len m) 2
         false false).
Proof.
  intros Hm Hlim Hb Hh.
  pose proof (len_nonneg m) as Hnn.
  destruct (header_stored (ReadByteOrder o) m h Hh) as [Hl8 _].
  unfold ForwardOnce. cbn [state eofPending andb Z.eqb].
  unfold forward_phase0. cbn [state rr ww buf need got eofAfterThis eofPending rpr rstep Z.eqb].
  change (rpr fr0) with (ReadProto o). rewrite Hrp. cbn [preserveBoundary negb].
  rewrite read_stream_dispatch by assumption.
  destruct (Z.eq_dec (len m) 0) as [Hz|Hz].
  - assert (m = []) as -> by (destruct m; [reflexivity|cbn in Hz; lia]).
    rewrite (readStream_frame fr0 (ReadByteOrder o) [] more h eq_refl Hm Hlim Hh [])
      by (cbn; lia).
    unfold forward_phase1. cbn [state Z.eqb Pos.eqb].
    eexists _, b. split; [exact Hl8|]. split; [reflexivity|]. split; reflexivity.
  - rewrite (readStream_frame_short fr0 (ReadByteOrder o) m more h eq_refl Hm Hlim Hh [])
      by (cbn; lia).
    cbn [error_eqb length_ rstep].
    destruct (Z.gtb_spec (len m) (len b)) as [Hgt|_]; [lia|].
    unfold forward_phase1. cbn [state rr rpr rstep Z.eqb Pos.eqb].
    change (rpr fr0) with (ReadProto o). rewrite Hrp. cbn [preserveBoundary].
    cbn [forward_read_stream need got rr buf ww state eofAfterThis eofPending].
    destruct (Z.ltb_spec 0 (len m)) as [_|Hle]; [|lia].
    rewrite read_stream_dispatch by assumption.
    assert (Hfl : length (firstn (Z.to_nat (len m)) b) = length m)
      by (rewrite length_firstn; zlia).
    rewrite (readStream_payload fr0 (ReadByteOrder o) m more h eq_refl Hm Hlim Hh)
      by (unfold len in *; rewrite length_firstn; lia).
    rewrite (copy_at_whole (firstn (Z.to_nat (len m)) b) m) by (symmetry; exact Hfl).
    rewrite forward_read_stream_done by (cbn [need got]; lia).
    cbn [rr ww buf need got state eofAfterThis eofPending].
    replace (0 + len m) with (len m) by lia.
    eexists _, (copy_at b 0 m).
    split; [exact Hl8|]. split; [apply copy_at_length; zlia|].
    split; [apply firstn_copy_at_0; zlia|reflexivity].
Qed.
End ForwardStream.

(** X6 — A forwarder interrupted on its write side.  The sink accepts [c]
    bytes, fewer than the frame of the message, and then answers with the
    error [x] (would-block on a non-blocking forwarder, or any other error):
    [ForwardOnce] has consumed the message from the source, returns [x] with
    the number of payload bytes written, and has emitted exactly the first
    [c] bytes of the frame.  The next [ForwardOnce] on the same forwarder
    reads nothing from the source, writes the rest of the frame and returns
    nil: the sink holds the frame exactly once and the two counts add up to
    the payload length. *)
Theorem forward_write_interrupted (o : Options) (m more acc : list Z) (c : nat)
  (x : error) (fuel fuel' : nat) :
  ReadProto o = BinaryStream -> WriteProto o = BinaryStream ->
  len m <= framePayloadMaxLen56 -> len m <= forwarder_cap o ->
  (c < length (frame (WriteByteOrder o) m))%nat ->
  RetryDelay o < 0 \/ x <> ErrWouldBlock ->
  let hs := header_size (len m) in
  exists f1 f2,
    ForwardOnce (S fuel)
      (NewForwarder (Some (mkSink acc [(c, Some x)]))
         (Some (bytes_reader (frame (ReadByteOrder o) m ++ more))) o) =
      Some (Z.max (Z.of_nat c) hs - hs, Some x, f1) /\
    wr (ww f1) = Some (mkSink (acc ++ firstn c (frame (WriteByteOrder o) m)) []) /\
    rd (rr f1) = Some (bytes_reader more) /\
    ForwardOnce fuel' f1 = Some (len m - Z.max 0 (Z.of_nat c - hs), None, f2) /\
    wr (ww f2) = Some (mkSink (acc ++ frame (WriteByteOrder o) m) []) /\
    rd (rr f2) = Some (bytes_reader more) /\ state f2 = 0.
Proof.
  intros Hrp Hwp Hm Hcap Hc Hx hs.
  pose proof (forwarder_cap_pos o) as Hcp.
  pose proof (len_nonneg m) as Hnn.
  pose proof (header_size_cases (len m)) as Hcs. fold hs in Hcs.
  set (W := wire_header (WriteByteOrder o) (len m)).
  assert (HWl : len W = hs) by apply wire_header_length.
  assert (Hlim : ReadLimit o <= 0 \/ len m <= ReadLimit o).
  { unfold forwarder_cap in Hcap. destruct (Z.leb_spec (ReadLimit o) 0); [left|right]; lia. }
  rewrite NewForwarder_idle. unfold idle_forwarder.
  destruct (forward_load o Hrp m more
              (wstep (newFramer None None o) (mkSink acc [(c, Some x)]) (repeat 0 8) 0 0)
              (repeat 0 8) (repeat 0 (Z.to_nat (forwarder_cap o))) fuel Hm Hlim)
    as (h' & b' & Hh' & Hb' & Hfm & ->);
    [unfold len in *; rewrite repeat_length; lia|reflexivity|].
 
  (* first write *)
  assert (Hretry : waitOnceOnWouldBlock (newFramer None None o) = false \/ x <> ErrWouldBlock).
  { destruct Hx as [Hx|Hx]; [left|right; exact Hx].
    unfold waitOnceOnWouldBlock. change (retryDelay (newFramer None None o)) with (RetryDelay o).
    destruct (Z.ltb_spec (RetryDelay o) 0); [reflexivity|lia]. }
  assert (Hc' : Z.of_nat c < hs + len m - 0).
  { unfold frame in Hc. rewrite length_app in Hc. fold W in Hc. unfold len in *. lia. }
  pose proof (writeStream_cut (newFramer None None o) m (repeat 0 8) (len m) hs W Hm eq_refl eq_refl eq_refl
                eq_refl acc c x [] 0 0 ltac:(lia) Hc' ltac:(congruence) ltac:(congruence)
                Hretry) as Hw1.
  set (hw1 := in_flight_header (wbo (newFramer None None o)) (len m) (repeat 0 8) 0) in *.
  (* second write *)
  assert (Hhw1 : length hw1 = 8%nat /\ firstn (Z.to_nat hs) hw1 = W).
  { apply (header_stored (WriteByteOrder o) m (repeat 0 8) eq_refl). }
  destruct Hhw1 as [Hl8 Hpre].
  pose proof (writeStream_all (newFramer None None o) m hw1 (len m) hs W Hm Hl8 eq_refl eq_refl eq_refl
                (acc ++ slice (W ++ m) (Z.to_nat 0) (Z.to_nat 0 + c)) (len m)
                (0 + Z.of_nat c) ltac:(lia) ltac:(reflexivity) ltac:(intros _; exact Hpre))
    as Hw2.
  change (Z.to_nat 0) with 0%nat in Hw1, Hw2. cbn [Nat.add] in Hw1, Hw2.
  rewrite slice_0 in Hw1, Hw2.
  replace (Z.to_nat (0 + Z.of_nat c)) with c in Hw2 by lia.
  rewrite <- app_assoc, firstn_skipn in Hw2.
  replace (Z.max (0 + Z.of_nat c) hs - Z.max 0 hs) with (Z.max (Z.of_nat c) hs - hs)
    in Hw1 by lia.
  replace (0 + Z.of_nat c - hs) with (Z.of_nat c - hs) in Hw2 by lia.
  replace (Z.to_nat (len m)) with (length m) by zlia.
  do 2 eexists.
  split.
  { unfold forward_phase2. cbn [state ww buf need rr got eofAfterThis eofPending Z.eqb Pos.eqb].
    replace (Z.to_nat (len m)) with (length m) by zlia.
    rewrite Hfm, write_stream_dispatch by assumption.
    rewrite Hw1. reflexivity. }
  split; [reflexivity|]. split; [reflexivity|].
  split.
  { rewrite forward_in_write_phase.
    unfold forward_phase2. cbn [state ww buf need rr got eofAfterThis eofPending Z.eqb Pos.eqb].
    replace (Z.to_nat (len m)) with (length m) by zlia.
    rewrite Hfm, write_stream_dispatch by assumption.
    rewrite Hw2. reflexivity. }
  split; [reflexivity|]. split; reflexivity.
Qed.

Lemma forward_write_interrupted_witness :
  let hs := header_size (len [104; 101; 108; 108; 111]) in
  exists f1 f2,
    ForwardOnce (S 0)
      (NewForwarder (Some (mkSink [] [(3%nat, Some ErrWouldBlock)]))
         (Some (bytes_reader (frame (ReadByteOrder defaultOptions) [104; 101; 108; 108; 111]
                                ++ [0]))) defaultOptions) =
      Some (Z.max (Z.of_nat 3) hs - hs, Some ErrWouldBlock, f1) /\
    wr (ww f1) =
      Some (mkSink ([] ++ firstn 3 (frame (WriteByteOrder defaultOptions)
                                      [104; 101; 108; 108; 111])) []) /\
    rd (rr f1) = Some (bytes_reader [0]) /\
    ForwardOnce 0 f1 =
      Some (len [104; 101; 108; 108; 111] - Z.max 0 (Z.of_nat 3 - hs), None, f2) /\
    wr (ww f2) =
      Some (mkSink ([] ++ frame (WriteByteOrder defaultOptions) [104; 101; 108; 108; 111]) []) /\
    rd (rr f2) = Some (bytes_reader [0]) /\ state f2 = 0.
Proof.
  apply (forward_write_interrupted defaultOptions [104; 101; 108; 108; 111] [0] [] 3
           ErrWouldBlock 0 0).
  - reflexivity.
  - reflexivity.
  - vm_compute. discriminate.
  - vm_compute. discriminate.
  - vm_compute. lia.
  - left. vm_compute. reflexivity.
Defined.

(** The payload read with any header array that holds the header. *)
Lemma readStream_payload_stored fr bo m more h dst :
  rbo fr = bo -> len m <= framePayloadMaxLen56 ->
  readLimit fr <= 0 \/ len m <= readLimit fr ->
  length h = 8%nat ->
  firstn (Z.to_nat (header_size (len m))) h = wire_header bo (len m) ->
  len m <= len dst ->
  readStream (rstep fr (bytes_reader (m ++ more)) h (len m) (header_size (len m))) dst =
  Some (len m, None, rstep fr (bytes_reader more) h 0 0, copy_at dst 0 m).
Proof.
  intros Hbo Hm Hlim Hl8 Hpre Hdst. pose proof (len_nonneg m) as Hnn.
  set (W := wire_header bo (len m)) in *.
  assert (Hwl : len W = header_size (len m)) by apply wire_header_length.
  rewrite !bytes_reader_serve.
  replace (header_size (len m)) with (Z.of_nat (length W)) by exact Hwl.
  replace (m ++ more) with (skipn (length W) (W ++ m) ++ more)
    by (rewrite skipn_app, skipn_all, Nat.sub_diag; reflexivity).
  rewrite (readStream_rest fr bo m h W (len m) (length W) dst
             Hbo Hm Hlim Hdst eq_refl Hl8).
  - rewrite Nat.min_id, skipn_all, copy_at_nil, Nat.sub_diag. cbn [skipn].
    replace (len m - Z.of_nat 0) with (len m) by lia. reflexivity.
  - rewrite Nat.min_id, firstn_all.
    replace (length W) with (Z.to_nat (header_size (len m))) by zlia. exact Hpre.
  - reflexivity.
  - rewrite length_app. lia.
  - right; left; reflexivity.
Qed.

Lemma copy_at_tail (dst m : list Z) a :
  length dst = length m -> (a <= length m)%nat -> firstn a dst = firstn a m ->
  copy_at dst a (skipn a m) = m.
Proof.
  intros Hl Ha Hp. unfold copy_at. rewrite Hp, length_skipn.
  rewrite (skipn_all2 dst) by lia. rewrite app_nil_r. apply firstn_skipn.
Qed.

Section ForwardResume.
Variable o : Options.
Hypothesis Hrp : ReadProto o = BinaryStream.

Variables (m more : list Z).
Hypothesis Hm : len m <= framePayloadMaxLen56.
Hypothesis Hlim : ReadLimit o <= 0 \/ len m <= ReadLimit o.

Local Abbreviation fr0 := (newFramer None None o).
Local Abbreviation Wr := (wire_header (ReadByteOrder o) (len m)).

(** Phases 0 and 1 on a forwarder that was interrupted inside the header,
    after [k] header bytes. *)
Lemma forward_load_from k w h b fuel :
  (k < length Wr)%nat -> length h = 8%nat -> firstn k h = firstn k Wr ->
  len m <= len b ->
  exists h' b',
    length h' = 8%nat /\ length b' = length b /\
    firstn (length m) b' = m /\
    ForwardOnce (S fuel)
      (mkForwarder (rstep fr0 (serve (skipn k (Wr ++ m) ++ more) None []) h 0 (Z.of_nat k))
         w b 0 0 0 false false) =
    forward_phase2
      (mkForwarder (rstep fr0 (bytes_reader more) h' 0 0) w b' (len m) (len m) 2
         false false).
Proof.
  intros Hk Hh Hpre Hb.
  pose proof (len_nonneg m) as Hnn.
  destruct (header_after_enough (ReadByteOrder o) (len m) h Hh k ltac:(lia) Hpre)
    as [Hl8 Hst].
  set (h2 := copy_at h k (skipn k Wr)) in *.
  unfold ForwardOnce. cbn [state eofPending andb Z.eqb].
  unfold forward_phase0. cbn [state rr ww buf need got eofAfterThis eofPending rpr rstep Z.eqb].
  change (rpr fr0) with (ReadProto o). rewrite Hrp. cbn [preserveBoundary negb].
  rewrite read_stream_dispatch by assumption.
  destruct (Z.eq_dec (len m) 0) as [Hz|Hz].
  - rewrite (readStream_rest fr0 (ReadByteOrder o) m h Wr 0 k [] eq_refl Hm Hlim
               ltac:(cbn; lia) eq_refl Hh)
      by first [ (replace (Nat.min k (length Wr)) with k by lia; exact Hpre)
               | (intros; lia) | (rewrite length_app; lia)
               | (right; left; reflexivity) ].
    replace (Nat.min k (length Wr)) with k by lia. fold h2.
    unfold forward_phase1. cbn [state Z.eqb Pos.eqb].
    rewrite <- bytes_reader_serve.
    exists h2, b. split; [exact Hl8|]. split; [reflexivity|].
    split; [destruct m; [reflexivity|cbn in Hz; lia]|].
    rewrite Hz. reflexivity.
  - replace (skipn k (Wr ++ m) ++ more) with (skipn k Wr ++ (m ++ more))
      by (rewrite skipn_app; replace (k - length Wr)%nat with 0%nat by lia;
          cbn [skipn]; rewrite app_assoc; reflexivity).
    rewrite (readStream_header_enough fr0 (ReadByteOrder o) (len m) h Hnn Hh k
               (m ++ more) None [] 0 [] Hk Hpre ltac:(right; left; reflexivity)).
    fold h2.
    rewrite (read_tail_shortbuf fr0 (ReadByteOrder o) (len m) h2 eq_refl ltac:(lia) Hl8 Hst)
      by first [assumption | (cbn; lia)].
    cbn [error_eqb length_ rstep].
    destruct (Z.gtb_spec (len m) (len b)) as [Hgt|_]; [lia|].
    unfold forward_phase1. cbn [state rr rpr rstep Z.eqb Pos.eqb].
    change (rpr fr0) with (ReadProto o). rewrite Hrp. cbn [preserveBoundary].
    cbn [forward_read_stream need got rr buf ww state eofAfterThis eofPending].
    destruct (Z.ltb_spec 0 (len m)) as [_|Hle]; [|lia].
    rewrite read_stream_dispatch by assumption.
    assert (Hfl : length (firstn (Z.to_nat (len m)) b) = length m)
      by (rewrite length_firstn; zlia).
    rewrite <- bytes_reader_serve.
    rewrite (readStream_payload_stored fr0 (ReadByteOrder o) m more h2 _ eq_refl Hm Hlim
               Hl8 Hst)
      by (unfold len in *; rewrite length_firstn; lia).
    rewrite (copy_at_whole (firstn (Z.to_nat (len m)) b) m) by (symmetry; exact Hfl).
    rewrite forward_read_stream_done by (cbn [need got]; lia).
    cbn [rr ww buf need got state eofAfterThis eofPending].
    replace (0 + len m) with (len m) by lia.
    exists h2, (copy_at b 0 m).
    split; [exact Hl8|]. split; [apply copy_at_length; zlia|].
    split; [apply firstn_copy_at_0; zlia|reflexivity].
Qed.

Hypothesis Hnb : RetryDelay o < 0.

(** What the source holds from wire position [k] on, after the would-block
    signal. *)
Local Abbreviation rest k := (serve (skipn k (Wr ++ m) ++ more) None []).
Local Abbreviation blocked k := (([], Some ErrWouldBlock) :: rest k).

Lemma blocked_signal k :
  SigTail (waitOnceOnWouldBlock fr0) (blocked k) ErrWouldBlock (rest k).
Proof. apply SigTail_sig. left. apply nonblock_no_retry. exact Hnb. Qed.

(** First call, the signal arrives inside the header. *)
Lemma forward_blocked_in_header k w h b fuel :
  (k < length Wr)%nat -> length h = 8%nat ->
  exists h',
    length h' = 8%nat /\ firstn k h' = firstn k Wr /\
    ForwardOnce fuel
      (mkForwarder (rstep fr0 (serve (firstn k (Wr ++ m)) None (blocked k)) h 0 0)
         w b 0 0 0 false false) =
    Some (0, Some ErrWouldBlock,
          mkForwarder (rstep fr0 (rest k) h' 0 (Z.of_nat k)) w b 0 0 0 false false).
Proof.
  intros Hk Hh.
  exists (copy_at h 0 (slice Wr 0 k)).
  assert (Hsl : length (slice Wr 0 k) = k) by (rewrite slice_length; lia).
  assert (HW8 : (length Wr <= 8)%nat).
  { assert (Hl : Z.of_nat (length Wr) = header_size (len m))
      by apply wire_header_length.
    pose proof (header_size_cases (len m)). lia. }
  split; [rewrite copy_at_length by lia; exact Hh|].
  split.
  { replace k with (0 + length (slice Wr 0 k))%nat at 1 by lia.
    rewrite firstn_copy_at by lia. cbn [firstn app]. apply slice_0. }
  unfold ForwardOnce. cbn [state eofPending andb Z.eqb].
  unfold forward_phase0. cbn [state rr ww buf need got eofAfterThis eofPending rpr rstep Z.eqb].
  change (rpr fr0) with (ReadProto o). rewrite Hrp. cbn [preserveBoundary negb].
  rewrite read_stream_dispatch by assumption.
  replace (firstn k (Wr ++ m)) with (slice Wr 0 k)
    by (rewrite <- slice_0, slice_app_l by lia; reflexivity).
  pose proof (readStream_header_short fr0 (ReadByteOrder o) (len m) h (len_nonneg m) Hh
             0 k (blocked k) ErrWouldBlock (rest k) 0 [] ltac:(lia) Hk eq_refl
             (blocked_signal k)) as Hr.
  change (Z.of_nat 0) with 0 in Hr. rewrite Hr. clear Hr.
  assert (Hx : (if (k =? 0)%nat then ErrWouldBlock
                else eof_as ErrWouldBlock ErrUnexpectedEOF) = ErrWouldBlock)
    by (destruct (k =? 0)%nat; reflexivity).
  rewrite Hx. reflexivity.
Qed.

(** First call, the signal arrives inside the payload. *)
Lemma forward_blocked_in_payload k w h b fuel :
  (length Wr <= k)%nat -> (k < length (Wr ++ m))%nat -> length h = 8%nat ->
  len m <= len b ->
  exists h' b',
    length h' = 8%nat /\ firstn (length Wr) h' = Wr /\ length b' = length b /\
    firstn (k - length Wr) b' = firstn (k - length Wr) m /\
    ForwardOnce (S fuel)
      (mkForwarder (rstep fr0 (serve (firstn k (Wr ++ m)) None (blocked k)) h 0 0)
         w b 0 0 0 false false) =
    Some (Z.of_nat (k - length Wr), Some ErrWouldBlock,
          mkForwarder (rstep fr0 (rest k) h' (len m) (Z.of_nat k)) w b' (len m)
            (Z.of_nat (k - length Wr)) 1 false false).
Proof.
  intros HkW Hk Hh Hb. rewrite length_app in Hk.
  pose proof (len_nonneg m) as Hnn.
  assert (Hwl : Z.of_nat (length Wr) = header_size (len m)) by apply wire_header_length.
  pose proof (header_size_cases (len m)) as Hcs.
  destruct (header_stored (ReadByteOrder o) m h Hh) as [Hl8 Hst].
  set (h1 := copy_at h 0 Wr) in *.
  set (a := (k - length Wr)%nat).
  assert (Ha : (a < length m)%nat) by (unfold a; lia).
  assert (Hpos : 0 < len m) by (unfold len; lia).
  set (dst := firstn (Z.to_nat (len m)) b).
  assert (Hdl : length dst = length m) by (unfold dst; rewrite length_firstn; zlia).
  set (p1 := copy_at dst 0 (firstn a m)).
  assert (Hp1 : length p1 = length m)
    by (unfold p1; rewrite copy_at_length; rewrite ?length_firstn; lia).
  exists h1, (copy_at b 0 p1).
  split; [exact Hl8|].
  split; [replace (length Wr) with (Z.to_nat (header_size (len m))) by lia; exact Hst|].
  split; [apply copy_at_length; zlia|].
  split.
  { assert (Hf1 : firstn (length p1) (copy_at b 0 p1) = p1)
      by (apply firstn_copy_at_0; zlia).
    replace (firstn a (copy_at b 0 p1))
      with (firstn a (firstn (length p1) (copy_at b 0 p1)))
      by (rewrite firstn_firstn; f_equal; lia).
    rewrite Hf1. unfold p1.
    assert (Hfa : length (firstn a m) = a) by (rewrite length_firstn; lia).
    pose proof (firstn_copy_at dst 0 (firstn a m) ltac:(lia)) as Hc.
    rewrite Hfa in Hc. cbn [Nat.add firstn app] in Hc. exact Hc. }
  unfold ForwardOnce. cbn [state eofPending andb Z.eqb].
  unfold forward_phase0. cbn [state rr ww buf need got eofAfterThis eofPending rpr rstep Z.eqb].
  change (rpr fr0) with (ReadProto o). rewrite Hrp. cbn [preserveBoundary negb].
  rewrite read_stream_dispatch by assumption.
  replace (firstn k (Wr ++ m)) with (skipn 0 Wr ++ firstn a m)
    by (rewrite firstn_app, (firstn_all2 (n := k) Wr) by lia; reflexivity).
  pose proof (readStream_header_enough fr0 (ReadByteOrder o) (len m) h Hnn Hh 0
                (firstn a m) None (blocked k) 0 [] ltac:(lia) eq_refl
                ltac:(right; left; reflexivity)) as Hr0.
  change (Z.of_nat 0) with 0 in Hr0. rewrite Hr0. clear Hr0.
  cbn [skipn]. fold h1.
  rewrite (read_tail_shortbuf fr0 (ReadByteOrder o) (len m) h1 eq_refl ltac:(lia) Hl8 Hst)
    by first [assumption | (cbn; lia)].
  cbn [error_eqb length_ rstep].
  destruct (Z.gtb_spec (len m) (len b)) as [Hgt|_]; [lia|].
  unfold forward_phase1. cbn [state rr rpr rstep Z.eqb Pos.eqb].
  change (rpr fr0) with (ReadProto o). rewrite Hrp. cbn [preserveBoundary].
  cbn [forward_read_stream need got rr buf ww state eofAfterThis eofPending].
  destruct (Z.ltb_spec 0 (len m)) as [_|Hle]; [|lia].
  rewrite read_stream_dispatch by assumption. fold dst.
  pose proof (readStream_signal fr0 (ReadByteOrder o) m h1 Wr (len m) (length Wr) dst
                eq_refl Hm Hlim ltac:(unfold len; lia) eq_refl Hl8
                ltac:(rewrite Nat.min_id, firstn_all;
                      replace (length Wr) with (Z.to_nat (header_size (len m))) by lia;
                      exact Hst)
                ltac:(reflexivity) k (blocked k) ErrWouldBlock (rest k) HkW
                ltac:(rewrite length_app; lia) (blocked_signal k)) as Hr1.
  rewrite Hwl in Hr1.
  rewrite slice_app_r, Nat.sub_diag, slice_0 in Hr1 by lia. fold a in Hr1.
  rewrite Hr1. clear Hr1.
  replace (k =? 0)%nat with false by (symmetry; apply Nat.eqb_neq; lia).
  cbn [eof_as error_eqb orb].
  rewrite Nat.min_id.
  replace (slice Wr (length Wr) k) with (@nil Z)
    by (unfold slice; rewrite skipn_all; symmetry; apply firstn_nil).
  rewrite copy_at_nil. rewrite Nat.sub_0_r.
  replace (k <? length Wr)%nat with false by (symmetry; apply Nat.ltb_ge; lia).
  replace (0 + Z.of_nat a) with (Z.of_nat a) by lia.
  reflexivity.
Qed.

(** Second call after an interruption inside the payload. *)
Lemma forward_resume_payload k w h b fuel :
  (length Wr <= k)%nat -> (k < length (Wr ++ m))%nat -> length h = 8%nat ->
  firstn (length Wr) h = Wr -> len m <= len b ->
  firstn (k - length Wr) b = firstn (k - length Wr) m ->
  exists b',
    length b' = length b /\ firstn (length m) b' = m /\
    ForwardOnce (S fuel)
      (mkForwarder (rstep fr0 (rest k) h (len m) (Z.of_nat k)) w b (len m)
         (Z.of_nat (k - length Wr)) 1 false false) =
    forward_phase2
      (mkForwarder (rstep fr0 (bytes_reader more) h 0 0) w b' (len m) (len m) 2
         false false).
Proof.
  intros HkW Hk Hh Hst Hb Hpre. rewrite length_app in Hk.
  set (a := (k - length Wr)%nat) in *.
  set (dst := firstn (Z.to_nat (len m)) b).
  assert (Hdl : length dst = length m) by (unfold dst; rewrite length_firstn; zlia).
  assert (Hdp : firstn a dst = firstn a m).
  { unfold dst. rewrite firstn_firstn. replace (Nat.min a (Z.to_nat (len m))) with a by zlia.
    exact Hpre. }
  exists (copy_at b 0 m).
  split; [apply copy_at_length; zlia|]. split; [apply firstn_copy_at_0; zlia|].
  unfold ForwardOnce. cbn [state eofPending andb Z.eqb Pos.eqb].
  unfold forward_phase0. cbn [state Z.eqb Pos.eqb].
  unfold forward_phase1. cbn [state rr rpr rstep Z.eqb Pos.eqb].
  change (rpr fr0) with (ReadProto o). rewrite Hrp. cbn [preserveBoundary].
  cbn [forward_read_stream need got rr buf ww state eofAfterThis eofPending].
  destruct (Z.ltb_spec (Z.of_nat a) (len m)) as [_|Hle]; [|zlia].
  rewrite read_stream_dispatch by assumption. fold dst.
  rewrite (readStream_rest fr0 (ReadByteOrder o) m h Wr (len m) k dst eq_refl Hm Hlim
             ltac:(unfold len; lia) eq_refl Hh)
    by first [ (replace (Nat.min k (length Wr)) with (length Wr) by lia;
                rewrite firstn_all; exact Hst)
             | reflexivity | (rewrite length_app; lia) | (right; left; reflexivity) ].
  fold a. rewrite (copy_at_tail dst m a Hdl ltac:(lia) Hdp).
  replace (Nat.min k (length Wr)) with (length Wr) by lia.
  rewrite (skipn_all2 Wr) by lia. rewrite copy_at_nil.
  rewrite <- bytes_reader_serve.
  rewrite forward_read_stream_done by (cbn [need got]; lia).
  cbn [rr ww buf need got state eofAfterThis eofPending].
  replace (Z.of_nat a + (len m - Z.of_nat a)) with (len m) by lia.
  reflexivity.
Qed.
End ForwardResume.

(** The write phase of a loaded forwarder on a sink that accepts everything. *)
Lemma forward_phase2_all o r acc hw b m ep :
  WriteProto o = BinaryStream -> len m <= framePayloadMaxLen56 -> length hw = 8%nat ->
  firstn (length m) b = m ->
  forward_phase2
    (mkForwarder r (wstep (newFramer None None o) (mkSink acc []) hw 0 0) b (len m) (len m) 2
       false ep) =
  Some (len m, None,
        mkForwarder r
          (wstep (newFramer None None o) (mkSink (acc ++ frame (WriteByteOrder o) m) [])
             (copy_at hw 0 (wire_header (WriteByteOrder o) (len m))) 0 0)
          b 0 0 0 false ep).
Proof.
  intros Hwp Hm Hhw Hb. unfold forward_phase2.
  cbn [state ww buf need rr got eofAfterThis eofPending Z.eqb Pos.eqb].
  replace (Z.to_nat (len m)) with (length m) by zlia.
  rewrite Hb, write_message by assumption. reflexivity.
Qed.

(** X7 — A non-blocking forwarder interrupted on its read side.  The source
    delivers the first [k] bytes of the frame of [m], at any position inside
    the header or the payload, then would-block, then the rest:
    [ForwardOnce] returns would-block with the number of payload bytes it
    has read so far and writes nothing.  The next [ForwardOnce] on the same
    forwarder completes the message from where the first stopped and writes
    it as one frame, returning the payload length and nil; the source is left
    at the bytes that follow the frame. *)
Theorem forward_read_interrupted (o : Options) (m more acc : list Z) (k : nat)
  (fuel fuel' : nat) :
  ReadProto o = BinaryStream -> WriteProto o = BinaryStream -> RetryDelay o < 0 ->
  len m <= framePayloadMaxLen56 -> len m <= forwarder_cap o ->
  let wire := frame (ReadByteOrder o) m in
  let hs := length (wire_header (ReadByteOrder o) (len m)) in
  (k < length wire)%nat ->
  exists f1 f2,
    ForwardOnce (S fuel)
      (NewForwarder (Some (mkSink acc []))
         (Some (serve (firstn k wire) None
                  (([], Some ErrWouldBlock) :: serve (skipn k wire ++ more) None []))) o) =
      Some (Z.of_nat (k - hs), Some ErrWouldBlock, f1) /\
    wr (ww f1) = Some (mkSink acc []) /\
    ForwardOnce (S fuel') f1 = Some (len m, None, f2) /\
    wr (ww f2) = Some (mkSink (acc ++ frame (WriteByteOrder o) m) []) /\
    rd (rr f2) = Some (bytes_reader more) /\ state f2 = 0.
Proof.
  intros Hrp Hwp Hnb Hm Hcap wire hs Hk.
  pose proof (forwarder_cap_pos o) as Hcp.
  assert (Hlim : ReadLimit o <= 0 \/ len m <= ReadLimit o).
  { unfold forwarder_cap in Hcap. destruct (Z.leb_spec (ReadLimit o) 0); [left|right]; lia. }
  rewrite NewForwarder_idle. unfold idle_forwarder.
  set (b := repeat 0 (Z.to_nat (forwarder_cap o))).
  assert (Hb : len m <= len b) by (unfold b, len in *; rewrite repeat_length; lia).
  unfold wire, frame in *. fold hs in Hk.
  destruct (Nat.lt_ge_cases k hs) as [Hlt|Hge].
  - (* the signal arrives inside the header *)
    destruct (forward_blocked_in_header o Hrp m more Hnb k
                (wstep (newFramer None None o) (mkSink acc []) (repeat 0 8) 0 0)
                (repeat 0 8) b (S fuel) Hlt eq_refl) as (h1 & Hh1 & Hp1 & ->).
    destruct (forward_load_from o Hrp m more Hm Hlim k
                (wstep (newFramer None None o) (mkSink acc []) (repeat 0 8) 0 0)
                h1 b fuel' Hlt Hh1 Hp1 Hb) as (h2 & b2 & Hh2 & Hb2 & Hfm & Hf2).
    replace (k - hs)%nat with 0%nat by lia.
    do 2 eexists. split; [reflexivity|]. split; [reflexivity|].
    split; [rewrite Hf2; apply forward_phase2_all; first [assumption | reflexivity]|].
    split; [reflexivity|]. split; reflexivity.
  - (* the signal arrives inside the payload *)
    destruct (forward_blocked_in_payload o Hrp m more Hm Hlim Hnb k
                (wstep (newFramer None None o) (mkSink acc []) (repeat 0 8) 0 0)
                (repeat 0 8) b fuel Hge Hk eq_refl Hb)
      as (h1 & b1 & Hh1 & Hp1 & Hb1 & Hpre & ->).
    destruct (forward_resume_payload o Hrp m more Hm Hlim k
                (wstep (newFramer None None o) (mkSink acc []) (repeat 0 8) 0 0)
                h1 b1 fuel' Hge Hk Hh1 Hp1 ltac:(unfold len in *; lia) Hpre)
      as (b2 & Hb2 & Hfm & Hf2).
    do 2 eexists. split; [reflexivity|]. split; [reflexivity|].
    split; [rewrite Hf2; apply forward_phase2_all; first [assumption | reflexivity]|].
    split; [reflexivity|]. split; reflexivity.
Qed.

Lemma forward_read_interrupted_witness :
  let wire := frame (ReadByteOrder defaultOptions) [10; 11; 12] in
  let hs := length (wire_header (ReadByteOrder defaultOptions) (len [10; 11; 12])) in
  exists f1 f2,
    ForwardOnce (S 0)
      (NewForwarder (Some (mkSink [] []))
         (Some (serve (firstn 2 wire) None
                  (([], Some ErrWouldBlock) :: serve (skipn 2 wire ++ [0]) None [])))
         defaultOptions) =
      Some (Z.of_nat (2 - hs), Some ErrWouldBlock, f1) /\
    wr (ww f1) = Some (mkSink [] []) /\
    ForwardOnce (S 0) f1 = Some (len [10; 11; 12], None, f2) /\
    wr (ww f2) = Some (mkSink ([] ++ frame (WriteByteOrder defaultOptions) [10; 11; 12]) []) /\
    rd (rr f2) = Some (bytes_reader [0]) /\ state f2 = 0.
Proof.
  intros wire hs.
  apply (forward_read_interrupted defaultOptions [10; 11; 12] [0] [] 2 0 0).
  - reflexivity.
  - reflexivity.
  - vm_compute. reflexivity.
  - vm_compute. discriminate.
  - vm_compute. discriminate.
  - vm_compute. lia.
Defined.

(** A reader that has parsed the header answers a destination that is too
    small with io.ErrShortBuffer, as often as it is asked. *)
Lemma readStream_short_again fr bo m s h small :
  rbo fr = bo -> len m <= framePayloadMaxLen56 ->
  readLimit fr <= 0 \/ len m <= readLimit fr ->
  length h = 8%nat -> firstn (Z.to_nat (header_size (len m))) h = wire_header bo (len m) ->
  len small < len m ->
  readStream (rstep fr s h (len m) (header_size (len m))) small =
  Some (0, Some ErrShortBuffer, rstep fr s h (len m) (header_size (len m)), small).
Proof.
  intros Hbo Hm Hlim Hh Hpre Hs. pose proof (len_nonneg m) as Hnn.
  pose proof (header_size_cases (len m)) as Hc.
  assert (Hwl : Z.of_nat (length (wire_header bo (len m))) = header_size (len m))
    by apply wire_header_length.
  assert (H1 : firstn 1 h = firstn 1 (wire_header bo (len m))).
  { apply firstn_1_of_prefix with (o := Z.to_nat (header_size (len m))); [lia|].
    rewrite Hpre. symmetry. apply firstn_all2. lia. }
  rewrite (readStream_resume fr bo (len m) h Hnn) by first [lia | exact H1].
  apply (read_tail_shortbuf fr bo (len m) h Hbo ltac:(lia) Hh Hpre); assumption.
Qed.

(** X11 — A stream forwarder meets a message longer than its buffer
    capacity: [ForwardOnce] returns (0, ErrTooLong) when a read limit is set
    (the capacity is the limit) and (0, io.ErrShortBuffer) otherwise (the
    capacity is 64 KiB).  Nothing is written, the payload stays in the
    source, and every later [ForwardOnce] returns the same error: the
    forwarder does not skip the message. *)
Theorem forward_oversized_message (o : Options) (m more : list Z) (sk : sink) (fuel : nat) :
  ReadProto o = BinaryStream -> len m <= framePayloadMaxLen56 ->
  forwarder_cap o < len m ->
  let e := if ReadLimit o <=? 0 then ErrShortBuffer else ErrTooLong in
  exists f1,
    ForwardOnce fuel
      (NewForwarder (Some sk) (Some (bytes_reader (frame (ReadByteOrder o) m ++ more))) o) =
      Some (0, Some e, f1) /\
    wr (ww f1) = Some sk /\ rd (rr f1) = Some (bytes_reader (m ++ more)) /\
    forall fuel', ForwardOnce fuel' f1 = Some (0, Some e, f1).
Proof.
  intros Hrp Hm Hover e.
  pose proof (forwarder_cap_pos o) as Hcp. pose proof (len_nonneg m) as Hnn.
  destruct (header_stored (ReadByteOrder o) m (repeat 0 8) eq_refl) as [Hl8 Hpre].
  set (b := repeat 0 (Z.to_nat (forwarder_cap o))).
  assert (Hb : len b = forwarder_cap o) by (unfold b, len; rewrite repeat_length; lia).
  rewrite NewForwarder_idle. unfold idle_forwarder. fold b.
  unfold ForwardOnce. cbn [state eofPending andb Z.eqb].
  unfold forward_phase0. cbn [state rr ww buf need got eofAfterThis eofPending rpr rstep Z.eqb].
  change (rpr (newFramer None None o)) with (ReadProto o). rewrite Hrp.
  cbn [preserveBoundary negb].
  rewrite !read_stream_dispatch by assumption.
  unfold e, forwarder_cap in *.
  destruct (Z.leb_spec (ReadLimit o) 0) as [Hno|Hlim].
  - rewrite (readStream_frame_short (newFramer None None o) (ReadByteOrder o) m more
               (repeat 0 8) eq_refl Hm (or_introl Hno) eq_refl []) by (cbn; lia).
    cbn [error_eqb length_ rstep].
    destruct (Z.gtb_spec (len m) (len b)) as [_|]; [|lia].
    eexists. split; [reflexivity|]. split; [reflexivity|]. split; [reflexivity|].
    intros fuel'. unfold ForwardOnce. cbn [state eofPending andb Z.eqb].
    unfold forward_phase0.
    cbn [state rr ww buf need got eofAfterThis eofPending rpr rstep Z.eqb].
    change (rpr (newFramer None None o)) with (ReadProto o). rewrite Hrp.
    cbn [preserveBoundary negb].
    rewrite read_stream_dispatch by assumption.
    rewrite (readStream_short_again (newFramer None None o) (ReadByteOrder o) m _ _ []
               eq_refl Hm (or_introl Hno) Hl8 Hpre) by (cbn; lia).
    cbn [error_eqb length_ rstep].
    destruct (Z.gtb_spec (len m) (len b)) as [_|]; [|lia].
    reflexivity.
  - rewrite (readStream_over_limit (newFramer None None o) (ReadByteOrder o) m eq_refl Hm
               ltac:(cbn [readLimit newFramer]; lia) more (repeat 0 8) [] eq_refl).
    cbn [error_eqb].
    eexists. split; [reflexivity|]. split; [reflexivity|]. split; [reflexivity|].
    intros fuel'. unfold ForwardOnce. cbn [state eofPending andb Z.eqb].
    unfold forward_phase0.
    cbn [state rr ww buf need got eofAfterThis eofPending rpr rstep Z.eqb].
    change (rpr (newFramer None None o)) with (ReadProto o). rewrite Hrp.
    cbn [preserveBoundary negb].
    rewrite read_stream_dispatch by assumption.
    rewrite (readStream_over_limit_again (newFramer None None o) (ReadByteOrder o) m eq_refl
               Hm ltac:(cbn [readLimit newFramer]; lia) _ _ [] Hl8 Hpre).
    cbn [error_eqb]. reflexivity.
Qed.

Lemma forward_oversized_message_witness :
  let e := if ReadLimit (mkOptions BigEndian BigEndian BinaryStream BinaryStream 2 (-1)) <=? 0
           then ErrShortBuffer else ErrTooLong in
  exists f1,
    ForwardOnce 1
      (NewForwarder (Some buffer_sink)
         (Some (bytes_reader
                  (frame (ReadByteOrder (mkOptions BigEndian BigEndian BinaryStream
                                           BinaryStream 2 (-1)))
                     [97; 98; 99; 100; 101] ++ [])))
         (mkOptions BigEndian BigEndian BinaryStream BinaryStream 2 (-1))) =
      Some (0, Some e, f1) /\
    wr (ww f1) = Some buffer_sink /\ rd (rr f1) = Some (bytes_reader ([97; 98; 99; 100; 101] ++ [])) /\
    forall fuel', ForwardOnce fuel' f1 = Some (0, Some e, f1).
Proof.
  apply (forward_oversized_message
           (mkOptions BigEndian BigEndian BinaryStream BinaryStream 2 (-1))
           [97; 98; 99; 100; 101] [] buffer_sink 1).
  - reflexivity.
  - vm_compute. discriminate.
  - vm_compute. reflexivity.
Defined.
(** ** Reading from a source in chunks of any size *)

Lemma drop_bytes_0 s : drop_bytes 0 s = s.
Proof. destruct s; reflexivity. Qed.

Lemma bytes_of_cons d e tl : bytes_of ((d, e) :: tl) = d ++ bytes_of tl.
Proof. reflexivity. Qed.

Lemma bytes_of_drop n s : bytes_of (drop_bytes n s) = skipn n (bytes_of s).
Proof.
  revert n. induction s as [|[d e] tl IH]; intros n.
  - destruct n; cbn [drop_bytes bytes_of map concat]; [reflexivity|]. symmetry. apply skipn_nil.
  - destruct n as [|n]; [reflexivity|].
    cbn [drop_bytes]. rewrite bytes_of_cons.
    destruct (Nat.leb_spec (length d) (S n)).
    + rewrite IH, skipn_app, (skipn_all2 d) by lia. reflexivity.
    + rewrite bytes_of_cons, skipn_app.
      replace (S n - length d)%nat with 0%nat by lia. reflexivity.
Qed.

Lemma steady_drop retry n s : steady retry s -> steady retry (drop_bytes n s).
Proof.
  intros Hs. revert n. induction Hs as [|[d e] tl Hc Hs IH]; intros n.
  - destruct n; constructor.
  - destruct n as [|n]; [constructor; assumption|].
    cbn [drop_bytes]. destruct (Nat.leb_spec (length d) (S n)); [apply IH|].
    constructor; [|exact Hs]. left. cbn [fst snd] in *.
    destruct Hc as [[Hd He]|[_ Hc]]; [|injection Hc as -> _; cbn [length] in *; lia].
    split; [|exact He]. intros Hz. apply (f_equal (@length Z)) in Hz.
    rewrite length_skipn in Hz. cbn [length] in Hz. lia.
Qed.

Lemma drop_bytes_add a b s :
  (0 < a)%nat -> drop_bytes b (drop_bytes a s) = drop_bytes (a + b) s.
Proof.
  intros Ha. destruct b as [|b]; [rewrite drop_bytes_0, Nat.add_0_r; reflexivity|].
  revert a Ha. induction s as [|[d e] tl IH]; intros a Ha.
  - destruct a; [lia|]. reflexivity.
  - destruct a as [|a]; [lia|].
    cbn [drop_bytes Nat.add].
    destruct (Nat.leb_spec (length d) (S a)) as [Hle|Hgt].
    + destruct (Nat.leb_spec (length d) (S (a + S b))) as [_|]; [|lia].
      destruct (Nat.eq_dec (S a - length d) 0) as [Hz|Hnz].
      * rewrite Hz, drop_bytes_0.
        replace (S (a + S b) - length d)%nat with (S b) by lia. reflexivity.
      * rewrite IH by lia.
        replace (S a - length d + S b)%nat with (S (a + S b) - length d)%nat by lia.
        reflexivity.
    + cbn [drop_bytes]. rewrite length_skipn.
      destruct (Nat.leb_spec (length d - S a) (S b));
        destruct (Nat.leb_spec (length d) (S (a + S b))); try lia.
      * replace (S b - (length d - S a))%nat with (S (a + S b) - length d)%nat by lia.
        reflexivity.
      * rewrite skipn_skipn.
        replace (S b + S a)%nat with (S (a + S b)) by lia. reflexivity.
Qed.

(** One call of the transport loop on a steady source that still has bytes:
    it delivers between 1 and [k] of them. *)
Lemma readOnce_steady retry s k :
  steady retry s -> (0 < k)%nat -> bytes_of s <> [] ->
  exists j, (0 < j <= k)%nat /\ (j <= length (bytes_of s))%nat /\
    readOnce_loop retry s k = (firstn j (bytes_of s), None, drop_bytes j s).
Proof.
  intros Hs Hk. induction Hs as [|[d e] tl Hc Hs IH]; intros Hb; [exfalso; apply Hb; reflexivity|].
  cbn [fst snd] in Hc. destruct Hc as [[Hd ->]|[-> Hc]].
  - rewrite bytes_of_cons.
    assert (Hdl : (0 < length d)%nat) by (destruct d; [congruence|cbn; lia]).
    destruct (Nat.le_gt_cases (length d) k) as [Hle|Hgt].
    + exists (length d). split; [lia|]. split; [rewrite length_app; lia|].
      replace ((d, None) :: tl) with (serve d None tl) at 1
        by (destruct d; [congruence|reflexivity]).
      rewrite readOnce_serve_all by lia.
      rewrite firstn_app, Nat.sub_diag, firstn_all. cbn [firstn]. rewrite app_nil_r.
      destruct (length d) as [|n] eqn:En; [lia|].
      cbn [drop_bytes]. rewrite En. rewrite Nat.leb_refl, Nat.sub_diag, drop_bytes_0.
      reflexivity.
    + exists k. split; [lia|]. split; [rewrite length_app; lia|].
      replace ((d, None) :: tl) with (serve d None tl) at 1
        by (destruct d; [congruence|reflexivity]).
      rewrite readOnce_serve_part by lia.
      rewrite firstn_app. replace (k - length d)%nat with 0%nat by lia.
      cbn [firstn]. rewrite app_nil_r.
      destruct k as [|k]; [lia|]. cbn [drop_bytes].
      destruct (Nat.leb_spec (length d) (S k)); [lia|].
      f_equal. destruct (skipn (S k) d) eqn:E; [|reflexivity].
      apply (f_equal (@length Z)) in E. rewrite length_skipn in E. cbn [length] in E. lia.
  - injection Hc as -> ->. rewrite bytes_of_cons in Hb |- *. cbn [app] in Hb |- *.
    destruct (IH Hb) as (j & Hj & Hjl & Hr). exists j. split; [exact Hj|]. split; [exact Hjl|].
    cbn [readOnce_loop rd_Read length Nat.leb].
    destruct (Nat.eqb_spec k 0); [lia|].
    cbn [negb andb Nat.eqb is_nil Nat.ltb Nat.leb is_err error_eqb].
    destruct tl as [|c tl'].
    + cbn [bytes_of map concat] in Hb. congruence.
    + rewrite Hr. destruct j as [|j]; [lia|]. cbn [drop_bytes length Nat.leb].
      rewrite Nat.sub_0_r. reflexivity.
Qed.

Lemma readOnce_steady_eof retry s k :
  steady retry s -> bytes_of s = [] -> readOnce_loop retry s k = ([], Some EOF, []).
Proof.
  intros Hs. induction Hs as [|[d e] tl Hc Hs IH]; intros Hb; [reflexivity|].
  rewrite bytes_of_cons in Hb. apply app_eq_nil in Hb. destruct Hb as [-> Hb].
  cbn [fst snd] in Hc. destruct Hc as [[Hd _]|[-> Hc]]; [congruence|].
  injection Hc as ->.
  cbn [readOnce_loop rd_Read length Nat.leb].
  cbn [negb andb Nat.eqb is_nil Nat.ltb Nat.leb is_err error_eqb].
  rewrite andb_false_r. cbn [Nat.ltb Nat.leb].
  destruct tl; [reflexivity|]. apply IH. exact Hb.
Qed.

Lemma firstn_split (B : list Z) j n :
  (j <= n)%nat -> firstn j B ++ firstn (n - j) (skipn j B) = firstn n B.
Proof.
  intros H. rewrite <- (slice_0 B j), <- (slice_0 B n).
  rewrite <- (slice_app B 0 j n) by lia. reflexivity.
Qed.

Section SteadyLoops.
Variable fr : framer.

Local Abbreviation retry := (waitOnceOnWouldBlock fr).

Lemma read_lead_steady s h Lc :
  steady retry s -> bytes_of s <> [] ->
  read_lead 1 (rstep fr s h Lc 0) =
  Some (Next (rstep fr (drop_bytes 1 s) (copy_at h 0 (firstn 1 (bytes_of s))) Lc 1)).
Proof.
  intros Hs Hb. cbn [read_lead]. fr_simpl. unfold frameHeaderLen.
  change (0 <? 1) with true. cbv iota.
  rewrite readOnce_rstep. change (Z.to_nat (1 - 0)) with 1%nat.
  destruct (readOnce_steady retry s 1 Hs ltac:(lia) Hb) as (j & Hj & Hjl & ->).
  assert (j = 1%nat) as -> by lia.
  fr_simpl. change (Z.to_nat 0) with 0%nat.
  assert (Hl : len (firstn 1 (bytes_of s)) = 1)
    by (unfold len; rewrite length_firstn; lia).
  rewrite Hl. reflexivity.
Qed.

Lemma read_ext_steady exLen fuel : forall s h Lc o,
  steady retry s -> 0 <= o <= 1 + exLen ->
  (Z.to_nat (1 + exLen) <= length h)%nat ->
  (Z.to_nat (1 + exLen - o) <= fuel)%nat ->
  (Z.to_nat (1 + exLen - o) <= length (bytes_of s))%nat ->
  read_ext fuel exLen (rstep fr s h Lc o) =
  Some (Next (rstep fr (drop_bytes (Z.to_nat (1 + exLen - o)) s)
                (copy_at h (Z.to_nat o) (firstn (Z.to_nat (1 + exLen - o)) (bytes_of s)))
                Lc (1 + exLen))).
Proof.
  induction fuel as [|fuel IH]; intros s h Lc o Hs Ho Hh Hf Hb.
  - rewrite read_ext_skip by (fr_simpl; lia).
    replace (Z.to_nat (1 + exLen - o)) with 0%nat by lia.
    rewrite drop_bytes_0. cbn [firstn]. rewrite copy_at_nil.
    replace (1 + exLen) with o by lia. reflexivity.
  - destruct (Z.eq_dec o (1 + exLen)) as [He|Hne].
    + rewrite read_ext_skip by (fr_simpl; lia).
      replace (Z.to_nat (1 + exLen - o)) with 0%nat by lia.
      rewrite drop_bytes_0. cbn [firstn]. rewrite copy_at_nil.
      replace (1 + exLen) with o by lia. reflexivity.
    + cbn [read_ext]. fr_simpl. unfold frameHeaderLen.
      destruct (Z.ltb_spec o (1 + exLen)) as [_|]; [|lia].
      rewrite readOnce_rstep.
      set (need := Z.to_nat (1 + exLen - o)) in *.
      assert (Hbne : bytes_of s <> [])
        by (intros Hz; rewrite Hz in Hb; cbn [length] in Hb; lia).
      destruct (readOnce_steady retry s need Hs ltac:(lia) Hbne) as (j & Hj & Hjl & ->).
      fr_simpl.
      assert (Hl : len (firstn j (bytes_of s)) = Z.of_nat j)
        by (unfold len; rewrite length_firstn; lia).
      rewrite Hl.
      change (set_offset (set_header (rstep fr ?s0 ?h0 ?L0 ?o0) ?h1) ?o1)
        with (rstep fr s0 h1 L0 o1).
      rewrite (IH (drop_bytes j s) _ Lc (o + Z.of_nat j) (steady_drop _ j s Hs))
        by first [ lia | (rewrite copy_at_length; rewrite ?length_firstn; lia)
                 | (rewrite bytes_of_drop, length_skipn; lia) ].
      replace (Z.to_nat (1 + exLen - (o + Z.of_nat j))) with (need - j)%nat by lia.
      rewrite drop_bytes_add by lia.
      replace (j + (need - j))%nat with need by lia.
      rewrite bytes_of_drop.
      replace (Z.to_nat (o + Z.of_nat j))
        with (Z.to_nat o + length (firstn j (bytes_of s)))%nat
        by (rewrite length_firstn; lia).
      rewrite copy_at_copy_at by (rewrite length_firstn; lia).
      rewrite firstn_split by lia. reflexivity.
Qed.

Lemma read_payload_steady hs fuel : forall s h Lc o p n,
  steady retry s -> 0 <= hs <= o -> o <= hs + Lc -> Lc <= len p ->
  (Z.to_nat (hs + Lc - o) <= fuel)%nat ->
  (Z.to_nat (hs + Lc - o) <= length (bytes_of s))%nat ->
  read_payload fuel hs (rstep fr s h Lc o) p n =
  Some (n + (hs + Lc - o), None,
        rstep fr (drop_bytes (Z.to_nat (hs + Lc - o)) s) h 0 0,
        copy_at p (Z.to_nat (o - hs)) (firstn (Z.to_nat (hs + Lc - o)) (bytes_of s))).
Proof.
  induction fuel as [|fuel IH]; intros s h Lc o p n Hs Ho Hlt Hp Hf Hb.
  - rewrite read_payload_done by lia.
    replace (Z.to_nat (hs + Lc - o)) with 0%nat by lia.
    rewrite drop_bytes_0. cbn [firstn]. rewrite copy_at_nil.
    replace (n + (hs + Lc - o)) with n by lia. reflexivity.
  - destruct (Z.eq_dec o (hs + Lc)) as [He|Hne].
    + rewrite read_payload_done by lia.
      replace (Z.to_nat (hs + Lc - o)) with 0%nat by lia.
      rewrite drop_bytes_0. cbn [firstn]. rewrite copy_at_nil.
      replace (n + (hs + Lc - o)) with n by lia. reflexivity.
    + cbn [read_payload]. fr_simpl.
      destruct (Z.ltb_spec o (hs + Lc)) as [_|]; [|lia].
      rewrite readOnce_rstep.
      set (need := Z.to_nat (hs + Lc - o)) in *.
      replace (Z.to_nat Lc - Z.to_nat (o - hs))%nat with need by lia.
      assert (Hbne : bytes_of s <> [])
        by (intros Hz; rewrite Hz in Hb; cbn [length] in Hb; lia).
      destruct (readOnce_steady retry s need Hs ltac:(lia) Hbne) as (j & Hj & Hjl & ->).
      fr_simpl.
      assert (Hl : len (firstn j (bytes_of s)) = Z.of_nat j)
        by (unfold len; rewrite length_firstn; lia).
      rewrite Hl.
      change (set_offset (rstep fr ?s0 ?h0 ?L0 ?o0) ?o1) with (rstep fr s0 h0 L0 o1).
      rewrite (IH (drop_bytes j s) h Lc (o + Z.of_nat j) _ _ (steady_drop _ j s Hs))
        by first [ lia
                 | (unfold len in *; rewrite copy_at_length; rewrite ?length_firstn; lia)
                 | (rewrite bytes_of_drop, length_skipn; lia) ].
      replace (Z.to_nat (hs + Lc - (o + Z.of_nat j))) with (need - j)%nat by lia.
      rewrite drop_bytes_add by lia.
      replace (j + (need - j))%nat with need by lia.
      rewrite bytes_of_drop.
      replace (Z.to_nat (o + Z.of_nat j - hs))
        with (Z.to_nat (o - hs) + length (firstn j (bytes_of s)))%nat
        by (rewrite length_firstn; lia).
      rewrite copy_at_copy_at by (unfold len in *; rewrite length_firstn; lia).
      rewrite firstn_split by lia.
      replace (n + Z.of_nat j + (hs + Lc - (o + Z.of_nat j))) with (n + (hs + Lc - o)) by lia.
      reflexivity.
Qed.
End SteadyLoops.

Section SteadyMessage.
Variables (fr : framer) (bo : ByteOrder) (m more : list Z).
Hypothesis Hbo : rbo fr = bo.
Hypothesis Hm : len m <= framePayloadMaxLen56.
Hypothesis Hlim : readLimit fr <= 0 \/ len m <= readLimit fr.

Local Abbreviation Wm := (wire_header bo (len m)).

(** One message from a steady source, however its bytes are chunked. *)
Lemma readStream_steady s h Lc dst :
  steady (waitOnceOnWouldBlock fr) s -> bytes_of s = frame bo m ++ more ->
  length h = 8%nat -> len m <= len dst ->
  readStream (rstep fr s h Lc 0) dst =
  Some (len m, None,
        rstep fr (drop_bytes (length (frame bo m)) s) (copy_at h 0 Wm) 0 0,
        copy_at dst 0 m).
Proof.
  intros Hs Hb Hh Hdst. unfold frame in *. rewrite <- app_assoc in Hb.
  pose proof (len_nonneg m) as Hnn.
  assert (Hwl : Z.of_nat (length Wm) = header_size (len m)) by apply wire_header_length.
  pose proof (header_size_cases (len m)) as Hcs.
  destruct (header_stored bo m h Hh) as [Hl8 Hst].
  assert (Hbl : length (bytes_of s) = (length Wm + length m + length more)%nat)
    by (rewrite Hb, !length_app; lia).
  assert (HfW : forall n, (n <= length Wm)%nat -> firstn n (bytes_of s) = firstn n Wm).
  { intros n Hn. rewrite Hb, firstn_app. replace (n - length Wm)%nat with 0%nat by lia.
    cbn [firstn]. apply app_nil_r. }
  rewrite readStream_unfold.
  rewrite read_lead_steady
    by (try assumption; intros Hz; rewrite Hz in Hbl; cbn [length] in Hbl; lia).
  rewrite (HfW 1%nat) by lia.
  assert (Hh1 : length (copy_at h 0 (firstn 1 Wm)) = 8%nat)
    by (rewrite copy_at_length; rewrite ?length_firstn; lia).
  assert (Hp1 : firstn 1 (copy_at h 0 (firstn 1 Wm)) = firstn 1 Wm).
  { pose proof (firstn_copy_at h 0 (firstn 1 Wm) ltac:(lia)) as Hc.
    rewrite length_firstn in Hc. replace (Nat.min 1 (length Wm)) with 1%nat in Hc by lia.
    exact Hc. }
  rewrite (read_exLen_header fr _ _ Lc 1 bo (len m)) by first [lia | exact Hp1].
  rewrite (read_ext_steady fr (header_size (len m) - 1) 7 (drop_bytes 1 s) _ Lc 1
             (steady_drop _ 1 s Hs))
    by first [ lia | (rewrite bytes_of_drop, length_skipn; lia) ].
  replace (Z.to_nat (1 + (header_size (len m) - 1) - 1)) with (length Wm - 1)%nat by lia.
  rewrite drop_bytes_add by lia. rewrite bytes_of_drop.
  change (Z.to_nat 1) with (0 + 1)%nat.
  replace (0 + 1)%nat with (0 + length (firstn 1 Wm))%nat at 1
    by (rewrite length_firstn; lia).
  rewrite copy_at_copy_at by (rewrite length_firstn; lia).
  rewrite <- (HfW 1%nat) by lia. rewrite firstn_split by lia.
  rewrite (HfW (length Wm)) by lia. rewrite firstn_all.
  replace (1 + (length Wm - 1))%nat with (length Wm) by lia.
  replace (1 + (header_size (len m) - 1)) with (header_size (len m)) by lia.
  rewrite (read_tail_checks fr bo (len m) (copy_at h 0 Wm) Hbo ltac:(lia) Hl8 Hst)
    by first [lia | assumption].
  rewrite (read_payload_steady fr (header_size (len m)) (Z.to_nat (len m))
             (drop_bytes (length Wm) s) _ (len m) (header_size (len m)) dst 0
             (steady_drop _ _ s Hs))
    by first [ lia | (rewrite bytes_of_drop, length_skipn; zlia) ].
  replace (Z.to_nat (header_size (len m) + len m - header_size (len m)))
    with (length m) by zlia.
  rewrite drop_bytes_add by lia. rewrite bytes_of_drop, Hb.
  rewrite skipn_app, skipn_all, Nat.sub_diag. cbn [skipn app].
  rewrite firstn_app, Nat.sub_diag, firstn_all. cbn [firstn]. rewrite app_nil_r.
  rewrite Z.sub_diag. change (Z.to_nat 0) with 0%nat.
  rewrite length_app.
  replace (0 + (header_size (len m) + len m - header_size (len m))) with (len m) by lia.
  reflexivity.
Qed.
End SteadyMessage.

(** End of stream on a steady source that has no bytes left. *)
Lemma readStream_steady_eof fr s h dst :
  steady (waitOnceOnWouldBlock fr) s -> bytes_of s = [] ->
  readStream (rstep fr s h 0 0) dst = Some (0, Some EOF, rstep fr [] h 0 0, dst).
Proof.
  intros Hs Hb. rewrite readStream_unfold.
  cbn [read_lead]. fr_simpl. unfold frameHeaderLen. change (0 <? 1) with true. cbv iota.
  rewrite readOnce_rstep, readOnce_steady_eof by assumption.
  fr_simpl. reflexivity.
Qed.

Section SteadyDecode.
Variable o : Options.
Hypothesis Hrp : ReadProto o = BinaryStream.

Local Abbreviation fr0 := (newFramer None None o).

Lemma decode_steady cap msgs :
  Forall (fun m => len m <= framePayloadMaxLen56 /\
                   (ReadLimit o <= 0 \/ len m <= ReadLimit o) /\
                   len m <= Z.of_nat cap) msgs ->
  forall s h,
    steady (waitOnceOnWouldBlock fr0) s ->
    bytes_of s = concat (map (frame (ReadByteOrder o)) msgs) ->
    length h = 8%nat ->
    decode (S (length msgs)) cap (rstep fr0 s h 0 0) = Some msgs.
Proof.
  induction 1 as [|m msgs (Hm & Hlim & Hcap) _ IH]; intros s h Hs Hb Hh.
  - cbn [length map concat decode] in *.
    rewrite read_stream_dispatch, readStream_steady_eof by assumption. reflexivity.
  - cbn [length map concat] in *.
    change (decode (S (S (length msgs))) cap ?f)
      with ('(n, e, fr1, got) <- read f (repeat 0 cap) ;;
            match e with
            | None =>
                ms <- decode (S (length msgs)) cap fr1 ;;
                Some (firstn (Z.to_nat n) got :: ms)
            | Some x => if error_eqb x EOF then Some [] else None
            end).
    rewrite read_stream_dispatch by assumption.
    rewrite (readStream_steady fr0 (ReadByteOrder o) m _ eq_refl Hm Hlim s h 0 _ Hs Hb Hh)
      by (unfold len in *; rewrite repeat_length; lia).
    cbv beta iota.
    destruct (header_stored (ReadByteOrder o) m h Hh) as [Hl8 _].
    rewrite (IH _ _ (steady_drop _ _ s Hs)); [| |exact Hl8].
    + replace (Z.to_nat (len m)) with (length m) by zlia.
      rewrite firstn_copy_at_0 by (rewrite repeat_length; zlia). reflexivity.
    + rewrite bytes_of_drop, Hb, skipn_app, skipn_all, Nat.sub_diag. reflexivity.
Qed.
End SteadyDecode.

Lemma retry_policy o :
  waitOnceOnWouldBlock (newFramer None None o) = (0 <=? RetryDelay o).
Proof.
  unfold waitOnceOnWouldBlock. cbn [retryDelay newFramer].
  destruct (Z.ltb_spec (RetryDelay o) 0); destruct (Z.leb_spec 0 (RetryDelay o));
    try reflexivity; lia.
Qed.

(** X12 — A stream read does not depend on how the transport chunks the
    wire.  Over any source that delivers the frame of [m] followed by [more]
    in non-empty chunks of any sizes (with would-block answers in between
    when the reader is configured to retry on would-block), one [Read] with a
    destination of at least [len m] bytes returns ([len m], nil) with the
    payload in the destination, the codec is back at offset 0, and the
    source is left holding exactly [more]. *)
Theorem read_any_chunking (o : Options) (m more dst : list Z) (s : source) :
  ReadProto o = BinaryStream -> len m <= framePayloadMaxLen56 ->
  ReadLimit o <= 0 \/ len m <= ReadLimit o -> len m <= len dst ->
  steady (0 <=? RetryDelay o) s -> bytes_of s = frame (ReadByteOrder o) m ++ more ->
  exists fr' dst' s',
    read (NewReader s o) dst = Some (len m, None, fr', dst') /\
    firstn (length m) dst' = m /\ offset fr' = 0 /\
    rd fr' = Some s' /\ steady (0 <=? RetryDelay o) s' /\ bytes_of s' = more.
Proof.
  intros Hrp Hm Hlim Hdst Hs Hb.
  rewrite <- retry_policy in Hs |- *.
  exists (rstep (newFramer None None o) (drop_bytes (length (frame (ReadByteOrder o) m)) s)
            (copy_at (repeat 0 8) 0 (wire_header (ReadByteOrder o) (len m))) 0 0),
    (copy_at dst 0 m), (drop_bytes (length (frame (ReadByteOrder o) m)) s).
  split.
  { unfold NewReader.
    change (newFramer (Some s) None o) with (rstep (newFramer None None o) s (repeat 0 8) 0 0).
    rewrite read_stream_dispatch by assumption.
    apply (readStream_steady (newFramer None None o) (ReadByteOrder o) m more eq_refl Hm Hlim);
      first [assumption | reflexivity]. }
  split; [apply firstn_copy_at_0; unfold len in Hdst; lia|].
  split; [reflexivity|]. split; [reflexivity|].
  split; [apply steady_drop; exact Hs|].
  rewrite bytes_of_drop, Hb, skipn_app, skipn_all, Nat.sub_diag. reflexivity.
Qed.

Lemma read_any_chunking_witness :
  exists fr' dst' s',
    read (NewReader [([3], None); ([], Some ErrWouldBlock); ([10; 11], None); ([12; 99], None)]
            (mkOptions BigEndian BigEndian BinaryStream BinaryStream 0 0))
      [0; 0; 0; 0] = Some (len [10; 11; 12], None, fr', dst') /\
    firstn (length [10; 11; 12]) dst' = [10; 11; 12] /\ offset fr' = 0 /\
    rd fr' = Some s' /\
    steady (0 <=? RetryDelay (mkOptions BigEndian BigEndian BinaryStream BinaryStream 0 0)) s' /\
    bytes_of s' = [99].
Proof.
  apply (read_any_chunking (mkOptions BigEndian BigEndian BinaryStream BinaryStream 0 0)
           [10; 11; 12] [99] [0; 0; 0; 0]).
  - reflexivity.
  - vm_compute. discriminate.
  - left. vm_compute. discriminate.
  - vm_compute. discriminate.
  - constructor; [left; split; [discriminate|reflexivity]|].
    constructor; [right; split; reflexivity|].
    constructor; [left; split; [discriminate|reflexivity]|].
    constructor; [left; split; [discriminate|reflexivity]|]. constructor.
  - reflexivity.
Defined.

(** X13 — Decoding a whole stream does not depend on the chunking either:
    over any such source whose bytes are the frames of [msgs], reading
    message after message until io.EOF returns exactly [msgs]. *)
Theorem decode_any_chunking (o : Options) (msgs : list (list Z)) (cap : nat) (s : source) :
  ReadProto o = BinaryStream ->
  Forall (fun m => len m <= framePayloadMaxLen56 /\
                   (ReadLimit o <= 0 \/ len m <= ReadLimit o) /\
                   len m <= Z.of_nat cap) msgs ->
  steady (0 <=? RetryDelay o) s ->
  bytes_of s = concat (map (frame (ReadByteOrder o)) msgs) ->
  decode (S (length msgs)) cap (NewReader s o) = Some msgs.
Proof.
  intros Hrp Hall Hs Hb. rewrite <- retry_policy in Hs.
  unfold NewReader.
  change (newFramer (Some s) None o) with (rstep (newFramer None None o) s (repeat 0 8) 0 0).
  apply (decode_steady o Hrp cap msgs Hall s (repeat 0 8) Hs Hb). reflexivity.
Qed.

Lemma decode_any_chunking_witness :
  decode (S (length [[10; 11; 12]; []; [7]])) 4
    (NewReader [([3; 10], None); ([11], None); ([12; 0; 1], None); ([7], None)]
       defaultOptions) =
  Some [[10; 11; 12]; []; [7]].
Proof.
  apply (decode_any_chunking defaultOptions [[10; 11; 12]; []; [7]] 4).
  - reflexivity.
  - repeat constructor; try (vm_compute; discriminate); left; vm_compute; discriminate.
  - repeat (constructor; [left; split; [discriminate|reflexivity]|]). constructor.
  - reflexivity.
Defined.
(** ** The fast path and the forwarder over sources chunked in any way *)

Section SteadyParts.
Variables (fr : framer) (bo : ByteOrder) (m more : list Z).
Hypothesis Hbo : rbo fr = bo.
Hypothesis Hm : len m <= framePayloadMaxLen56.
Hypothesis Hlim : readLimit fr <= 0 \/ len m <= readLimit fr.

Local Abbreviation Wm := (wire_header bo (len m)).

(** The header phase alone. *)
Lemma readStream_steady_header s h Lc dst :
  steady (waitOnceOnWouldBlock fr) s -> bytes_of s = frame bo m ++ more ->
  length h = 8%nat ->
  readStream (rstep fr s h Lc 0) dst =
  read_tail (header_size (len m) - 1)
    (rstep fr (drop_bytes (length Wm) s) (copy_at h 0 Wm) Lc (header_size (len m))) dst.
Proof.
  intros Hs Hb Hh. unfold frame in *. rewrite <- app_assoc in Hb.
  pose proof (len_nonneg m) as Hnn.
  assert (Hwl : Z.of_nat (length Wm) = header_size (len m)) by apply wire_header_length.
  pose proof (header_size_cases (len m)) as Hcs.
  assert (Hbl : length (bytes_of s) = (length Wm + length m + length more)%nat)
    by (rewrite Hb, !length_app; lia).
  assert (HfW : forall n, (n <= length Wm)%nat -> firstn n (bytes_of s) = firstn n Wm).
  { intros n Hn. rewrite Hb, firstn_app. replace (n - length Wm)%nat with 0%nat by lia.
    cbn [firstn]. apply app_nil_r. }
  rewrite readStream_unfold.
  rewrite read_lead_steady
    by (try assumption; intros Hz; rewrite Hz in Hbl; cbn [length] in Hbl; lia).
  rewrite (HfW 1%nat) by lia.
  assert (Hh1 : length (copy_at h 0 (firstn 1 Wm)) = 8%nat)
    by (rewrite copy_at_length; rewrite ?length_firstn; lia).
  assert (Hp1 : firstn 1 (copy_at h 0 (firstn 1 Wm)) = firstn 1 Wm).
  { pose proof (firstn_copy_at h 0 (firstn 1 Wm) ltac:(lia)) as Hc.
    rewrite length_firstn in Hc. replace (Nat.min 1 (length Wm)) with 1%nat in Hc by lia.
    exact Hc. }
  rewrite (read_exLen_header fr _ _ Lc 1 bo (len m)) by first [lia | exact Hp1].
  rewrite (read_ext_steady fr (header_size (len m) - 1) 7 (drop_bytes 1 s) _ Lc 1
             (steady_drop _ 1 s Hs))
    by first [ lia | (rewrite bytes_of_drop, length_skipn; lia) ].
  replace (Z.to_nat (1 + (header_size (len m) - 1) - 1)) with (length Wm - 1)%nat by lia.
  rewrite drop_bytes_add by lia. rewrite bytes_of_drop.
  change (Z.to_nat 1) with (0 + 1)%nat.
  replace (0 + 1)%nat with (0 + length (firstn 1 Wm))%nat at 1
    by (rewrite length_firstn; lia).
  rewrite copy_at_copy_at by (rewrite length_firstn; lia).
  rewrite <- (HfW 1%nat) by lia. rewrite firstn_split by lia.
  rewrite (HfW (length Wm)) by lia. rewrite firstn_all.
  replace (1 + (length Wm - 1))%nat with (length Wm) by lia.
  replace (1 + (header_size (len m) - 1)) with (header_size (len m)) by lia.
  reflexivity.
Qed.

(** A destination that is too small: the header is consumed, the payload
    stays in the source. *)
Lemma readStream_steady_short s h Lc small :
  steady (waitOnceOnWouldBlock fr) s -> bytes_of s = frame bo m ++ more ->
  length h = 8%nat -> len small < len m ->
  readStream (rstep fr s h Lc 0) small =
  Some (0, Some ErrShortBuffer,
        rstep fr (drop_bytes (length Wm) s) (copy_at h 0 Wm) (len m) (header_size (len m)),
        small).
Proof.
  intros Hs Hb Hh Hsm. pose proof (len_nonneg m) as Hnn.
  destruct (header_stored bo m h Hh) as [Hl8 Hst].
  rewrite readStream_steady_header by assumption.
  apply (read_tail_shortbuf fr bo (len m) (copy_at h 0 Wm) Hbo ltac:(lia) Hl8 Hst);
    assumption.
Qed.

(** The payload read that follows, whatever the chunks. *)
Lemma readStream_steady_payload s h dst :
  steady (waitOnceOnWouldBlock fr) s -> bytes_of s = m ++ more ->
  length h = 8%nat -> firstn (Z.to_nat (header_size (len m))) h = Wm ->
  len m <= len dst ->
  readStream (rstep fr s h (len m) (header_size (len m))) dst =
  Some (len m, None, rstep fr (drop_bytes (length m) s) h 0 0, copy_at dst 0 m).
Proof.
  intros Hs Hb Hh Hst Hdst. pose proof (len_nonneg m) as Hnn.
  assert (Hwl : Z.of_nat (length Wm) = header_size (len m)) by apply wire_header_length.
  pose proof (header_size_cases (len m)) as Hcs.
  assert (H1 : firstn 1 h = firstn 1 Wm).
  { apply firstn_1_of_prefix with (o := Z.to_nat (header_size (len m))); [lia|].
    rewrite Hst. symmetry. apply firstn_all2. lia. }
  rewrite (readStream_resume fr bo (len m) h Hnn) by first [lia | exact H1].
  rewrite (read_tail_checks fr bo (len m) h Hbo ltac:(lia) Hh Hst)
    by first [lia | assumption].
  rewrite (read_payload_steady fr (header_size (len m)) (Z.to_nat (len m)) s h (len m)
             (header_size (len m)) dst 0 Hs)
    by first [ lia | (rewrite Hb, length_app; zlia) ].
  replace (Z.to_nat (header_size (len m) + len m - header_size (len m)))
    with (length m) by zlia.
  rewrite Hb, firstn_app, Nat.sub_diag, firstn_all. cbn [firstn]. rewrite app_nil_r.
  rewrite Z.sub_diag. change (Z.to_nat 0) with 0%nat.
  replace (0 + (header_size (len m) + len m - header_size (len m))) with (len m) by lia.
  reflexivity.
Qed.
End SteadyParts.

Lemma bytes_of_drop_frame s (W m more : list Z) :
  bytes_of s = (W ++ m) ++ more ->
  bytes_of (drop_bytes (length W) s) = m ++ more /\
  bytes_of (drop_bytes (length (W ++ m)) s) = more.
Proof.
  intros Hb. rewrite !bytes_of_drop, Hb. split.
  - rewrite <- app_assoc, skipn_app, skipn_all, Nat.sub_diag. reflexivity.
  - rewrite skipn_app, skipn_all, Nat.sub_diag. reflexivity.
Qed.

Section ForwardSteady.
Variable o : Options.
Hypothesis Hrp : ReadProto o = BinaryStream.
Hypothesis Hwp : WriteProto o = BinaryStream.

Local Abbreviation fr0 := (newFramer None None o).

Lemma forward_message_steady m more s acc h hw b fuel :
  len m <= framePayloadMaxLen56 -> ReadLimit o <= 0 \/ len m <= ReadLimit o ->
  len m <= len b -> length h = 8%nat -> length hw = 8%nat ->
  steady (waitOnceOnWouldBlock fr0) s ->
  bytes_of s = frame (ReadByteOrder o) m ++ more ->
  exists h' hw' b',
    length h' = 8%nat /\ length hw' = 8%nat /\ length b' = length b /\
    ForwardOnce (S fuel) (idle_forwarder o s (mkSink acc []) h hw b) =
    Some (len m, None,
          idle_forwarder o (drop_bytes (length (frame (ReadByteOrder o) m)) s)
            (mkSink (acc ++ frame (WriteByteOrder o) m) []) h' hw' b').
Proof.
  intros Hm Hlim Hb Hh Hhw Hs Hbs.
  pose proof (len_nonneg m) as Hnn.
  destruct (header_stored (ReadByteOrder o) m h Hh) as [Hl8 Hst].
  assert (Hw8 : length (copy_at hw 0 (wire_header (WriteByteOrder o) (len m))) = 8%nat).
  { apply (header_stored (WriteByteOrder o) m hw Hhw). }
  destruct (bytes_of_drop_frame s _ m more Hbs) as [Hb1 Hb2].
  unfold ForwardOnce, idle_forwarder. cbn [state eofPending andb Z.eqb].
  unfold forward_phase0. cbn [state rr ww buf need got eofAfterThis eofPending rpr rstep Z.eqb].
  change (rpr fr0) with (ReadProto o). rewrite Hrp. cbn [preserveBoundary negb].
  rewrite read_stream_dispatch by assumption.
  destruct (Z.eq_dec (len m) 0) as [Hz|Hz].
  - assert (m = []) as -> by (destruct m; [reflexivity|cbn in Hz; lia]).
    rewrite (readStream_steady fr0 (ReadByteOrder o) [] more eq_refl Hm Hlim s h 0 []
               Hs Hbs Hh) by (cbn; lia).
    unfold forward_phase1. cbn [state Z.eqb Pos.eqb].
    unfold forward_phase2. cbn [state ww buf need rr got eofAfterThis eofPending Z.eqb Pos.eqb].
    change (firstn (Z.to_nat 0) b) with (@nil Z).
    rewrite write_message by assumption.
    eexists _, _, b. split; [exact Hl8|split; [exact Hw8|split; reflexivity]].
  - rewrite (readStream_steady_short fr0 (ReadByteOrder o) m more eq_refl Hm Hlim s h 0 []
               Hs Hbs Hh) by (cbn; lia).
    cbn [error_eqb length_ rstep].
    destruct (Z.gtb_spec (len m) (len b)) as [Hgt|_]; [lia|].
    unfold forward_phase1. cbn [state rr rpr rstep Z.eqb Pos.eqb].
    change (rpr fr0) with (ReadProto o). rewrite Hrp. cbn [preserveBoundary].
    cbn [forward_read_stream need got rr buf ww state eofAfterThis eofPending].
    destruct (Z.ltb_spec 0 (len m)) as [_|Hle]; [|lia].
    rewrite read_stream_dispatch by assumption.
    assert (Hfl : length (firstn (Z.to_nat (len m)) b) = length m)
      by (rewrite length_firstn; zlia).
    rewrite (readStream_steady_payload fr0 (ReadByteOrder o) m more eq_refl Hm Hlim _ _ _
               (steady_drop _ _ s Hs) Hb1 Hl8 Hst)
      by (unfold len in *; rewrite length_firstn; lia).
    rewrite (copy_at_whole (firstn (Z.to_nat (len m)) b) m) by (symmetry; exact Hfl).
    rewrite forward_read_stream_done by (cbn [need got]; lia).
    unfold forward_phase2. cbn [state ww buf need rr got eofAfterThis eofPending Z.eqb Pos.eqb].
    replace (Z.to_nat (len m)) with (length m) by zlia.
    rewrite firstn_copy_at_0 by zlia.
    rewrite write_message by assumption.
    assert (Hwl : Z.of_nat (length (wire_header (ReadByteOrder o) (len m))) =
                  header_size (len m)) by apply wire_header_length.
    pose proof (header_size_cases (len m)) as Hcs.
    rewrite drop_bytes_add by lia.
    unfold frame. rewrite length_app.
    eexists _, _, (copy_at b 0 m).
    split; [exact Hl8|split; [exact Hw8|split; [apply copy_at_length; zlia|reflexivity]]].
Qed.

Lemma forward_eof_steady s sk h hw b fuel :
  steady (waitOnceOnWouldBlock fr0) s -> bytes_of s = [] ->
  ForwardOnce fuel (idle_forwarder o s sk h hw b) =
  Some (0, Some EOF, idle_forwarder o [] sk h hw b).
Proof.
  intros Hs Hb. unfold ForwardOnce, idle_forwarder. cbn [state eofPending andb Z.eqb].
  unfold forward_phase0. cbn [state rr ww buf need got eofAfterThis eofPending rpr rstep Z.eqb].
  change (rpr fr0) with (ReadProto o). rewrite Hrp. cbn [preserveBoundary negb].
  rewrite read_stream_dispatch by assumption.
  rewrite readStream_steady_eof by assumption. reflexivity.
Qed.

Lemma relay_steady cap fuel msgs :
  Forall (fun m => len m <= framePayloadMaxLen56 /\
                   (ReadLimit o <= 0 \/ len m <= ReadLimit o) /\ len m <= cap) msgs ->
  forall s acc h hw b,
    len b = cap -> length h = 8%nat -> length hw = 8%nat ->
    steady (waitOnceOnWouldBlock fr0) s ->
    bytes_of s = concat (map (frame (ReadByteOrder o)) msgs) ->
    exists h' hw' b',
      relay (S (length msgs)) (S fuel) (idle_forwarder o s (mkSink acc []) h hw b) =
      Some (map len msgs, None,
            idle_forwarder o []
              (mkSink (acc ++ concat (map (frame (WriteByteOrder o)) msgs)) []) h' hw' b').
Proof.
  induction 1 as [|m msgs (Hm & Hlim & Hcap) _ IH]; intros s acc h hw b Hb Hh Hhw Hs Hbs.
  - exists h, hw, b. cbn [length map concat relay] in *.
    rewrite forward_eof_steady by assumption. cbn [error_eqb]. rewrite app_nil_r.
    reflexivity.
  - cbn [length map concat] in *.
    destruct (forward_message_steady m (concat (map (frame (ReadByteOrder o)) msgs)) s acc
                h hw b fuel Hm Hlim ltac:(lia) Hh Hhw Hs Hbs)
      as (h1 & hw1 & b1 & Hh1 & Hhw1 & Hb1 & Hf).
    assert (Hb1' : len b1 = cap) by (unfold len in Hb |- *; lia).
    destruct (IH (drop_bytes (length (frame (ReadByteOrder o) m)) s)
                (acc ++ frame (WriteByteOrder o) m) h1 hw1 b1 Hb1' Hh1 Hhw1
                (steady_drop _ _ s Hs))
      as (h2 & hw2 & b2 & Hr).
    { rewrite bytes_of_drop, Hbs, skipn_app, skipn_all, Nat.sub_diag. reflexivity. }
    exists h2, hw2, b2.
    change (relay (S (S (length msgs))) (S fuel) ?f)
      with ('(n, e, f1) <- ForwardOnce (S fuel) f ;;
            match e with
            | None =>
                '(ns, e', f') <- relay (S (length msgs)) (S fuel) f1 ;;
                Some (n :: ns, e', f')
            | Some x =>
                if error_eqb x EOF then Some ([], None, f1)
                else if error_eqb x ErrWouldBlock || error_eqb x ErrMore
                then relay (S (length msgs)) (S fuel) f1
                else Some ([], Some x, f1)
            end).
    rewrite Hf. cbv beta iota. rewrite Hr. rewrite <- app_assoc. reflexivity.
Qed.
End ForwardSteady.

(** X14 — The forwarder preserves boundaries whatever the chunking of its
    source.  A stream forwarder over any source whose bytes are the frames
    of [msgs] (each within the buffer capacity), delivered in non-empty
    chunks of any sizes (with would-block answers in between when the
    forwarder retries on would-block), and over a sink that accepts every
    write: the relay loop makes one successful call per message, each
    returning that message's length, then meets io.EOF, and the sink holds
    exactly one frame per message, in order, in the write byte order. *)
Theorem forwarder_any_chunking (o : Options) (msgs : list (list Z)) (s : source)
  (fuel : nat) :
  ReadProto o = BinaryStream -> WriteProto o = BinaryStream ->
  Forall (fun m => len m <= framePayloadMaxLen56 /\ len m <= forwarder_cap o) msgs ->
  steady (0 <=? RetryDelay o) s ->
  bytes_of s = concat (map (frame (ReadByteOrder o)) msgs) ->
  exists f',
    relay (S (length msgs)) (S fuel) (NewForwarder (Some buffer_sink) (Some s) o) =
      Some (map len msgs, None, f') /\
    wr (ww f') = Some (mkSink (concat (map (frame (WriteByteOrder o)) msgs)) []) /\
    rd (rr f') = Some [].
Proof.
  intros Hrp Hwp Hall Hs Hb. rewrite <- retry_policy in Hs.
  pose proof (forwarder_cap_pos o) as Hcp.
  rewrite NewForwarder_idle.
  destruct (relay_steady o Hrp Hwp (forwarder_cap o) fuel msgs) with
    (s := s) (acc := @nil Z) (h := repeat 0 8) (hw := repeat 0 8)
    (b := repeat 0 (Z.to_nat (forwarder_cap o))) as (h' & hw' & b' & Hr).
  - eapply Forall_impl; [|exact Hall]. cbv beta. intros m [Hm Hc].
    split; [exact Hm|split; [exact (stream_capacity o m Hc)|exact Hc]].
  - unfold len. rewrite repeat_length. lia.
  - reflexivity.
  - reflexivity.
  - exact Hs.
  - exact Hb.
  - eexists. split; [exact Hr|]. split; reflexivity.
Qed.

Lemma forwarder_any_chunking_witness :
  exists f',
    relay (S (length [[10; 11; 12]; []; [7]])) (S 0)
      (NewForwarder (Some buffer_sink)
         (Some [([3; 10], None); ([], Some ErrWouldBlock); ([11], None);
                ([12; 0; 1], None); ([7], None)])
         (mkOptions BigEndian LittleEndian BinaryStream BinaryStream 0 0)) =
      Some (map len [[10; 11; 12]; []; [7]], None, f') /\
    wr (ww f') =
      Some (mkSink (concat (map (frame (WriteByteOrder
                                          (mkOptions BigEndian LittleEndian BinaryStream
                                             BinaryStream 0 0)))
                              [[10; 11; 12]; []; [7]])) []) /\
    rd (rr f') = Some [].
Proof.
  apply (forwarder_any_chunking (mkOptions BigEndian LittleEndian BinaryStream BinaryStream 0 0)
           [[10; 11; 12]; []; [7]]).
  - reflexivity.
  - reflexivity.
  - repeat constructor; vm_compute; discriminate.
  - constructor; [left; split; [discriminate|reflexivity]|].
    constructor; [right; split; reflexivity|].
    repeat (constructor; [left; split; [discriminate|reflexivity]|]). constructor.
  - reflexivity.
Defined.

Section DrainSteady.
Variables (fr : framer) (bo : ByteOrder).
Hypothesis Hpr : rpr fr = BinaryStream.
Hypothesis Hbo : rbo fr = bo.

Lemma WriteTo_stream_eof_steady fuel s h b total dst :
  steady (waitOnceOnWouldBlock fr) s -> bytes_of s = [] ->
  WriteTo_stream (S fuel) (rstep fr s h 0 0) b total dst =
  Some (total, None, set_rbuf (rstep fr [] h 0 0) (Some b), dst).
Proof.
  intros Hs Hb. cbn [WriteTo_stream].
  rewrite read_rstep_stream, readStream_steady_eof by assumption. reflexivity.
Qed.

Lemma WriteTo_stream_message_steady fuel m more s h b total acc :
  len m <= framePayloadMaxLen56 -> readLimit fr <= 0 \/ len m <= readLimit fr ->
  len m <= len b -> length h = 8%nat ->
  steady (waitOnceOnWouldBlock fr) s -> bytes_of s = frame bo m ++ more ->
  exists h' b',
    length h' = 8%nat /\ length b' = length b /\
    WriteTo_stream (S fuel) (rstep fr s h 0 0) b total (mkSink acc []) =
    WriteTo_stream fuel (rstep fr (drop_bytes (length (frame bo m)) s) h' 0 0) b'
      (total + len m) (mkSink (acc ++ m) []).
Proof.
  intros Hm Hlim Hb Hh Hs Hbs. pose proof (len_nonneg m) as Hnn.
  destruct (header_stored bo m h Hh) as [Hl8 Hst].
  destruct (bytes_of_drop_frame s _ m more Hbs) as [Hb1 Hb2].
  cbn [WriteTo_stream]. rewrite read_rstep_stream by assumption.
  destruct (Z.eq_dec (len m) 0) as [Hz|Hz].
  - assert (m = []) as -> by (destruct m; [reflexivity|cbn in Hz; lia]).
    rewrite (readStream_steady fr bo [] more Hbo Hm Hlim s h 0 [] Hs Hbs Hh) by (cbn; lia).
    cbn [length_ rstep Z.eqb]. rewrite app_nil_r.
    replace (total + len []) with total by (cbn; lia).
    exists (copy_at h 0 (wire_header bo (len []))), b. auto.
  - rewrite (readStream_steady_short fr bo m more Hbo Hm Hlim s h 0 [] Hs Hbs Hh)
      by (cbn; lia).
    cbn [error_eqb length_ rstep].
    destruct (Z.gtb_spec (len m) (len b)) as [Hgt|_]; [lia|].
    destruct (Z.eqb_spec (len m) 0) as [|_]; [lia|].
    cbn [WriteTo_read_payload].
    destruct (Z.ltb_spec 0 (len m)) as [_|]; [|lia].
    rewrite read_rstep_stream by assumption.
    assert (Hfl : length (slice b (Z.to_nat 0) (Z.to_nat (len m))) = length m)
      by (rewrite slice_length; zlia).
    rewrite (readStream_steady_payload fr bo m more Hbo Hm Hlim _ _ _
               (steady_drop _ _ s Hs) Hb1 Hl8 Hst)
      by (unfold len in *; rewrite slice_length; lia).
    rewrite (copy_at_whole _ m) by (symmetry; exact Hfl).
    rewrite WriteTo_read_payload_done by lia.
    cbn [WriteTo_write_payload].
    destruct (Z.ltb_spec 0 (len m)) as [_|]; [|lia].
    change (Z.to_nat 0) with 0%nat.
    assert (Hsl : slice (copy_at b 0 m) 0 (Z.to_nat (len m)) = m).
    { unfold slice. cbn [skipn]. rewrite Nat.sub_0_r.
      replace (Z.to_nat (len m)) with (length m) by zlia.
      apply firstn_copy_at_0. zlia. }
    rewrite Hsl. unfold wr_Write. cbn [budgets accepted].
    destruct (Z.gtb_spec (len m) 0) as [_|]; [|lia].
    destruct (Z.eqb_spec (len m) 0) as [|_]; [lia|].
    rewrite WriteTo_write_payload_done by lia.
    assert (Hwl : Z.of_nat (length (wire_header bo (len m))) = header_size (len m))
      by apply wire_header_length.
    pose proof (header_size_cases (len m)) as Hcs.
    rewrite drop_bytes_add by lia.
    unfold frame. rewrite length_app.
    exists (copy_at h 0 (wire_header bo (len m))), (copy_at b 0 m).
    split; [exact Hl8|]. split; [apply copy_at_length; zlia|reflexivity].
Qed.

Lemma WriteTo_stream_frames_steady cap msgs :
  Forall (fun m => len m <= framePayloadMaxLen56 /\
                   (readLimit fr <= 0 \/ len m <= readLimit fr) /\ len m <= cap) msgs ->
  forall fuel s h b total acc,
    (length msgs < fuel)%nat -> len b = cap -> length h = 8%nat ->
    steady (waitOnceOnWouldBlock fr) s ->
    bytes_of s = concat (map (frame bo) msgs) ->
    exists fr',
      WriteTo_stream fuel (rstep fr s h 0 0) b total (mkSink acc []) =
      Some (total + total_len msgs, None, fr', mkSink (acc ++ concat msgs) []) /\
      rd fr' = Some [] /\ offset fr' = 0 /\ length_ fr' = 0.
Proof.
  induction 1 as [|m msgs (Hm & Hlim & Hcap) _ IH];
    intros fuel s h b total acc Hf Hb Hh Hs Hbs.
  - destruct fuel as [|fuel]; [cbn in Hf; lia|].
    cbn [map concat total_len fold_right] in *.
    rewrite WriteTo_stream_eof_steady by assumption.
    rewrite app_nil_r, Z.add_0_r. eexists. repeat split.
  - destruct fuel as [|fuel]; [cbn in Hf; lia|].
    cbn [map concat] in Hbs.
    destruct (WriteTo_stream_message_steady fuel m (concat (map (frame bo) msgs)) s h b
                total acc Hm Hlim ltac:(lia) Hh Hs Hbs) as (h1 & b1 & Hh1 & Hb1 & ->).
    assert (Hb1' : len b1 = cap) by (unfold len in Hb |- *; lia).
    assert (Hf' : (length msgs < fuel)%nat) by (cbn [length] in Hf; lia).
    destruct (IH fuel (drop_bytes (length (frame bo m)) s) h1 b1 (total + len m) (acc ++ m)
                Hf' Hb1' Hh1 (steady_drop _ _ s Hs))
      as (fr' & Hr & Hrest).
    { rewrite bytes_of_drop, Hbs, skipn_app, skipn_all, Nat.sub_diag. reflexivity. }
    exists fr'. rewrite Hr. split; [|exact Hrest].
    cbn [total_len fold_right concat]. rewrite <- app_assoc.
    fold (total_len msgs).
    replace (total + (len m + total_len msgs)) with (total + len m + total_len msgs) by lia.
    reflexivity.
Qed.
End DrainSteady.

(** X1 — [Reader.WriteTo] in stream mode.  Over any source whose bytes are
    the frames of [msgs] (each within the scratch capacity, which is the
    read limit when one is set and 64 KiB otherwise), delivered in non-empty
    chunks of any sizes (with would-block answers in between when the reader
    retries on would-block), and with a destination that accepts every
    write: the call returns the sum of the payload lengths and nil at end of
    stream, and the destination receives the payloads as they are, in order
    and without any framing. *)
Theorem WriteTo_stream_drains (o : Options) (msgs : list (list Z)) (s : source)
  (acc : list Z) (fuel : nat) :
  ReadProto o = BinaryStream ->
  Forall (fun m => len m <= framePayloadMaxLen56 /\ len m <= forwarder_cap o) msgs ->
  steady (0 <=? RetryDelay o) s ->
  bytes_of s = concat (map (frame (ReadByteOrder o)) msgs) ->
  (length msgs < fuel)%nat ->
  exists fr',
    WriteTo fuel (NewReader s o) (mkSink acc []) =
    Some (total_len msgs, None, fr', mkSink (acc ++ concat msgs) []) /\
    rd fr' = Some [] /\ offset fr' = 0.
Proof.
  intros Hpr Hall Hs Hbs Hf. rewrite <- retry_policy in Hs.
  pose proof (forwarder_cap_pos o) as Hcp.
  unfold WriteTo, NewReader. cbn [rpr rbuf newFramer readLimit]. rewrite Hpr.
  cbn [preserveBoundary]. fold (forwarder_cap o).
  set (b := repeat 0 (Z.to_nat (forwarder_cap o))).
  set (frb := set_rbuf (newFramer None None o) (Some b)).
  change (set_rbuf (newFramer (Some ?s) None o) (Some b))
    with (rstep frb s (repeat 0 8) 0 0).
  destruct (WriteTo_stream_frames_steady frb (ReadByteOrder o) Hpr eq_refl (forwarder_cap o)
              msgs)
    with (fuel := fuel) (s := s) (h := repeat 0 8) (b := b) (total := 0) (acc := acc)
    as (fr' & Hr & Hrd & Ho & _).
  - eapply Forall_impl; [|exact Hall]. cbv beta. intros m [Hm Hc].
    split; [exact Hm|split; [|exact Hc]].
    change (readLimit frb) with (ReadLimit o). exact (stream_capacity o m Hc).
  - exact Hf.
  - unfold b, len. rewrite repeat_length. lia.
  - reflexivity.
  - exact Hs.
  - exact Hbs.
  - exists fr'. rewrite Hr. auto.
Qed.

Lemma WriteTo_stream_drains_witness :
  exists fr',
    WriteTo 4
      (NewReader [([0; 2], None); ([1], None); ([2; 1; 3], None)] defaultOptions)
      (mkSink [9] []) =
    Some (total_len [[]; [1; 2]; [3]], None, fr', mkSink ([9] ++ concat [[]; [1; 2]; [3]]) []) /\
    rd fr' = Some [] /\ offset fr' = 0.
Proof.
  apply (WriteTo_stream_drains defaultOptions [[]; [1; 2]; [3]]
           [([0; 2], None); ([1], None); ([2; 1; 3], None)] [9] 4).
  - reflexivity.
  - repeat constructor; vm_compute; discriminate.
  - repeat (constructor; [left; split; [discriminate|reflexivity]|]). constructor.
  - reflexivity.
  - cbn [length]. lia.
Defined.
(** ** Packet mode, message by message *)

(** X15 — Packet mode is a pass-through in both directions.  [Write] hands
    the payload to the transport as it is, in one write, and returns its
    length; [Read] returns what one transport read delivers (a packet [p]
    that fits the destination and the read limit) together with that read's
    own error, nil or not, and leaves the codec at offset 0. *)
Theorem packet_pass_through (o o' : Options) (p acc dst : list Z) (e : option error)
  (tl : source) :
  preserveBoundary (WriteProto o) = true -> preserveBoundary (ReadProto o') = true ->
  p <> [] -> len p <= framePayloadMaxLen56 ->
  ReadLimit o' <= 0 \/ len p <= ReadLimit o' -> len p <= len dst ->
  exists fw fr' dst',
    write (NewWriter (mkSink acc []) o) p = Some (len p, None, fw) /\
    wr fw = Some (mkSink (acc ++ p) []) /\ offset fw = 0 /\
    read (NewReader ((p, e) :: tl) o') dst = Some (len p, e, fr', dst') /\
    firstn (length p) dst' = p /\ rd fr' = Some tl /\ offset fr' = 0.
Proof.
  intros Hwp Hrp Hp Hm Hlim Hdst.
  assert (Hpl : (0 < length p)%nat) by (destruct p; [congruence|cbn; lia]).
  exists (wstep (newFramer None None o) (mkSink (acc ++ p) []) (repeat 0 8) 0 0),
    (rstep (newFramer None None o') tl (repeat 0 8) 0 0), (copy_at dst 0 p).
  split.
  { unfold write, NewWriter. cbn [wr newFramer wpr]. rewrite Hwp.
    change (newFramer None (Some (mkSink acc [])) o)
      with (wstep (newFramer None None o) (mkSink acc []) (repeat 0 8) 0 0).
    apply writePacket_all. exact Hm. }
  split; [reflexivity|]. split; [reflexivity|].
  split.
  { unfold NewReader.
    change (newFramer (Some ?s) None o')
      with (rstep (newFramer None None o') s (repeat 0 8) 0 0).
    rewrite read_rstep_packet by exact Hrp.
    apply readPacket_chunk; [exact Hpl|unfold len in Hdst; lia|exact Hlim]. }
  split; [apply firstn_copy_at_0; unfold len in Hdst; lia|]. split; reflexivity.
Qed.

Lemma packet_pass_through_witness :
  exists fw fr' dst',
    write (NewWriter (mkSink [9] []) (mkOptions BigEndian BigEndian Datagram Datagram 0 (-1)))
      [1; 2; 3] = Some (len [1; 2; 3], None, fw) /\
    wr fw = Some (mkSink ([9] ++ [1; 2; 3]) []) /\ offset fw = 0 /\
    read (NewReader (([1; 2; 3], Some EOF) :: [])
            (mkOptions BigEndian BigEndian Datagram Datagram 0 (-1)))
      [0; 0; 0; 0] = Some (len [1; 2; 3], Some EOF, fr', dst') /\
    firstn (length [1; 2; 3]) dst' = [1; 2; 3] /\ rd fr' = Some [] /\ offset fr' = 0.
Proof.
  apply (packet_pass_through (mkOptions BigEndian BigEndian Datagram Datagram 0 (-1))
           (mkOptions BigEndian BigEndian Datagram Datagram 0 (-1)) [1; 2; 3] [9]
           [0; 0; 0; 0] (Some EOF) []).
  - reflexivity.
  - reflexivity.
  - discriminate.
  - vm_compute. discriminate.
  - left. vm_compute. discriminate.
  - vm_compute. discriminate.
Defined.

(** X16 — The read limit in packet mode is checked after the transport
    read: a packet longer than the limit is reported as ([n], ErrTooLong)
    with its [n] bytes already placed in the caller's buffer and consumed
    from the transport, and ErrTooLong replaces whatever error the transport
    read returned. *)
Theorem packet_over_limit (o : Options) (d dst : list Z) (e : option error) (tl : source) :
  preserveBoundary (ReadProto o) = true ->
  0 < ReadLimit o < len d -> len d <= len dst ->
  exists fr' dst',
    read (NewReader ((d, e) :: tl) o) dst = Some (len d, Some ErrTooLong, fr', dst') /\
    firstn (length d) dst' = d /\ rd fr' = Some tl.
Proof.
  intros Hrp Hlim Hdst.
  assert (Hdl : (0 < length d)%nat) by (unfold len in *; lia).
  exists (rstep (newFramer None None o) tl (repeat 0 8) 0 0), (copy_at dst 0 d).
  split.
  { unfold NewReader.
    change (newFramer (Some ?s) None o)
      with (rstep (newFramer None None o) s (repeat 0 8) 0 0).
    rewrite read_rstep_packet by exact Hrp.
    unfold readPacket. rewrite readOnce_rstep.
    replace ((d, e) :: tl) with (serve d e tl)
      by (destruct d; [cbn in Hdl; lia|reflexivity]).
    rewrite readOnce_serve_all by (unfold len in *; lia). fr_simpl.
    change (readLimit (newFramer None None o)) with (ReadLimit o).
    destruct (Z.gtb_spec (ReadLimit o) 0); [|lia]. cbn [andb].
    destruct (Z.gtb_spec (len d) (ReadLimit o)); [reflexivity|lia]. }
  split; [apply firstn_copy_at_0; unfold len in Hdst; lia|reflexivity].
Qed.

Lemma packet_over_limit_witness :
  exists fr' dst',
    read (NewReader (([1; 2; 3], None) :: [])
            (mkOptions BigEndian BigEndian Datagram Datagram 2 (-1)))
      [0; 0; 0; 0] = Some (len [1; 2; 3], Some ErrTooLong, fr', dst') /\
    firstn (length [1; 2; 3]) dst' = [1; 2; 3] /\ rd fr' = Some [].
Proof.
  apply (packet_over_limit (mkOptions BigEndian BigEndian Datagram Datagram 2 (-1))
           [1; 2; 3] [0; 0; 0; 0] None []).
  - reflexivity.
  - vm_compute. split; reflexivity.
  - vm_compute. discriminate.
Defined.
(** ** Transport errors and contract violations *)

(** A transport that answers a non-empty read with (0, nil). *)
Lemma SigTail_no_progress retry tl : SigTail retry (([], None) :: tl) ErrNoProgress tl.
Proof.
  intros k Hk. cbn [readOnce_loop rd_Read length Nat.leb].
  destruct (Nat.eqb_spec k 0) as [->|_]; [lia|]. reflexivity.
Qed.

Section Signal.
Variables (o : Options) (m more dst : list Z).
Hypothesis Hpr : ReadProto o = BinaryStream.
Hypothesis Hm : len m <= framePayloadMaxLen56.
Hypothesis Hlim : ReadLimit o <= 0 \/ len m <= ReadLimit o.
Hypothesis Hdst : len m <= len dst.

Local Abbreviation wire := (frame (ReadByteOrder o) m).
Local Abbreviation hsz := (length (wire_header (ReadByteOrder o) (len m))).

(** The transport delivers [k] bytes of the frame, then the chunk [c] that
    the transport loop reports as [x], then the rest. *)
Lemma read_signal_resume k c x :
  (k < length wire)%nat -> x <> EOF ->
  SigTail (waitOnceOnWouldBlock (newFramer None None o))
    (c :: serve (skipn k wire ++ more) None []) x (serve (skipn k wire ++ more) None []) ->
  exists fr1 dst1 fr2 dst2,
    read (NewReader (serve (firstn k wire) None
                       (c :: serve (skipn k wire ++ more) None [])) o) dst =
      Some (Z.of_nat (k - hsz), Some x, fr1, dst1) /\
    offset fr1 = Z.of_nat k /\
    read fr1 dst1 = Some (len m - Z.of_nat (k - hsz), None, fr2, dst2) /\
    firstn (length m) dst2 = m /\ offset fr2 = 0 /\
    rd fr2 = Some (serve more None []).
Proof.
  intros Hk Hx Hsig.
  assert (Hk' : (k < length (wire_header (ReadByteOrder o) (len m) ++ m))%nat) by exact Hk.
  pose proof (read_interrupted o m dst Hpr Hm Hlim Hdst 0 k _ x _
                ltac:(lia) Hk' Hsig) as H1.
  rewrite slice_0, at_position_0, dst_at_0 in H1.
  assert (Hxx : (if (k =? 0)%nat then x else eof_as x ErrUnexpectedEOF) = x)
    by (destruct (k =? 0)%nat; [reflexivity|apply eof_as_other; exact Hx]).
  rewrite Hxx in H1.
  replace (k - hsz - (0 - hsz))%nat with (k - hsz)%nat in H1 by lia.
  destruct (read_completed o m dst Hpr Hm Hlim Hdst k more None [])
    as (fr2 & dst2 & H2 & Hd2 & Ho2 & _ & Hrd2); [lia|right; left; reflexivity|].
  do 4 eexists. split; [exact H1|]. split; [reflexivity|].
  split; [exact H2|]. auto.
Qed.
End Signal.

(** X17 — Transport errors in stream mode are passed on unchanged and cost
    no state.  When the transport delivers the first [k] bytes of a frame
    (any position, header or payload) and then fails a read with an error
    [x] other than io.EOF (would-block only on a non-blocking reader),
    [Read] returns [x] with the number of payload bytes it has placed and the
    offset at [k]; a later [Read] with the same destination, once the
    transport delivers again, returns the rest of the payload with nil, the
    whole payload is in the destination, and the source is left at the bytes
    after the frame. *)
Theorem read_error_resumable (o : Options) (m more dst : list Z) (k : nat) (x : error) :
  ReadProto o = BinaryStream -> len m <= framePayloadMaxLen56 ->
  ReadLimit o <= 0 \/ len m <= ReadLimit o -> len m <= len dst ->
  let wire := frame (ReadByteOrder o) m in
  let hs := length (wire_header (ReadByteOrder o) (len m)) in
  (k < length wire)%nat -> x <> EOF -> RetryDelay o < 0 \/ x <> ErrWouldBlock ->
  exists fr1 dst1 fr2 dst2,
    read (NewReader (serve (firstn k wire) None
                       (([], Some x) :: serve (skipn k wire ++ more) None [])) o) dst =
      Some (Z.of_nat (k - hs), Some x, fr1, dst1) /\
    offset fr1 = Z.of_nat k /\
    read fr1 dst1 = Some (len m - Z.of_nat (k - hs), None, fr2, dst2) /\
    firstn (length m) dst2 = m /\ offset fr2 = 0 /\
    rd fr2 = Some (serve more None []).
Proof.
  intros Hpr Hm Hlim Hdst wire hs Hk Hx Hr.
  apply (read_signal_resume o m more dst Hpr Hm Hlim Hdst k ([], Some x) x Hk Hx).
  apply SigTail_sig. destruct Hr as [Hnb|Hne]; [left|right; exact Hne].
  apply nonblock_no_retry. exact Hnb.
Qed.

Lemma read_error_resumable_witness :
  let wire := frame (ReadByteOrder defaultOptions) [10; 11; 12] in
  let hs := length (wire_header (ReadByteOrder defaultOptions) (len [10; 11; 12])) in
  exists fr1 dst1 fr2 dst2,
    read (NewReader (serve (firstn 2 wire) None
                       (([], Some (ErrOther 7)) :: serve (skipn 2 wire ++ [1]) None []))
            defaultOptions) [0; 0; 0] =
      Some (Z.of_nat (2 - hs), Some (ErrOther 7), fr1, dst1) /\
    offset fr1 = Z.of_nat 2 /\
    read fr1 dst1 = Some (len [10; 11; 12] - Z.of_nat (2 - hs), None, fr2, dst2) /\
    firstn (length [10; 11; 12]) dst2 = [10; 11; 12] /\ offset fr2 = 0 /\
    rd fr2 = Some (serve [1] None []).
Proof.
  intros wire hs.
  apply (read_error_resumable defaultOptions [10; 11; 12] [1] [0; 0; 0] 2 (ErrOther 7)).
  - reflexivity.
  - vm_compute. discriminate.
  - left. vm_compute. discriminate.
  - vm_compute. discriminate.
  - vm_compute. lia.
  - discriminate.
  - right. discriminate.
Defined.

(** X18 — Guards against transports that make no progress.  A transport
    read that returns (0, nil) on a non-empty buffer makes [Read] return
    io.ErrNoProgress (with the payload count so far and the state kept, so a
    later call resumes) instead of spinning; a transport write that accepts
    0 bytes without an error makes [Write] return (0, io.ErrShortWrite) with
    nothing emitted, and writing the message again emits its frame once. *)
Theorem no_progress_guards (o : Options) (m more dst p acc : list Z) (k : nat) :
  ReadProto o = BinaryStream -> WriteProto o = BinaryStream ->
  len m <= framePayloadMaxLen56 -> ReadLimit o <= 0 \/ len m <= ReadLimit o ->
  len m <= len dst -> len p <= framePayloadMaxLen56 ->
  let wire := frame (ReadByteOrder o) m in
  let hs := length (wire_header (ReadByteOrder o) (len m)) in
  (k < length wire)%nat ->
  (exists fr1 dst1 fr2 dst2,
     read (NewReader (serve (firstn k wire) None
                        (([], None) :: serve (skipn k wire ++ more) None [])) o) dst =
       Some (Z.of_nat (k - hs), Some ErrNoProgress, fr1, dst1) /\
     offset fr1 = Z.of_nat k /\
     read fr1 dst1 = Some (len m - Z.of_nat (k - hs), None, fr2, dst2) /\
     firstn (length m) dst2 = m /\ offset fr2 = 0 /\
     rd fr2 = Some (serve more None [])) /\
  (exists fw1 fw2,
     write (NewWriter (mkSink acc [(0%nat, None)]) o) p =
       Some (0, Some ErrShortWrite, fw1) /\
     wr fw1 = Some (mkSink acc []) /\ offset fw1 = 0 /\
     write fw1 p = Some (len p, None, fw2) /\
     wr fw2 = Some (mkSink (acc ++ frame (WriteByteOrder o) p) [])).
Proof.
  intros Hrp Hwp Hm Hlim Hdst Hp wire hs Hk. split.
  - apply (read_signal_resume o m more dst Hrp Hm Hlim Hdst k ([], None) ErrNoProgress Hk);
      [discriminate|apply SigTail_no_progress].
  - pose proof (len_nonneg p) as Hnn.
    pose proof (header_size_cases (len p)) as Hcs.
    destruct (header_stored (WriteByteOrder o) p (repeat 0 8) eq_refl) as [Hl8 Hst].
    set (W := wire_header (WriteByteOrder o) (len p)) in *.
    assert (HWl : Z.of_nat (length W) = header_size (len p)) by apply wire_header_length.
    exists (wstep (newFramer None None o) (mkSink acc []) (copy_at (repeat 0 8) 0 W) (len p) 0).
    eexists. split; [|split; [reflexivity|split; [reflexivity|split]]].
    + unfold NewWriter.
      change (newFramer None (Some ?s) o)
        with (wstep (newFramer None None o) s (repeat 0 8) 0 0).
      rewrite write_stream_dispatch by assumption.
      rewrite (writeStream_start (newFramer None None o) p (repeat 0 8) (len p)
                 (header_size (len p)) W Hp eq_refl eq_refl eq_refl eq_refl _ 0 0)
        by first [lia | congruence].
      unfold in_flight_header. cbn [Z.eqb].
      change (wbo (newFramer None None o)) with (WriteByteOrder o). fold W.
      cbn [write_header]. fw_simpl.
      destruct (Z.ltb_spec 0 (header_size (len p))) as [_|]; [|lia].
      rewrite writeOnce_wstep.
      set (hd := slice (copy_at (repeat 0 8) 0 W) (Z.to_nat 0)
                   (Z.to_nat (header_size (len p)))).
      assert (Hsl : (0 < length hd)%nat) by (unfold hd; rewrite slice_length; lia).
      cbn [writeOnce_loop]. unfold wr_Write. cbn [budgets accepted].
      destruct (Nat.leb_spec (length hd) 0) as [|_]; [lia|].
      destruct (Nat.eqb_spec (length hd) 0) as [|_]; [lia|].
      cbn [negb andb Z.eqb Z.of_nat is_nil firstn]. fw_simpl.
      rewrite app_nil_r. reflexivity.
    + rewrite write_stream_dispatch by assumption.
      rewrite (writeStream_all (newFramer None None o) p (copy_at (repeat 0 8) 0 W) (len p)
                 (header_size (len p)) W Hp Hl8 eq_refl eq_refl eq_refl acc (len p) 0)
        by first [lia | congruence].
      replace (len p - Z.max 0 (0 - header_size (len p))) with (len p) by lia.
      reflexivity.
    + reflexivity.
Qed.

Lemma no_progress_guards_witness :
  let wire := frame (ReadByteOrder defaultOptions) [10; 11; 12] in
  let hs := length (wire_header (ReadByteOrder defaultOptions) (len [10; 11; 12])) in
  (exists fr1 dst1 fr2 dst2,
     read (NewReader (serve (firstn 2 wire) None
                        (([], None) :: serve (skipn 2 wire ++ [1]) None []))
             defaultOptions) [0; 0; 0] =
       Some (Z.of_nat (2 - hs), Some ErrNoProgress, fr1, dst1) /\
     offset fr1 = Z.of_nat 2 /\
     read fr1 dst1 = Some (len [10; 11; 12] - Z.of_nat (2 - hs), None, fr2, dst2) /\
     firstn (length [10; 11; 12]) dst2 = [10; 11; 12] /\ offset fr2 = 0 /\
     rd fr2 = Some (serve [1] None [])) /\
  (exists fw1 fw2,
     write (NewWriter (mkSink [] [(0%nat, None)]) defaultOptions) [4; 5] =
       Some (0, Some ErrShortWrite, fw1) /\
     wr fw1 = Some (mkSink [] []) /\ offset fw1 = 0 /\
     write fw1 [4; 5] = Some (len [4; 5], None, fw2) /\
     wr fw2 = Some (mkSink ([] ++ frame (WriteByteOrder defaultOptions) [4; 5]) [])).
Proof.
  intros wire hs.
  apply (no_progress_guards defaultOptions [10; 11; 12] [1] [0; 0; 0] [4; 5] [] 2).
  - reflexivity.
  - reflexivity.
  - vm_compute. discriminate.
  - left. vm_compute. discriminate.
  - vm_compute. discriminate.
  - vm_compute. discriminate.
  - vm_compute. lia.
Defined.
(** ** Reader and writer on one codec *)

Section Shared.
Variable o : Options.
Hypothesis Hrp : ReadProto o = BinaryStream.
Hypothesis Hwp : WriteProto o = BinaryStream.

(** The shared codec between two operations. *)
Local Abbreviation idle s sk h :=
  (mkFramer (Some s) (ReadByteOrder o) (ReadProto o) (Some sk) (WriteByteOrder o)
     (WriteProto o) (ReadLimit o) (RetryDelay o) h 0 0 None 0 0 None).

Lemma shared_read m more s sk h dst :
  len m <= framePayloadMaxLen56 -> ReadLimit o <= 0 \/ len m <= ReadLimit o ->
  len m <= len dst -> length h = 8%nat ->
  steady (0 <=? RetryDelay o) s -> bytes_of s = frame (ReadByteOrder o) m ++ more ->
  exists h',
    length h' = 8%nat /\
    read (idle s sk h) dst =
    Some (len m, None, idle (drop_bytes (length (frame (ReadByteOrder o) m)) s) sk h',
          copy_at dst 0 m).
Proof.
  intros Hm Hlim Hdst Hh Hs Hb.
  set (fr := wstep (newFramer None None o) sk h 0 0).
  change (idle s sk h) with (rstep fr s h 0 0).
  exists (copy_at h 0 (wire_header (ReadByteOrder o) (len m))).
  split; [apply (header_stored (ReadByteOrder o) m h Hh)|].
  rewrite read_rstep_stream by exact Hrp.
  rewrite <- retry_policy in Hs.
  rewrite (readStream_steady fr (ReadByteOrder o) m more eq_refl Hm Hlim s h 0 dst Hs Hb Hh
             Hdst).
  reflexivity.
Qed.

Lemma shared_write p s acc h :
  len p <= framePayloadMaxLen56 -> length h = 8%nat ->
  exists h',
    length h' = 8%nat /\
    write (idle s (mkSink acc []) h) p =
    Some (len p, None, idle s (mkSink (acc ++ frame (WriteByteOrder o) p) []) h').
Proof.
  intros Hp Hh.
  set (fr := rstep (newFramer None None o) s h 0 0).
  change (idle s (mkSink acc []) h) with (wstep fr (mkSink acc []) h 0 0).
  exists (copy_at h 0 (wire_header (WriteByteOrder o) (len p))).
  split; [apply (header_stored (WriteByteOrder o) p h Hh)|].
  rewrite write_wstep_stream by exact Hwp.
  pose proof (header_size_cases (len p)). pose proof (len_nonneg p).
  rewrite (writeStream_all fr p h (len p) (header_size (len p))
             (wire_header (WriteByteOrder o) (len p)) Hp Hh eq_refl eq_refl eq_refl acc 0 0)
    by first [lia | congruence].
  replace (len p - Z.max 0 (0 - header_size (len p))) with (len p) by lia.
  reflexivity.
Qed.

Lemma echo_messages cap msgs more :
  Forall (fun m => len m <= framePayloadMaxLen56 /\
                   (ReadLimit o <= 0 \/ len m <= ReadLimit o) /\
                   len m <= Z.of_nat cap) msgs ->
  forall s acc h,
    length h = 8%nat -> steady (0 <=? RetryDelay o) s ->
    bytes_of s = concat (map (frame (ReadByteOrder o)) msgs) ++ more ->
    exists s' h',
      echo (length msgs) cap (idle s (mkSink acc []) h) =
      Some (None,
            idle s' (mkSink (acc ++ concat (map (frame (WriteByteOrder o)) msgs)) []) h') /\
      steady (0 <=? RetryDelay o) s' /\ bytes_of s' = more.
Proof.
  induction 1 as [|m msgs (Hm & Hlim & Hcap) _ IH]; intros s acc h Hh Hs Hb.
  - exists s, h. cbn [length map concat echo app] in *. rewrite app_nil_r. auto.
  - cbn [length map concat] in *. rewrite <- app_assoc in Hb.
    destruct (shared_read m _ s (mkSink acc []) h (repeat 0 cap) Hm Hlim
                ltac:(unfold len in *; rewrite repeat_length; lia) Hh Hs Hb)
      as (h1 & Hh1 & Hr).
    destruct (shared_write m (drop_bytes (length (frame (ReadByteOrder o) m)) s) acc h1
                Hm Hh1) as (h2 & Hh2 & Hw).
    destruct (IH (drop_bytes (length (frame (ReadByteOrder o) m)) s)
                (acc ++ frame (WriteByteOrder o) m) h2 Hh2 (steady_drop _ _ s Hs))
      as (s' & h' & He & Hs' & Hb').
    { rewrite bytes_of_drop, Hb, skipn_app, skipn_all, Nat.sub_diag. reflexivity. }
    exists s', h'. split; [|split; assumption].
    change (echo (S (length msgs)) cap ?rw)
      with ('(k, re, rw1, got) <- read rw (repeat 0 cap) ;;
            match re with
            | Some x => Some (Some x, rw1)
            | None =>
                '(_, we, rw2) <- write rw1 (firstn (Z.to_nat k) got) ;;
                match we with
                | Some x => Some (Some x, rw2)
                | None => echo (length msgs) cap rw2
                end
            end).
    rewrite Hr. cbv beta iota.
    replace (Z.to_nat (len m)) with (length m) by zlia.
    rewrite firstn_copy_at_0 by (rewrite repeat_length; zlia).
    rewrite Hw. cbv beta iota. rewrite He, <- app_assoc. reflexivity.
Qed.
End Shared.

(** X19: a reader and a writer built by [NewReadWriter] share one codec, and
    yet complete operations on the two sides do not disturb each other: the
    echo loop of the TCP example, run once per message over a stream that
    holds the frames of [msgs] in any chunking (would-block answers allowed
    when the codec retries), writes exactly the frames of [msgs] in the write
    byte order to its transport, consumes exactly those frames from the
    source, and leaves the codec between two messages. *)
Theorem echo_on_shared_codec (o : Options) (msgs : list (list Z)) (more acc : list Z)
  (cap : nat) (s : source) :
  ReadProto o = BinaryStream -> WriteProto o = BinaryStream ->
  Forall (fun m => len m <= framePayloadMaxLen56 /\
                   (ReadLimit o <= 0 \/ len m <= ReadLimit o) /\
                   len m <= Z.of_nat cap) msgs ->
  steady (0 <=? RetryDelay o) s ->
  bytes_of s = concat (map (frame (ReadByteOrder o)) msgs) ++ more ->
  exists rw' s',
    echo (length msgs) cap (NewReadWriter s (mkSink acc []) o) = Some (None, rw') /\
    wr rw' = Some (mkSink (acc ++ concat (map (frame (WriteByteOrder o)) msgs)) []) /\
    rd rw' = Some s' /\ bytes_of s' = more /\ offset rw' = 0 /\ length_ rw' = 0.
Proof.
  intros Hrp Hwp Hall Hs Hb.
  destruct (echo_messages o Hrp Hwp cap msgs more Hall s acc (repeat 0 8) eq_refl Hs Hb)
    as (s' & h' & He & _ & Hb').
  do 2 eexists. split; [exact He|]. repeat split. exact Hb'.
Qed.

Lemma echo_on_shared_codec_witness :
  exists rw' s',
    echo (length [[104; 105]; []; [1; 2; 3]]) 4
      (NewReadWriter [([2; 104], None); ([105; 0; 3; 1], None); ([2; 3; 77], None)]
         (mkSink [] []) (mkOptions BigEndian LittleEndian BinaryStream BinaryStream 0 (-1))) =
      Some (None, rw') /\
    wr rw' =
      Some (mkSink ([] ++ concat (map (frame (WriteByteOrder
                                                (mkOptions BigEndian LittleEndian BinaryStream
                                                   BinaryStream 0 (-1))))
                                    [[104; 105]; []; [1; 2; 3]])) []) /\
    rd rw' = Some s' /\ bytes_of s' = [77] /\ offset rw' = 0 /\ length_ rw' = 0.
Proof.
  apply (echo_on_shared_codec (mkOptions BigEndian LittleEndian BinaryStream BinaryStream 0 (-1))
           [[104; 105]; []; [1; 2; 3]] [77] [] 4).
  - reflexivity.
  - reflexivity.
  - repeat constructor; try (vm_compute; discriminate); left; vm_compute; discriminate.
  - repeat (constructor; [left; split; [discriminate|reflexivity]|]). constructor.
  - reflexivity.
Defined.
